(** * Colosseum / AirSim plugin: shared-memory image transport and packing task

  A shallow embedding of
    - [SharedMemoryImageTransport.h] / [SharedMemoryImageTransport.cpp]
      (class [FSharedMemoryImageTransport]), and
    - [ImagePackingAsyncTask.h] (class [FImagePackingAsyncTask]),
  followed by the properties proved about them.

  The mapped segment is a flat array of bytes; struct fields are read and
  written at their byte offsets (little endian, as on the x86-64 / AArch64
  Linux targets of the plugin).  Unsigned 32-bit arithmetic is written out
  with its wrap-around.  Calls into the operating system and the atomic
  primitive are recorded in a trace, and their results are either computed
  from the modelled kernel objects (semaphore values, the mapping) or taken
  from an explicit record of outcomes.  A computation that the source
  leaves undefined (an access outside the mapping, a remainder by zero)
  has no result.  Log output ([UE_LOG]) is left out. *)

From Stdlib Require Import ZArith Lia Bool String.
From stdpp Require Import base list pretty.

Local Open Scope Z_scope.

(** ** Fixed-width integers and bytes *)

Module Mem.

Definition u32 (x : Z) : Z := x mod 2 ^ 32.
Definition u64 (x : Z) : Z := x mod 2 ^ 64.

Definition is_u32 (x : Z) : Prop := 0 <= x < 2 ^ 32.
Definition is_u64 (x : Z) : Prop := 0 <= x < 2 ^ 64.

(** A byte is an integer; the encoders below only produce values in
    [0, 256). *)
Definition byte := Z.

(** [n] bytes of [v], least significant first. *)
Fixpoint le_bytes (n : nat) (v : Z) : list byte :=
  match n with
  | O => []
  | S n' => v mod 256 :: le_bytes n' (v / 256)
  end.

Fixpoint le_value (bs : list byte) : Z :=
  match bs with
  | [] => 0
  | b :: bs' => b + 256 * le_value bs'
  end.

(** An access outside the array has no defined result. *)
Definition load (off len : Z) (m : list byte) : option (list byte) :=
  if (0 <=? off) && (0 <=? len) && (off + len <=? Z.of_nat (length m))
  then Some (take (Z.to_nat len) (drop (Z.to_nat off) m))
  else None.

Definition store (off : Z) (bs : list byte) (m : list byte)
  : option (list byte) :=
  if (0 <=? off) && (off + Z.of_nat (length bs) <=? Z.of_nat (length m))
  then Some (take (Z.to_nat off) m ++ bs
             ++ drop (Z.to_nat off + length bs)%nat m)
  else None.

Definition load_uint (n : nat) (off : Z) (m : list byte) : option Z :=
  le_value <$> load off (Z.of_nat n) m.

Definition store_uint (n : nat) (off v : Z) (m : list byte)
  : option (list byte) :=
  store off (le_bytes n v) m.

End Mem.

Import Mem.

(** ** The transport: [SharedMemoryImageTransport.h/.cpp] *)

Module Shm.

(** *** Layout of the two structs *)

(** [struct FSharedImageSlot]: field offsets and
    [HeaderSize = sizeof(Width) + sizeof(Height) + sizeof(Timestamp)
                  + sizeof(ImageType) + sizeof(DataSize)]. *)
Definition slot_Width : Z := 0.
Definition slot_Height : Z := 4.
Definition slot_Timestamp : Z := 8.
Definition slot_ImageType : Z := 16.
Definition slot_DataSize : Z := 20.
Definition slot_PixelData : Z := 24.
Definition HeaderSize : Z := 4 + 4 + 8 + 4 + 4.

(** [struct FSharedMemoryHeader]: four [uint32] and one [uint64]. *)
Definition hdr_MagicNumber : Z := 0.
Definition hdr_NumSlots : Z := 4.
Definition hdr_SlotSize : Z := 8.
Definition hdr_WriteIndex : Z := 12.
Definition hdr_LastUpdateTime : Z := 16.
Definition sizeof_FSharedMemoryHeader : Z := 24.
Definition MAGIC_NUMBER : Z := 0x41495253.

(** *** Operating-system side *)

Record timespec := { tv_sec : Z; tv_nsec : Z }.

Inductive semaphore := WriteSem | ReadSem.

Inductive event :=
| ev_shm_open (name : string)
| ev_ftruncate (fd size : Z)
| ev_mmap (size fd : Z)
| ev_munmap (size : Z)
| ev_close (fd : Z)
| ev_shm_unlink (name : string)
| ev_sem_open (name : string) (value : Z)
| ev_sem_close (s : semaphore)
| ev_sem_unlink (name : string)
| ev_sem_timedwait (s : semaphore) (abs_timeout : timespec)
| ev_sem_post (s : semaphore)
| ev_InterlockedCompareExchange (dest exchange comparand : Z).

(** What the kernel answers to the calls of [Initialize] whose result the
    model does not compute. *)
Record os_results := {
  shm_open_fd : Z;          (* a descriptor, or -1 *)
  ftruncate_ret : Z;        (* 0, or -1 *)
  mmap_ok : bool;           (* false: MAP_FAILED *)
  sem_open_write_ok : bool; (* false: SEM_FAILED *)
  sem_open_read_ok : bool
}.

Record world := {
  pid : Z;                      (* FPlatformProcess::GetCurrentProcessId() *)
  mapping : option (list byte); (* the mapped segment, when mapped *)
  write_permits : Z;            (* value of "/airsim_write_<pid>" *)
  read_ready : Z;               (* value of "/airsim_read_<pid>" *)
  trace : list event            (* calls made so far, oldest first *)
}.

(** *** Members of [FSharedMemoryImageTransport]

    Pointers into the segment are offsets from its start; [None] is
    [nullptr].  [SharedMemoryPtr] and the semaphore handles are either
    valid ([true]) or [MAP_FAILED] / [SEM_FAILED] ([false]). *)
Record transport := {
  SharedMemoryName : string;
  SharedMemoryFD : Z;
  SharedMemoryPtr : bool;
  TotalSize : Z;
  Header : option Z;
  SlotDataStart : option Z;
  WriteSemaphore : bool;
  ReadSemaphore : bool;
  bIsInitialized : bool;
  MaxSlots : Z;
  SingleSlotSize : Z
}.

Record state := { this : transport; os : world }.

(** The constructor's member initialisers. *)
Definition constructed : transport :=
  {| SharedMemoryName := ""; SharedMemoryFD := -1; SharedMemoryPtr := false;
     TotalSize := 0; Header := None; SlotDataStart := None;
     WriteSemaphore := false; ReadSemaphore := false;
     bIsInitialized := false; MaxSlots := 0; SingleSlotSize := 0 |}.

Definition fresh_world (p : Z) : world :=
  {| pid := p; mapping := None; write_permits := 0; read_ready := 0;
     trace := [] |}.

Definition fresh (p : Z) : state :=
  {| this := constructed; os := fresh_world p |}.

(** *** A state monad with undefined behaviour as failure *)

Definition M (A : Type) : Type := state -> option (A * state).

Definition ret {A} (a : A) : M A := fun st => Some (a, st).
Definition fault {A} : M A := fun _ => None.
Definition bind {A B} (c : M A) (k : A -> M B) : M B :=
  fun st => match c st with
            | Some (a, st') => k a st'
            | None => None
            end.

Declare Scope shm_scope.
Delimit Scope shm_scope with shm.
Notation "'let*' x ':=' c 'in' k" := (bind c (fun x => k))
  (at level 10, x pattern, c at level 100, k at level 200) : shm_scope.
Notation "c ';;' k" := (bind c (fun _ => k))
  (at level 100, k at level 200, right associativity) : shm_scope.
Local Open Scope shm_scope.

(** State updates. *)
Definition upd_this (f : transport -> transport) (st : state) : state :=
  {| this := f (this st); os := os st |}.

Definition add_event (e : event) (st : state) : state :=
  {| this := this st;
     os := {| pid := pid (os st); mapping := mapping (os st);
              write_permits := write_permits (os st);
              read_ready := read_ready (os st);
              trace := trace (os st) ++ [e] |} |}.

Definition put_mapping (m : option (list byte)) (st : state) : state :=
  {| this := this st;
     os := {| pid := pid (os st); mapping := m;
              write_permits := write_permits (os st);
              read_ready := read_ready (os st);
              trace := trace (os st) |} |}.

Definition sem_value (s : semaphore) (w : world) : Z :=
  match s with WriteSem => write_permits w | ReadSem => read_ready w end.

Definition put_sem (s : semaphore) (v : Z) (st : state) : state :=
  {| this := this st;
     os := {| pid := pid (os st); mapping := mapping (os st);
              write_permits := match s with
                               | WriteSem => v
                               | ReadSem => write_permits (os st)
                               end;
              read_ready := match s with
                            | ReadSem => v
                            | WriteSem => read_ready (os st)
                            end;
              trace := trace (os st) |} |}.

Definition get {A} (f : transport -> A) : M A :=
  fun st => Some (f (this st), st).
Definition modify (f : transport -> transport) : M unit :=
  fun st => Some (tt, upd_this f st).
Definition emit (e : event) : M unit :=
  fun st => Some (tt, add_event e st).
Definition getpid : M Z := fun st => Some (pid (os st), st).
Definition set_mapping (m : option (list byte)) : M unit :=
  fun st => Some (tt, put_mapping m st).
Definition set_sem (s : semaphore) (v : Z) : M unit :=
  fun st => Some (tt, put_sem s v st).

(** Memory accesses through a pointer into the segment. *)
Definition read_uint (n : nat) (addr : Z) : M Z :=
  fun st => match mapping (os st) with
            | Some m => match load_uint n addr m with
                        | Some v => Some (v, st)
                        | None => None
                        end
            | None => None
            end.

Definition write_bytes (addr : Z) (bs : list byte) : M unit :=
  fun st => match mapping (os st) with
            | Some m => match store addr bs m with
                        | Some m' => set_mapping (Some m') st
                        | None => None
                        end
            | None => None
            end.

Definition write_uint (n : nat) (addr v : Z) : M unit :=
  write_bytes addr (le_bytes n v).


(** *** System calls and the atomic primitive *)

(** [sem_timedwait]: takes a permit when one is there; otherwise, nobody
    posting in the meantime, the call gives up at [abs_timeout] and
    returns -1. *)
Definition sem_timedwait (s : semaphore) (abs_timeout : timespec) : M Z :=
  emit (ev_sem_timedwait s abs_timeout);;
  fun st =>
    if 0 <? sem_value s (os st)
    then (set_sem s (sem_value s (os st) - 1);; ret 0) st
    else ret (-1) st.

Definition sem_post (s : semaphore) : M unit :=
  emit (ev_sem_post s);;
  fun st => set_sem s (sem_value s (os st) + 1) st.

(** [FPlatformAtomics::InterlockedCompareExchange(Dest, Exchange, Comparand)]
    on a 32-bit word: returns the old value, and stores [Exchange] when the
    old value equals [Comparand].  The source casts the word to [int32]; two
    32-bit words are equal as [int32] exactly when they are equal as
    [uint32], so the comparison is made on the unsigned values. *)
Definition InterlockedCompareExchange (dest exchange comparand : Z) : M Z :=
  emit (ev_InterlockedCompareExchange dest exchange comparand);;
  let* old := read_uint 4 dest in
  if old =? comparand
  then (write_uint 4 dest exchange;; ret old)
  else ret old.

(** *** Private helpers *)

Definition with_SharedMemoryPtr (b : bool) (t : transport) : transport :=
  {| SharedMemoryName := SharedMemoryName t; SharedMemoryFD := SharedMemoryFD t;
     SharedMemoryPtr := b; TotalSize := TotalSize t; Header := Header t;
     SlotDataStart := SlotDataStart t; WriteSemaphore := WriteSemaphore t;
     ReadSemaphore := ReadSemaphore t; bIsInitialized := bIsInitialized t;
     MaxSlots := MaxSlots t; SingleSlotSize := SingleSlotSize t |}.

Definition with_SharedMemoryFD (fd : Z) (t : transport) : transport :=
  {| SharedMemoryName := SharedMemoryName t; SharedMemoryFD := fd;
     SharedMemoryPtr := SharedMemoryPtr t; TotalSize := TotalSize t;
     Header := Header t; SlotDataStart := SlotDataStart t;
     WriteSemaphore := WriteSemaphore t; ReadSemaphore := ReadSemaphore t;
     bIsInitialized := bIsInitialized t; MaxSlots := MaxSlots t;
     SingleSlotSize := SingleSlotSize t |}.

Definition with_Semaphore (s : semaphore) (b : bool) (t : transport)
  : transport :=
  {| SharedMemoryName := SharedMemoryName t; SharedMemoryFD := SharedMemoryFD t;
     SharedMemoryPtr := SharedMemoryPtr t; TotalSize := TotalSize t;
     Header := Header t; SlotDataStart := SlotDataStart t;
     WriteSemaphore := match s with WriteSem => b
                                  | ReadSem => WriteSemaphore t end;
     ReadSemaphore := match s with ReadSem => b
                                 | WriteSem => ReadSemaphore t end;
     bIsInitialized := bIsInitialized t; MaxSlots := MaxSlots t;
     SingleSlotSize := SingleSlotSize t |}.

Definition with_bIsInitialized (b : bool) (t : transport) : transport :=
  {| SharedMemoryName := SharedMemoryName t; SharedMemoryFD := SharedMemoryFD t;
     SharedMemoryPtr := SharedMemoryPtr t; TotalSize := TotalSize t;
     Header := Header t; SlotDataStart := SlotDataStart t;
     WriteSemaphore := WriteSemaphore t; ReadSemaphore := ReadSemaphore t;
     bIsInitialized := b; MaxSlots := MaxSlots t;
     SingleSlotSize := SingleSlotSize t |}.

Definition with_sizes (slots slot_size total : Z) (name : string)
  (t : transport) : transport :=
  {| SharedMemoryName := name; SharedMemoryFD := SharedMemoryFD t;
     SharedMemoryPtr := SharedMemoryPtr t; TotalSize := total;
     Header := Header t; SlotDataStart := SlotDataStart t;
     WriteSemaphore := WriteSemaphore t; ReadSemaphore := ReadSemaphore t;
     bIsInitialized := bIsInitialized t; MaxSlots := slots;
     SingleSlotSize := slot_size |}.

Definition with_Header (hdr : option Z) (t : transport) : transport :=
  {| SharedMemoryName := SharedMemoryName t; SharedMemoryFD := SharedMemoryFD t;
     SharedMemoryPtr := SharedMemoryPtr t; TotalSize := TotalSize t;
     Header := hdr; SlotDataStart := SlotDataStart t;
     WriteSemaphore := WriteSemaphore t; ReadSemaphore := ReadSemaphore t;
     bIsInitialized := bIsInitialized t; MaxSlots := MaxSlots t;
     SingleSlotSize := SingleSlotSize t |}.

Definition with_SlotDataStart (slots : option Z) (t : transport) : transport :=
  {| SharedMemoryName := SharedMemoryName t; SharedMemoryFD := SharedMemoryFD t;
     SharedMemoryPtr := SharedMemoryPtr t; TotalSize := TotalSize t;
     Header := Header t; SlotDataStart := slots;
     WriteSemaphore := WriteSemaphore t; ReadSemaphore := ReadSemaphore t;
     bIsInitialized := bIsInitialized t; MaxSlots := MaxSlots t;
     SingleSlotSize := SingleSlotSize t |}.

Definition images_name (p : Z) : string := "/airsim_images_" +:+ pretty p.
Definition write_sem_name (p : Z) : string := "/airsim_write_" +:+ pretty p.
Definition read_sem_name (p : Z) : string := "/airsim_read_" +:+ pretty p.

Definition sem_name (s : semaphore) (p : Z) : string :=
  match s with WriteSem => write_sem_name p | ReadSem => read_sem_name p end.

(** [MapSharedMemory]: the object was just sized by [ftruncate], so the
    mapping starts as [Size] zero bytes. *)
Definition MapSharedMemory (ok : bool) (Size : Z) : M bool :=
  let* fd := get SharedMemoryFD in
  emit (ev_mmap Size fd);;
  if ok
  then (set_mapping (Some (replicate (Z.to_nat Size) 0));; ret true)
  else ret false.

Definition UnmapSharedMemory : M unit :=
  let* ptr := get SharedMemoryPtr in
  let* total := get TotalSize in
  if ptr && (0 <? total)
  then (emit (ev_munmap total);;
        set_mapping None;;
        modify (with_SharedMemoryPtr false))
  else ret tt.

(** [GetSlot]: [nullptr] for an index out of range, else
    [SlotDataStart + Index * SingleSlotSize], the product being a [uint32]
    product. *)
Definition GetSlot (Index : Z) : M (option Z) :=
  let* slots := get MaxSlots in
  if slots <=? Index then ret None
  else
    let* start := get SlotDataStart in
    let* size := get SingleSlotSize in
    match start with
    | Some base => ret (Some (base + u32 (Index * size)))
    | None => fault
    end.

(** [GetNextWriteIndex]: the compare-and-swap loop.  [fuel] bounds the number
    of attempts; [% MaxSlots] with [MaxSlots = 0] has no defined result. *)
Fixpoint GetNextWriteIndex_loop (fuel : nat) : M Z :=
  match fuel with
  | O => fault
  | S fuel' =>
      let* hdr := get Header in
      let* slots := get MaxSlots in
      match hdr with
      | None => fault
      | Some h =>
          let* CurrentIndex := read_uint 4 (h + hdr_WriteIndex) in
          if slots =? 0 then fault
          else
            let NextIndex := u32 (CurrentIndex + 1) mod slots in
            let* old := InterlockedCompareExchange (h + hdr_WriteIndex)
                          NextIndex CurrentIndex in
            if old =? CurrentIndex then ret CurrentIndex
            else GetNextWriteIndex_loop fuel'
      end
  end.

(** Within one thread nothing changes the word between the load and the
    exchange, so the first attempt is the last
    (see [GetNextWriteIndex_loop_once]). *)
Definition GetNextWriteIndex : M Z := GetNextWriteIndex_loop 1.

(** *** Public operations *)

Definition Shutdown : M unit :=
  let* p := getpid in
  let* wsem := get WriteSemaphore in
  (if wsem
   then (emit (ev_sem_close WriteSem);;
         emit (ev_sem_unlink (write_sem_name p));;
         modify (with_Semaphore WriteSem false))
   else ret tt);;
  let* rsem := get ReadSemaphore in
  (if rsem
   then (emit (ev_sem_close ReadSem);;
         emit (ev_sem_unlink (read_sem_name p));;
         modify (with_Semaphore ReadSem false))
   else ret tt);;
  UnmapSharedMemory;;
  let* fd := get SharedMemoryFD in
  let* name := get SharedMemoryName in
  (if 0 <=? fd
   then (emit (ev_close fd);;
         emit (ev_shm_unlink name);;
         modify (with_SharedMemoryFD (-1)))
   else ret tt);;
  modify (with_bIsInitialized false).

(** [sem_open(name, O_CREAT, 0666, value)] on a name that does not exist
    yet: the semaphore starts at [value]. *)
Definition sem_open (s : semaphore) (ok : bool) (value : Z) : M unit :=
  let* p := getpid in
  emit (ev_sem_open (sem_name s p) value);;
  if ok
  then (set_sem s value;; modify (with_Semaphore s true))
  else modify (with_Semaphore s false).

(** The two size computations of [Initialize]: [SingleSlotSize] in
    [uint32], [TotalSize] in [size_t] (64 bits) from a [uint32] product. *)
Definition slot_size_for (MaxWidth MaxHeight : Z) : Z :=
  let slot_size := u32 (HeaderSize + u32 (u32 (MaxWidth * MaxHeight) * 3)) in
  Z.land (u32 (slot_size + 4095)) (u32 (Z.lnot 4095)).

Definition total_size_for (NumSlots slot_size : Z) : Z :=
  let total := u64 (sizeof_FSharedMemoryHeader + u32 (slot_size * NumSlots)) in
  let HeaderPadding := u64 (4096 - sizeof_FSharedMemoryHeader) in
  u64 (total + HeaderPadding).

Definition Initialize (r : os_results) (NumSlots MaxWidth MaxHeight : Z)
  : M bool :=
  let* init := get bIsInitialized in
  if init then ret true
  else
    let slot_size := slot_size_for MaxWidth MaxHeight in
    let total := total_size_for NumSlots slot_size in
    let* p := getpid in
    modify (with_sizes NumSlots slot_size total (images_name p));;
    emit (ev_shm_open (images_name p));;
    modify (with_SharedMemoryFD (shm_open_fd r));;
    if shm_open_fd r <? 0 then ret false
    else
      emit (ev_ftruncate (shm_open_fd r) total);;
      if ftruncate_ret r <? 0
      then (emit (ev_close (shm_open_fd r));;
            emit (ev_shm_unlink (images_name p));;
            ret false)
      else
        let* mapped := MapSharedMemory (mmap_ok r) total in
        modify (with_SharedMemoryPtr mapped);;
        if negb mapped
        then (emit (ev_close (shm_open_fd r));;
              emit (ev_shm_unlink (images_name p));;
              ret false)
        else
          modify (with_Header (Some 0));;
          write_uint 4 (0 + hdr_MagicNumber) MAGIC_NUMBER;;
          write_uint 4 (0 + hdr_NumSlots) NumSlots;;
          write_uint 4 (0 + hdr_SlotSize) slot_size;;
          write_uint 4 (0 + hdr_WriteIndex) 0;;
          write_uint 8 (0 + hdr_LastUpdateTime) 0;;
          modify (with_SlotDataStart (Some (0 + 4096)));;
          sem_open WriteSem (sem_open_write_ok r) NumSlots;;
          sem_open ReadSem (sem_open_read_ok r) 0;;
          let* wsem := get WriteSemaphore in
          let* rsem := get ReadSemaphore in
          if negb wsem || negb rsem
          then (Shutdown;; ret false)
          else (modify (with_bIsInitialized true);; ret true).

(** The deadline handed to [sem_timedwait]: 5 ms after [now]. *)
Definition timeout_5ms (now : timespec) : timespec :=
  let nsec := tv_nsec now + 5000000 in
  if 1000000000 <=? nsec
  then {| tv_sec := tv_sec now + 1; tv_nsec := nsec - 1000000000 |}
  else {| tv_sec := tv_sec now; tv_nsec := nsec |}.

(** [TArray::Num()]. *)
Definition Num {A} (a : list A) : Z := Z.of_nat (length a).

(** [Width * Height * 3] as the [uint32] expression it is. *)
Definition required_size (Width Height : Z) : Z :=
  u32 (u32 (Width * Height) * 3).

Definition WriteImage (now : timespec)
  (Width Height Timestamp ImageType : Z) (PixelData : list byte) : M bool :=
  let* init := get bIsInitialized in
  let* hdr := get Header in
  match init, hdr with
  | true, Some h =>
      if (Width =? 0) || (Height =? 0) then ret false
      else
        let RequiredSize := required_size Width Height in
        if Num PixelData <? RequiredSize then ret false
        else
          let ts := timeout_5ms now in
          let* waited := sem_timedwait WriteSem ts in
          if waited <? 0 then ret false
          else
            let* SlotIndex := GetNextWriteIndex in
            let* Slot := GetSlot SlotIndex in
            match Slot with
            | None => sem_post WriteSem;; ret false
            | Some slot =>
                write_uint 4 (slot + slot_Width) Width;;
                write_uint 4 (slot + slot_Height) Height;;
                write_uint 8 (slot + slot_Timestamp) Timestamp;;
                write_uint 4 (slot + slot_ImageType) ImageType;;
                write_uint 4 (slot + slot_DataSize) RequiredSize;;
                write_bytes (slot + slot_PixelData)
                  (take (Z.to_nat RequiredSize) PixelData);;
                write_uint 8 (h + hdr_LastUpdateTime) Timestamp;;
                sem_post ReadSem;;
                ret true
            end
  | _, _ => ret false
  end.

(** An image handed to [WriteImages]: the fields of the [FSharedImageSlot]
    the pointer refers to, and the bytes that follow them. *)
Record image := {
  img_Width : Z; img_Height : Z; img_Timestamp : Z; img_ImageType : Z;
  img_DataSize : Z; img_PixelData : list byte
}.

(** [WriteImages]: each image is copied into a fresh array with
    [PixelData.Append(Image->PixelData, Image->DataSize)] and handed to
    [WriteImage]; [bAllSuccess &= ...] calls [WriteImage] whatever the
    earlier results were.  The count of [Append] is an [int32], and the
    copy reads [DataSize] bytes behind the pointer: a count of 2^31 or
    more, or one beyond the bytes that are there, has no defined result.
    Each call reads the clock; [nows] are the times read. *)
Fixpoint WriteImages_loop (nows : list timespec) (Images : list image)
  (bAllSuccess : bool) : M bool :=
  match Images with
  | [] => ret bAllSuccess
  | Image :: rest =>
      if (2 ^ 31 <=? img_DataSize Image)
         || (Num (img_PixelData Image) <? img_DataSize Image) then fault
      else
        let PixelData :=
          take (Z.to_nat (img_DataSize Image)) (img_PixelData Image) in
        let* ok := WriteImage (hd {| tv_sec := 0; tv_nsec := 0 |} nows)
                     (img_Width Image) (img_Height Image)
                     (img_Timestamp Image) (img_ImageType Image) PixelData in
        WriteImages_loop (tl nows) rest (bAllSuccess && ok)
  end.

Definition WriteImages (nows : list timespec) (Images : list image) : M bool :=
  WriteImages_loop nows Images true.

Definition IsInitialized : M bool := get bIsInitialized.
Definition GetSharedMemoryName : M string := get SharedMemoryName.

(** *** The consumer process

    The reader is not part of this repository; the two things it does to
    the semaphores are what the producer can observe of it. *)
Definition consumer_take : M unit :=
  fun st => if 0 <? read_ready (os st)
            then set_sem ReadSem (read_ready (os st) - 1) st
            else ret tt st.

Definition consumer_release : M unit :=
  fun st => set_sem WriteSem (write_permits (os st) + 1) st.

End Shm.

(** ** [GetNextWriteIndex] with several writers

    The loop of [GetNextWriteIndex] as a machine that several threads step
    through in any order: a thread loads [Header->WriteIndex] and computes
    [NextIndex], then makes the exchange, and starts over when the exchange
    returns another value than the one it loaded.  Loads and exchanges of
    the word are taken to be atomic and seen in one order by all
    threads. *)
Module Writers.

(** Where a thread stands: before the load, before the exchange with its
    two locals, or after [return CurrentIndex]. *)
Inductive position :=
| before_load
| before_exchange (CurrentIndex NextIndex : Z)
| returned (CurrentIndex : Z).

Record ring := {
  WriteIndex : Z;           (* Header->WriteIndex *)
  MaxSlots : Z;
  threads : list position;
  claims : list (nat * Z)   (* exchanges that succeeded, oldest first:
                               the thread and the index it took *)
}.

Definition move (i : nat) (p : position) (c : ring) : ring :=
  {| WriteIndex := WriteIndex c; MaxSlots := MaxSlots c;
     threads := <[i := p]> (threads c); claims := claims c |}.

(** One step of thread [i].  A thread that has returned, or that does not
    exist, does nothing. *)
Definition step (i : nat) (c : ring) : option ring :=
  match threads c !! i with
  | Some before_load =>
      if MaxSlots c =? 0 then None
      else Some (move i (before_exchange (WriteIndex c)
                           (u32 (WriteIndex c + 1) mod MaxSlots c)) c)
  | Some (before_exchange CurrentIndex NextIndex) =>
      if WriteIndex c =? CurrentIndex
      then Some {| WriteIndex := NextIndex; MaxSlots := MaxSlots c;
                   threads := <[i := returned CurrentIndex]> (threads c);
                   claims := claims c ++ [(i, CurrentIndex)] |}
      else Some (move i before_load c)
  | Some (returned _) | None => Some c
  end.

Fixpoint run (schedule : list nat) (c : ring) : option ring :=
  match schedule with
  | [] => Some c
  | i :: rest => c' ← step i c; run rest c'
  end.

(** [k] threads enter with the word at [s]. *)
Definition start (n s : Z) (k : nat) : ring :=
  {| WriteIndex := s; MaxSlots := n; threads := replicate k before_load;
     claims := [] |}.

(** The steps thread [i] may still need before it returns: two for each
    attempt, and one more attempt for each other thread that has not taken
    an index yet. *)
Definition steps_left (i : nat) (c : ring) : nat :=
  let others := (length (threads c) - 1 - length (claims c))%nat in
  match threads c !! i with
  | Some before_load => (2 * others + 2)%nat
  | Some (before_exchange CurrentIndex _) =>
      if WriteIndex c =? CurrentIndex then (2 * others + 1)%nat
      else (2 * others + 3)%nat
  | Some (returned _) | None => 0%nat
  end.

End Writers.

(** ** The packing task: [ImagePackingAsyncTask.h] *)

Module FColor.
(** Unreal's [FColor]: four [uint8] channels, stored B, G, R, A. *)
Record t := { B : byte; G : byte; R : byte; A : byte }.
End FColor.

Module FFloat16Color.
(** Unreal's [FFloat16Color]: four half-precision channels. *)
Record t (FFloat16 : Type) := { R : FFloat16; G : FFloat16; B : FFloat16;
                                A : FFloat16 }.
Arguments R {FFloat16} _.
Arguments G {FFloat16} _.
Arguments B {FFloat16} _.
Arguments A {FFloat16} _.
End FFloat16Color.

Module Packing.
Section Task.

(** Half and single precision numbers and [FFloat16::GetFloat] belong to the
    engine; the task only moves the values. *)
Variables FFloat16 float : Type.
Variable GetFloat : FFloat16 -> float.

(** An element of a [TArray] that [SetNumUninitialized] added and nothing
    wrote yet holds no defined value: [None]. *)
Definition TArray (T : Type) : Type := list (option T).

(** [RenderRequest.h] is not among the sources.  The members the task uses
    are taken as the task uses them: two integer dimensions, the two source
    bitmaps and the two output arrays. *)
Record RenderResult := {
  image_data_uint8 : TArray byte;
  image_data_float : TArray float;
  bmp : list FColor.t;
  bmp_float : list (FFloat16Color.t FFloat16);
  width : Z;
  height : Z
}.

Record RenderParams := { pixels_as_float : bool; compress : bool }.

(** [UAirBlueprintLib::CompressImageArray(width, height, src, dest)], the
    PNG encoder, is an external collaborator. *)
Variable CompressImageArray :
  Z -> Z -> list FColor.t -> TArray byte -> TArray byte.

(** [TArray::SetNumUninitialized(NewNum)]: keeps the elements below
    [NewNum] and leaves the added ones undefined.  The size type is
    [int32]. *)
Definition SetNumUninitialized {T} (NewNum : Z) (a : TArray T)
  : option (TArray T) :=
  if (0 <=? NewNum) && (NewNum <? 2 ^ 31)
  then Some (resize (Z.to_nat NewNum) None a)
  else None.

(** [*ptr = v] for a pointer [ptr] elements into the array's data; a write
    past the last element has no defined result. *)
Definition poke {T} (ptr : nat) (v : T) (a : TArray T) : option (TArray T) :=
  if decide (ptr < length a)%nat then Some (<[ptr := Some v]> a) else None.

(** [for (item : bmp) { *ptr++ = item.B; *ptr++ = item.G; *ptr++ = item.R; }] *)
Fixpoint pack_uint8 (items : list FColor.t) (ptr : nat) (a : TArray byte)
  : option (TArray byte) :=
  match items with
  | [] => Some a
  | item :: rest =>
      a1 ← poke ptr (FColor.B item) a;
      a2 ← poke (ptr + 1) (FColor.G item) a1;
      a3 ← poke (ptr + 2) (FColor.R item) a2;
      pack_uint8 rest (ptr + 3) a3
  end.

(** [for (item : bmp_float) { *ptr++ = item.R.GetFloat(); }] *)
Fixpoint pack_float (items : list (FFloat16Color.t FFloat16)) (ptr : nat)
  (a : TArray float) : option (TArray float) :=
  match items with
  | [] => Some a
  | item :: rest =>
      a1 ← poke ptr (GetFloat (FFloat16Color.R item)) a;
      pack_float rest (ptr + 1) a1
  end.

Definition with_image_data_uint8 (a : TArray byte) (r : RenderResult)
  : RenderResult :=
  {| image_data_uint8 := a; image_data_float := image_data_float r;
     bmp := bmp r; bmp_float := bmp_float r;
     width := width r; height := height r |}.

Definition with_image_data_float (a : TArray float) (r : RenderResult)
  : RenderResult :=
  {| image_data_uint8 := image_data_uint8 r; image_data_float := a;
     bmp := bmp r; bmp_float := bmp_float r;
     width := width r; height := height r |}.

(** The body of the loop of [DoWork], on one parameter block and the
    result object it belongs to. *)
Definition DoWork_entry (param : RenderParams) (result : RenderResult)
  : option RenderResult :=
  if negb (pixels_as_float param) then
    if negb (width result =? 0) && negb (height result =? 0) then
      a ← SetNumUninitialized (width result * height result * 3)
             (image_data_uint8 result);
      if compress param then
        Some (with_image_data_uint8
                (CompressImageArray (width result) (height result)
                   (bmp result) a) result)
      else
        a' ← pack_uint8 (bmp result) 0 a;
        Some (with_image_data_uint8 a' result)
    else Some result
  else
    a ← SetNumUninitialized (width result * height result)
           (image_data_float result);
    a' ← pack_float (bmp_float result) 0 a;
    Some (with_image_data_float a' result).

(** An entry whose copy stays inside its output array: the bitmap has at
    most width*height pixels, or is handed to the compressor, or the
    entry is 8-bit with a zero dimension and is skipped. *)
Definition packable (param : RenderParams) (result : RenderResult) : Prop :=
  if pixels_as_float param
  then 0 <= width result * height result < 2 ^ 31 /\
       Shm.Num (bmp_float result) <= width result * height result
  else width result = 0 \/ height result = 0 \/
       (0 <= width result * height result * 3 < 2 ^ 31 /\
        (compress param = true \/
         Shm.Num (bmp result) <= width result * height result)).

(** The task holds shared pointers: [Results] are addresses into a heap of
    result objects, which the caller keeps too. *)
Record FImagePackingAsyncTask := {
  Params : list RenderParams;
  Results : list nat;
  ReqSize : nat
}.

(** The constructor copies [InReqSize] parameter pointers and takes over the
    vector of results. *)
Definition new_task (InParams : list RenderParams) (InResults : list nat)
  (InReqSize : nat) : option FImagePackingAsyncTask :=
  if decide (InReqSize <= length InParams)%nat
  then Some {| Params := take InReqSize InParams; Results := InResults;
               ReqSize := InReqSize |}
  else None.

(** [for (i = 0; i < ReqSize; ++i)], [n] iterations from index [i] on. *)
Fixpoint DoWork_loop (task : FImagePackingAsyncTask) (n i : nat)
  (heap : list RenderResult) : option (list RenderResult) :=
  match n with
  | O => Some heap
  | S n' =>
      ptr ← Results task !! i;
      param ← Params task !! i;
      result ← heap !! ptr;
      result' ← DoWork_entry param result;
      DoWork_loop task n' (S i) (<[ptr := result']> heap)
  end.

Definition DoWork (task : FImagePackingAsyncTask) (heap : list RenderResult)
  : option (list RenderResult) :=
  DoWork_loop task (ReqSize task) 0 heap.

End Task.

Arguments image_data_uint8 {FFloat16 float} _.
Arguments image_data_float {FFloat16 float} _.
Arguments bmp {FFloat16 float} _.
Arguments bmp_float {FFloat16 float} _.
Arguments width {FFloat16 float} _.
Arguments height {FFloat16 float} _.
Arguments Build_RenderResult {FFloat16 float} _ _ _ _ _ _.

End Packing.

(** ** Observing the segment

    What a process that maps the segment finds in it, field by field, at
    the offsets of the two structs. *)

Module View.
Import Shm.

Definition peek_uint (n : nat) (addr : Z) (st : state) : option Z :=
  m ← mapping (os st); load_uint n addr m.

Definition peek_bytes (addr len : Z) (st : state) : option (list byte) :=
  m ← mapping (os st); load addr len m.

Definition WriteIndex (st : state) : option Z :=
  peek_uint 4 (0 + hdr_WriteIndex) st.

Definition LastUpdateTime (st : state) : option Z :=
  peek_uint 8 (0 + hdr_LastUpdateTime) st.

(** Address of slot [Index]: what [GetSlot] computes for an index in
    range. *)
Definition slot_at (st : state) (Index : Z) : Z :=
  4096 + u32 (Index * SingleSlotSize (this st)).

Record slot := {
  Width : Z; Height : Z; Timestamp : Z; ImageType : Z; DataSize : Z;
  PixelData : list byte
}.

(** The sub-header of the slot at [addr], then [DataSize] bytes of pixels. *)
Definition read_slot (st : state) (addr : Z) : option slot :=
  w ← peek_uint 4 (addr + slot_Width) st;
  h ← peek_uint 4 (addr + slot_Height) st;
  t ← peek_uint 8 (addr + slot_Timestamp) st;
  i ← peek_uint 4 (addr + slot_ImageType) st;
  d ← peek_uint 4 (addr + slot_DataSize) st;
  px ← peek_bytes (addr + slot_PixelData) d st;
  Some {| Width := w; Height := h; Timestamp := t; ImageType := i;
          DataSize := d; PixelData := px |}.

(** The slot indices handed out so far: the comparands of the exchanges on
    the write index, oldest first. *)
Definition claimed (tr : list event) : list Z :=
  omap (fun e => match e with
                 | ev_InterlockedCompareExchange _ _ comparand => Some comparand
                 | _ => None
                 end) tr.

(** A transport between a successful [Initialize] and the next
    [Shutdown]. *)
Record initialized (st : state) : Prop := {
  init_flag : bIsInitialized (this st) = true;
  init_Header : Header (this st) = Some 0;
  init_SlotDataStart : SlotDataStart (this st) = Some 4096;
  init_WriteSemaphore : WriteSemaphore (this st) = true;
  init_ReadSemaphore : ReadSemaphore (this st) = true;
  init_MaxSlots : is_u32 (MaxSlots (this st));
  init_WriteIndex :
    exists idx, WriteIndex st = Some idx /\ 0 <= idx /\
                (0 < MaxSlots (this st) -> idx < MaxSlots (this st));
  init_mapping :
    exists m, mapping (os st) = Some m /\
              Z.of_nat (length m) = TotalSize (this st)
}.

(** The stores of an accepted [WriteImage] after the slot is chosen, as a
    function on the bytes of the segment: the sub-header, the pixels, the
    header's time stamp. *)
Definition fill_slot (slot h W H T I RS : Z) (px m : list byte)
  : option (list byte) :=
  m ← store_uint 4 (slot + slot_Width) W m;
  m ← store_uint 4 (slot + slot_Height) H m;
  m ← store_uint 8 (slot + slot_Timestamp) T m;
  m ← store_uint 4 (slot + slot_ImageType) I m;
  m ← store_uint 4 (slot + slot_DataSize) RS m;
  m ← store (slot + slot_PixelData) (take (Z.to_nat RS) px) m;
  store_uint 8 (h + hdr_LastUpdateTime) T m.

(** The exchange that hands out slot [cur] of [n]. *)
Definition claim_event (h n cur : Z) : event :=
  ev_InterlockedCompareExchange (h + hdr_WriteIndex) (u32 (cur + 1) mod n) cur.

(** The four ways a call of [WriteImage] ends, with the state it leaves. *)
Inductive outcome (now : timespec) (W H T I : Z) (px : list byte)
  (st : state) : bool -> state -> Prop :=
| rejected :
    bIsInitialized (this st) = false \/ Header (this st) = None \/
    W = 0 \/ H = 0 \/ Num px < required_size W H ->
    outcome now W H T I px st false st
| timed_out h :
    bIsInitialized (this st) = true -> Header (this st) = Some h ->
    W <> 0 -> H <> 0 -> required_size W H <= Num px ->
    write_permits (os st) <= 0 ->
    outcome now W H T I px st false
      (add_event (ev_sem_timedwait WriteSem (timeout_5ms now)) st)
| no_slot h m cur m1 :
    bIsInitialized (this st) = true -> Header (this st) = Some h ->
    W <> 0 -> H <> 0 -> required_size W H <= Num px ->
    0 < write_permits (os st) ->
    mapping (os st) = Some m ->
    load_uint 4 (h + hdr_WriteIndex) m = Some cur ->
    MaxSlots (this st) <> 0 ->
    store_uint 4 (h + hdr_WriteIndex) (u32 (cur + 1) mod MaxSlots (this st)) m
      = Some m1 ->
    MaxSlots (this st) <= cur ->
    outcome now W H T I px st false
      (put_sem WriteSem (write_permits (os st) - 1 + 1)
         (add_event (ev_sem_post WriteSem)
            (put_mapping (Some m1)
               (add_event (claim_event h (MaxSlots (this st)) cur)
                  (put_sem WriteSem (write_permits (os st) - 1)
                     (add_event
                        (ev_sem_timedwait WriteSem (timeout_5ms now)) st))))))
| accepted h base m cur m1 m' :
    bIsInitialized (this st) = true -> Header (this st) = Some h ->
    W <> 0 -> H <> 0 -> required_size W H <= Num px ->
    0 < write_permits (os st) ->
    mapping (os st) = Some m ->
    load_uint 4 (h + hdr_WriteIndex) m = Some cur ->
    MaxSlots (this st) <> 0 ->
    store_uint 4 (h + hdr_WriteIndex) (u32 (cur + 1) mod MaxSlots (this st)) m
      = Some m1 ->
    cur < MaxSlots (this st) ->
    SlotDataStart (this st) = Some base ->
    fill_slot (base + u32 (cur * SingleSlotSize (this st))) h W H T I
      (required_size W H) px m1 = Some m' ->
    outcome now W H T I px st true
      (put_sem ReadSem (read_ready (os st) + 1)
         (add_event (ev_sem_post ReadSem)
            (put_mapping (Some m')
               (add_event (claim_event h (MaxSlots (this st)) cur)
                  (put_sem WriteSem (write_permits (os st) - 1)
                     (add_event
                        (ev_sem_timedwait WriteSem (timeout_5ms now)) st)))))).

(** What a successful [Initialize] of a transport that was not initialized
    leaves behind. *)
Record after_Initialize (r : os_results) (NumSlots MaxWidth MaxHeight : Z)
  (st st0 : state) : Prop := {
  ai_os_ok : 0 <= shm_open_fd r /\ 0 <= ftruncate_ret r /\ mmap_ok r = true /\
             sem_open_write_ok r = true /\ sem_open_read_ok r = true;
  ai_this :
    this st0 =
    {| SharedMemoryName := images_name (pid (os st));
       SharedMemoryFD := shm_open_fd r;
       SharedMemoryPtr := true;
       TotalSize := total_size_for NumSlots (slot_size_for MaxWidth MaxHeight);
       Header := Some 0;
       SlotDataStart := Some 4096;
       WriteSemaphore := true;
       ReadSemaphore := true;
       bIsInitialized := true;
       MaxSlots := NumSlots;
       SingleSlotSize := slot_size_for MaxWidth MaxHeight |};
  ai_pid : pid (os st0) = pid (os st);
  ai_write_permits : write_permits (os st0) = NumSlots;
  ai_read_ready : read_ready (os st0) = 0;
  ai_trace :
    trace (os st0) =
    trace (os st) ++
    [ev_shm_open (images_name (pid (os st)));
     ev_ftruncate (shm_open_fd r)
       (total_size_for NumSlots (slot_size_for MaxWidth MaxHeight));
     ev_mmap (total_size_for NumSlots (slot_size_for MaxWidth MaxHeight))
       (shm_open_fd r);
     ev_sem_open (write_sem_name (pid (os st))) NumSlots;
     ev_sem_open (read_sem_name (pid (os st))) 0];
  ai_mapping :
    exists m,
      mapping (os st0) = Some m /\
      Z.of_nat (length m)
      = total_size_for NumSlots (slot_size_for MaxWidth MaxHeight) /\
      load_uint 4 (0 + hdr_MagicNumber) m = Some MAGIC_NUMBER /\
      load_uint 4 (0 + hdr_NumSlots) m = Some (u32 NumSlots) /\
      load_uint 4 (0 + hdr_SlotSize) m
      = Some (u32 (slot_size_for MaxWidth MaxHeight)) /\
      load_uint 4 (0 + hdr_WriteIndex) m = Some 0 /\
      load_uint 8 (0 + hdr_LastUpdateTime) m = Some 0
}.

(** *** Runs of the producer and the consumer *)

Record call := {
  c_now : timespec;
  c_Width : Z; c_Height : Z; c_Timestamp : Z; c_ImageType : Z;
  c_PixelData : list byte
}.

Definition do_call (c : call) : M bool :=
  WriteImage (c_now c) (c_Width c) (c_Height c) (c_Timestamp c)
    (c_ImageType c) (c_PixelData c).

Inductive action :=
| act_WriteImage (c : call)
| act_consumer_take
| act_consumer_release.

Definition is_write (a : action) : bool :=
  match a with act_WriteImage _ => true | _ => false end.

(** An action that posts no write permit: a [WriteImage], or the consumer
    taking a frame that is ready. *)
Definition posts_no_permit (a : action) : bool :=
  match a with act_consumer_release => false | _ => true end.

(** An action that, when it is a [WriteImage], carries a frame within the
    pixel capacity of a slot of [slot_size] bytes. *)
Definition fits (slot_size : Z) (a : action) : Prop :=
  match a with
  | act_WriteImage c =>
      required_size (c_Width c) (c_Height c) <= slot_size - HeaderSize
  | _ => True
  end.

(** A call that passes the tests of [WriteImage] and whose frame is
    within the pixel capacity of a slot of [slot_size] bytes. *)
Definition writable (slot_size : Z) (c : call) : Prop :=
  c_Width c <> 0 /\ c_Height c <> 0 /\
  required_size (c_Width c) (c_Height c) <= Num (c_PixelData c) /\
  required_size (c_Width c) (c_Height c) <= slot_size - HeaderSize.

(** Runs the actions in order and collects what the [WriteImage] calls
    returned. *)
Fixpoint run (acts : list action) : M (list bool) :=
  match acts with
  | [] => ret []
  | act_WriteImage c :: rest =>
      bind (do_call c) (fun ok => bind (run rest) (fun oks => ret (ok :: oks)))
  | act_consumer_take :: rest => bind consumer_take (fun _ => run rest)
  | act_consumer_release :: rest => bind consumer_release (fun _ => run rest)
  end.

Definition count_accepted (oks : list bool) : Z :=
  Z.of_nat (length (filter (fun b => b = true) oks)).

(** [0 mod n, 1 mod n, ..., (k-1) mod n]. *)
Definition round_robin (n : Z) (k : nat) : list Z :=
  map (fun j => Z.of_nat j mod n) (seq 0 k).

(** The spec's [ceil_to_4096]. *)
Definition ceil_to_4096 (x : Z) : Z := 4096 * ((x + 4095) / 4096).

(** Nanoseconds since the epoch. *)
Definition ns (t : timespec) : Z := tv_sec t * 1000000000 + tv_nsec t.

(** *** Vocabulary for the life cycle and for batches *)

(** The kernel grants every request of [Initialize]. *)
Definition all_granted (r : os_results) : bool :=
  (0 <=? shm_open_fd r) && (0 <=? ftruncate_ret r) && mmap_ok r
  && sem_open_write_ok r && sem_open_read_ok r.

(** Members that hold no descriptor, no mapping and no semaphore: as the
    constructor sets them. *)
Record released (t : transport) : Prop := {
  rel_flag : bIsInitialized t = false;
  rel_fd : SharedMemoryFD t < 0;
  rel_ptr : SharedMemoryPtr t = false;
  rel_write : WriteSemaphore t = false;
  rel_read : ReadSemaphore t = false
}.

(** The calls of [WriteImage] that [WriteImages] makes, one per image, with
    the first [DataSize] bytes of the image. *)
Fixpoint batch_calls (nows : list timespec) (Images : list image)
  : list call :=
  match Images with
  | [] => []
  | Image :: rest =>
      {| c_now := hd {| tv_sec := 0; tv_nsec := 0 |} nows;
         c_Width := img_Width Image; c_Height := img_Height Image;
         c_Timestamp := img_Timestamp Image;
         c_ImageType := img_ImageType Image;
         c_PixelData :=
           take (Z.to_nat (img_DataSize Image)) (img_PixelData Image) |}
      :: batch_calls (tl nows) rest
  end.

(** An image whose [DataSize] bytes can be copied. *)
Definition readable (Image : image) : Prop :=
  img_DataSize Image < 2 ^ 31 /\
  img_DataSize Image <= Num (img_PixelData Image).

(** The time stamp of the last accepted write of a run, [t] when there is
    none. *)
Fixpoint last_accepted (acts : list action) (oks : list bool) (t : Z) : Z :=
  match acts, oks with
  | act_WriteImage c :: acts', ok :: oks' =>
      last_accepted acts' oks' (if ok then u64 (c_Timestamp c) else t)
  | act_WriteImage _ :: _, [] => t
  | _ :: acts', _ => last_accepted acts' oks t
  | [], _ => t
  end.

End View.

(** The two byte orders of a packed pixel. *)
Definition bgr_bytes (items : list FColor.t) : list byte :=
  flat_map (fun c => [FColor.B c; FColor.G c; FColor.R c]) items.

(** The order the specification words: red first. *)
Definition rgb_bytes (items : list FColor.t) : list byte :=
  flat_map (fun c => [FColor.R c; FColor.G c; FColor.B c]) items.

(** ** Concrete inputs *)

Module Example.
Import Shm View.

(** A kernel that grants every request of [Initialize]. *)
Definition granted : os_results :=
  {| shm_open_fd := 3; ftruncate_ret := 0; mmap_ok := true;
     sem_open_write_ok := true; sem_open_read_ok := true |}.

Definition now : timespec := {| tv_sec := 1700000000; tv_nsec := 998000000 |}.

Definition state_of (r : option (bool * state)) : state :=
  match r with Some (_, st) => st | None => fresh 0 end.

(** [Initialize(2, 1, 1)] in process 4242: two slots of one page each,
    4072 bytes of pixels per slot. *)
Definition two_slots : state :=
  state_of (Initialize granted 2 1 1 (fresh 4242)).

(** A 2 x 2 frame. *)
Definition frame12 : list byte := [1; 2; 3; 4; 5; 6; 7; 8; 9; 10; 11; 12].

(** A 37 x 37 frame of 4107 bytes. *)
Definition frame4107 : list byte := replicate 4107 255.

Definition write2x2 : call :=
  {| c_now := now; c_Width := 2; c_Height := 2; c_Timestamp := 1000;
     c_ImageType := 0; c_PixelData := frame12 |}.

Definition pixel : FColor.t :=
  {| FColor.B := 3; FColor.G := 2; FColor.R := 1; FColor.A := 255 |}.

(** The engine's numbers are stood in for by integers here. *)
Definition no_compression (w h : Z) (src : list FColor.t)
  (dest : Packing.TArray byte) : Packing.TArray byte := dest.

Definition uint8_params : Packing.RenderParams :=
  {| Packing.pixels_as_float := false; Packing.compress := false |}.

Definition float_params : Packing.RenderParams :=
  {| Packing.pixels_as_float := true; Packing.compress := false |}.

Definition result_1x1 : Packing.RenderResult Z Z :=
  Packing.Build_RenderResult [] [] [pixel] [] 1 1.

Definition result_1x1_two_pixels : Packing.RenderResult Z Z :=
  Packing.Build_RenderResult [] [] [pixel; pixel] [] 1 1.

Definition result_0x5 : Packing.RenderResult Z Z :=
  Packing.Build_RenderResult [Some 9] [] [] [] 0 5.

(** A depth entry without dimensions whose float array still holds a value
    of an earlier frame. *)
Definition depth_0x0_stale : Packing.RenderResult Z Z :=
  Packing.Build_RenderResult [] [Some 7] [] [] 0 0.

Definition depth_sample : FFloat16Color.t Z :=
  {| FFloat16Color.R := 5; FFloat16Color.G := 0; FFloat16Color.B := 0;
     FFloat16Color.A := 0 |}.

(** A depth entry without dimensions that carries one sample. *)
Definition depth_0x0_sample : Packing.RenderResult Z Z :=
  Packing.Build_RenderResult [] [] [] [depth_sample] 0 0.

Definition one_entry (param : Packing.RenderParams) : Packing.FImagePackingAsyncTask :=
  {| Packing.Params := [param]; Packing.Results := [0%nat];
     Packing.ReqSize := 1 |}.

(** A batch of two entries, each with a result object of its own. *)
Definition two_entries (first second : Packing.RenderParams)
  : Packing.FImagePackingAsyncTask :=
  {| Packing.Params := [first; second]; Packing.Results := [0%nat; 1%nat];
     Packing.ReqSize := 2 |}.

(** Kernels that turn one request down. *)
Definition no_space : os_results :=
  {| shm_open_fd := 3; ftruncate_ret := -1; mmap_ok := true;
     sem_open_write_ok := true; sem_open_read_ok := true |}.

Definition no_read_semaphore : os_results :=
  {| shm_open_fd := 3; ftruncate_ret := 0; mmap_ok := true;
     sem_open_write_ok := true; sem_open_read_ok := false |}.

(** The state a run, or a [Shutdown], leaves. *)
Definition after_run (acts : list action) (st : state) : state :=
  match run acts st with Some (_, st') => st' | None => st end.

Definition shut_down (st : state) : state :=
  match Shutdown st with Some (_, st') => st' | None => st end.

(** The 2 x 2 frame again, with an earlier time stamp. *)
Definition write_earlier : call :=
  {| c_now := now; c_Width := 2; c_Height := 2; c_Timestamp := 7;
     c_ImageType := 0; c_PixelData := frame12 |}.

(** Images for [WriteImages]: a 2 x 2 frame, and one that announces 5
    bytes only. *)
Definition image2x2 : image :=
  {| img_Width := 2; img_Height := 2; img_Timestamp := 1000;
     img_ImageType := 0; img_DataSize := 12; img_PixelData := frame12 |}.

Definition image_short : image :=
  {| img_Width := 2; img_Height := 2; img_Timestamp := 1001;
     img_ImageType := 0; img_DataSize := 5; img_PixelData := frame12 |}.

(** A 2 x 1 depth entry. *)
Definition depth_2x1 : Packing.RenderResult Z Z :=
  Packing.Build_RenderResult [] []
    [] [depth_sample;
        {| FFloat16Color.R := 6; FFloat16Color.G := 1; FFloat16Color.B := 2;
           FFloat16Color.A := 3 |}] 2 1.

End Example.

(** * Properties *)

Import Shm View.
Local Open Scope shm_scope.

(** ** Bytes *)

Lemma le_bytes_length n v : length (le_bytes n v) = n.
Proof. revert v; induction n as [|n IH]; intros v; simpl; [done|]. by rewrite IH. Qed.

Lemma le_value_le_bytes n v : le_value (le_bytes n v) = v mod 2 ^ (8 * Z.of_nat n).
Proof.
  revert v; induction n as [|n IH]; intros v.
  - simpl. by rewrite Z.mod_1_r.
  - cbn [le_bytes le_value]. rewrite IH.
    replace (8 * Z.of_nat (S n)) with (8 + 8 * Z.of_nat n) by lia.
    rewrite Z.pow_add_r by lia.
    change (2 ^ 8) with 256.
    rewrite Z.rem_mul_r; [done|lia|]. apply Z.pow_pos_nonneg; lia.
Qed.

Lemma le_value_le_bytes_u32 v : is_u32 v -> le_value (le_bytes 4 v) = v.
Proof.
  intros Hv. rewrite le_value_le_bytes. apply Z.mod_small. exact Hv.
Qed.

Lemma le_value_le_bytes_u64 v : is_u64 v -> le_value (le_bytes 8 v) = v.
Proof.
  intros Hv. rewrite le_value_le_bytes. apply Z.mod_small. exact Hv.
Qed.

Lemma store_Some off bs m :
  0 <= off -> off + Z.of_nat (length bs) <= Z.of_nat (length m) ->
  store off bs m
  = Some (take (Z.to_nat off) m ++ bs ++ drop (Z.to_nat off + length bs)%nat m).
Proof.
  intros H0 H1. unfold store.
  destruct (Z.leb_spec 0 off); [|lia].
  destruct (Z.leb_spec (off + Z.of_nat (length bs)) (Z.of_nat (length m)));
    [done|lia].
Qed.

Lemma store_inv off bs m m' :
  store off bs m = Some m' ->
  0 <= off /\ off + Z.of_nat (length bs) <= Z.of_nat (length m) /\
  m' = take (Z.to_nat off) m ++ bs ++ drop (Z.to_nat off + length bs)%nat m.
Proof.
  unfold store.
  destruct (Z.leb_spec 0 off); [|done].
  destruct (Z.leb_spec (off + Z.of_nat (length bs)) (Z.of_nat (length m)));
    [|done].
  simpl. intros [= <-]. done.
Qed.

Lemma store_length off bs m m' :
  store off bs m = Some m' -> length m' = length m.
Proof.
  intros (H0 & H1 & ->)%store_inv.
  rewrite !length_app, length_take, length_drop. lia.
Qed.

Lemma load_Some off len m :
  0 <= off -> 0 <= len -> off + len <= Z.of_nat (length m) ->
  load off len m = Some (take (Z.to_nat len) (drop (Z.to_nat off) m)).
Proof.
  intros H0 H1 H2. unfold load.
  destruct (Z.leb_spec 0 off); [|lia].
  destruct (Z.leb_spec 0 len); [|lia].
  destruct (Z.leb_spec (off + len) (Z.of_nat (length m))); [done|lia].
Qed.

Lemma load_inv off len m bs :
  load off len m = Some bs ->
  0 <= off /\ 0 <= len /\ off + len <= Z.of_nat (length m) /\
  bs = take (Z.to_nat len) (drop (Z.to_nat off) m).
Proof.
  unfold load.
  destruct (Z.leb_spec 0 off); [|done].
  destruct (Z.leb_spec 0 len); [|done].
  destruct (Z.leb_spec (off + len) (Z.of_nat (length m))); [|done].
  simpl. intros [= <-]. done.
Qed.

(** Reading back what was just stored. *)
Lemma load_store_same off bs m m' :
  store off bs m = Some m' ->
  load off (Z.of_nat (length bs)) m' = Some bs.
Proof.
  intros Hst. pose proof (store_length _ _ _ _ Hst) as Hlen.
  destruct (store_inv _ _ _ _ Hst) as (H0 & H1 & ->).
  rewrite load_Some by lia. f_equal.
  rewrite Nat2Z.id.
  rewrite drop_app_length' by (rewrite length_take; lia).
  by rewrite take_app_length.
Qed.

(** A store leaves every disjoint range as it was. *)
Lemma load_store_other off bs m m' off' len :
  store off bs m = Some m' ->
  off' + len <= off \/ off + Z.of_nat (length bs) <= off' ->
  load off' len m' = load off' len m.
Proof.
  intros Hst Hdisj. pose proof (store_length _ _ _ _ Hst) as Hlen.
  destruct (store_inv _ _ _ _ Hst) as (H0 & H1 & Hm').
  unfold load. rewrite Hlen.
  destruct (Z.leb_spec 0 off'); [|done].
  destruct (Z.leb_spec 0 len); [|done].
  destruct (Z.leb_spec (off' + len) (Z.of_nat (length m))); [|done].
  simpl. f_equal. subst m'.
  apply list_eq. intros i.
  rewrite !lookup_take. case_decide; [|done].
  rewrite !lookup_drop.
  destruct Hdisj as [Hd|Hd].
  - rewrite lookup_app_l by (rewrite length_take; lia).
    rewrite lookup_take. case_decide; [done|lia].
  - rewrite lookup_app_r by (rewrite length_take; lia).
    rewrite lookup_app_r by (rewrite length_take; lia).
    rewrite lookup_drop, length_take. f_equal. lia.
Qed.

(** ** Stepping through the monad *)

Lemma bind_inv {A B} (c : M A) (k : A -> M B) st r :
  bind c k st = Some r -> exists a st1, c st = Some (a, st1) /\ k a st1 = Some r.
Proof.
  unfold bind. destruct (c st) as [[a st1]|]; [|done]. eauto.
Qed.

Lemma bind_intro {A B} (c : M A) (k : A -> M B) st a st1 :
  c st = Some (a, st1) -> bind c k st = k a st1.
Proof. unfold bind. by intros ->. Qed.

Lemma read_uint_inv n addr st v st' :
  read_uint n addr st = Some (v, st') ->
  st' = st /\ exists m, mapping (os st) = Some m /\ load_uint n addr m = Some v.
Proof.
  unfold read_uint. destruct (mapping (os st)) as [m|]; [|done].
  destruct (load_uint n addr m) eqn:Hl; [|done]. intros [= <- <-]. eauto.
Qed.

Lemma write_bytes_inv addr bs st u st' :
  write_bytes addr bs st = Some (u, st') ->
  exists m m', mapping (os st) = Some m /\ store addr bs m = Some m' /\
               st' = put_mapping (Some m') st.
Proof.
  unfold write_bytes. destruct (mapping (os st)) as [m|]; [|done].
  destruct (store addr bs m) as [m'|] eqn:Hs; [|done].
  unfold set_mapping. intros [= <-]. by eexists _, _.
Qed.

Ltac prim_inv E :=
  lazymatch type of E with
  | read_uint _ _ _ = Some _ =>
      apply read_uint_inv in E;
      let m := fresh "m" in let Hm := fresh "Hm" in let Hl := fresh "Hl" in
      destruct E as (-> & m & Hm & Hl)
  | write_uint _ _ _ _ = Some _ =>
      unfold write_uint in E;
      apply write_bytes_inv in E;
      let m := fresh "m" in let m' := fresh "m" in
      let Hm := fresh "Hm" in let Hs := fresh "Hs" in
      destruct E as (m & m' & Hm & Hs & ->)
  | write_bytes _ _ _ = Some _ =>
      apply write_bytes_inv in E;
      let m := fresh "m" in let m' := fresh "m" in
      let Hm := fresh "Hm" in let Hs := fresh "Hs" in
      destruct E as (m & m' & Hm & Hs & ->)
  | _ =>
      cbv [get ret modify emit getpid set_mapping set_sem] in E;
      first [ injection E as <- <- | injection E as <- ]
  end.

Ltac mstep H E :=
  let a := fresh "a" in let st1 := fresh "st" in
  cbv beta in H; apply bind_inv in H; destruct H as (a & st1 & E & H);
  cbv beta in H;
  try match type of a with unit => destruct a end.

Ltac pstep H :=
  let E := fresh "E" in mstep H E; prim_inv E.

Ltac st_simpl :=
  cbn [this os pid mapping write_permits read_ready trace
       add_event put_mapping put_sem upd_this sem_value] in *.

Lemma put_mapping_put_mapping a b st :
  put_mapping a (put_mapping b st) = put_mapping a st.
Proof. reflexivity. Qed.

(** Evaluating a projection of a state built by updates, leaving the
    state itself folded. *)
Ltac proj_eval t :=
  eval cbn [this os pid mapping write_permits read_ready trace
             add_event put_mapping put_sem upd_this sem_value
             with_SharedMemoryPtr with_SharedMemoryFD with_Semaphore
             with_bIsInitialized with_sizes with_Header with_SlotDataStart
             SharedMemoryName SharedMemoryFD SharedMemoryPtr TotalSize Header
             SlotDataStart WriteSemaphore ReadSemaphore bIsInitialized MaxSlots
             SingleSlotSize] in t.

(** Deciding the test of a conditional at the head of a computation: the
    test is rewritten to its value, so that no conversion has to look into
    the branches. *)
Ltac if_eval H :=
  match type of H with
  | (if ?c then _ else _) _ = _ =>
      let v := eval cbv in c in
      let Heq := fresh "Heq" in
      assert (c = v) as Heq by reflexivity;
      rewrite Heq in H; clear Heq; cbv iota in H
  end.

Ltac eval_lhs H :=
  match type of H with
  | ?l = ?r => let v := proj_eval l in change (v = r) in H
  end.

(** One step of a computation whose head is a [get]: the value read is
    evaluated. *)
Ltac gstep H :=
  let a := fresh "a" in let st1 := fresh "st" in let E := fresh "E" in
  cbv beta in H; apply bind_inv in H; destruct H as (a & st1 & E & H);
  cbv [get getpid] in E;
  let Ea := fresh "Ea" in
  injection E as Ea <-; eval_lhs Ea; subst a; cbv beta in H.

(** One step whose head is a store: the mapping before it is evaluated. *)
Ltac wstep H :=
  let E := fresh "E" in mstep H E; prim_inv E;
  match goal with
  | Hx : mapping (os _) = Some _ |- _ => eval_lhs Hx; injection Hx as <-
  end.


Lemma GetNextWriteIndex_inv st cur st' :
  GetNextWriteIndex st = Some (cur, st') ->
  exists h m m1,
    Header (this st) = Some h /\ mapping (os st) = Some m /\
    load_uint 4 (h + hdr_WriteIndex) m = Some cur /\
    MaxSlots (this st) <> 0 /\
    store_uint 4 (h + hdr_WriteIndex) (u32 (cur + 1) mod MaxSlots (this st)) m
      = Some m1 /\
    st' = put_mapping (Some m1)
            (add_event (claim_event h (MaxSlots (this st)) cur) st).
Proof.
  unfold GetNextWriteIndex, GetNextWriteIndex_loop. intros H.
  pstep H. pstep H.
  destruct (Header (this st)) as [h|] eqn:Hh; [|done].
  pstep H.
  destruct (Z.eqb_spec (MaxSlots (this st)) 0) as [|Hn]; [done|].
  mstep H Hcas. unfold InterlockedCompareExchange in Hcas.
  pstep Hcas. pstep Hcas. st_simpl.
  assert (a1 = a) as -> by congruence.
  rewrite Z.eqb_refl in Hcas.
  pstep Hcas. prim_inv Hcas. st_simpl.
  rewrite Z.eqb_refl in H. prim_inv H.
  assert (m1 = m) as -> by congruence.
  eexists h, m, _. split_and!; try done.
Qed.

(** In a single thread the exchange succeeds at the first attempt: more
    fuel changes nothing. *)
Lemma GetNextWriteIndex_loop_once fuel st :
  GetNextWriteIndex_loop (S fuel) st = GetNextWriteIndex st.
Proof.
  unfold GetNextWriteIndex. cbn [GetNextWriteIndex_loop].
  unfold bind, get, InterlockedCompareExchange, bind, emit, read_uint.
  destruct (Header (this st)) as [h|]; [|done].
  destruct (mapping (os st)) as [m|] eqn:Hm; [|done].
  destruct (load_uint 4 (h + hdr_WriteIndex) m) as [cur|] eqn:Hl; [|done].
  destruct (MaxSlots (this st) =? 0); [done|].
  st_simpl. rewrite Hm, Hl, Z.eqb_refl.
  destruct (write_uint _ _ _ _) as [[[] st1]|]; [|done].
  unfold ret. by rewrite Z.eqb_refl.
Qed.

Lemma GetSlot_inv Index st r st' :
  GetSlot Index st = Some (r, st') ->
  st' = st /\
  (MaxSlots (this st) <= Index /\ r = None \/
   Index < MaxSlots (this st) /\
   exists base, SlotDataStart (this st) = Some base /\
                r = Some (base + u32 (Index * SingleSlotSize (this st)))).
Proof.
  unfold GetSlot. intros H. pstep H.
  destruct (Z.leb_spec (MaxSlots (this st)) Index).
  - prim_inv H. auto.
  - pstep H. pstep H.
    destruct (SlotDataStart (this st)) as [base|]; [|done].
    prim_inv H. split; [done|]. right. eauto.
Qed.

Lemma sem_timedwait_inv s ts st r st' :
  sem_timedwait s ts st = Some (r, st') ->
  0 < sem_value s (os st) /\ r = 0 /\
    st' = put_sem s (sem_value s (os st) - 1)
            (add_event (ev_sem_timedwait s ts) st)
  \/ sem_value s (os st) <= 0 /\ r = -1 /\
    st' = add_event (ev_sem_timedwait s ts) st.
Proof.
  unfold sem_timedwait. intros H. pstep H.
  change (sem_value s (os (add_event (ev_sem_timedwait s ts) st)))
    with (sem_value s (os st)) in H.
  destruct (Z.ltb_spec 0 (sem_value s (os st))).
  - pstep H. prim_inv H. left. done.
  - prim_inv H. right. done.
Qed.

Lemma sem_post_inv s st u st' :
  sem_post s st = Some (u, st') ->
  st' = put_sem s (sem_value s (os st) + 1) (add_event (ev_sem_post s) st).
Proof.
  unfold sem_post. intros H. pstep H. prim_inv H. done.
Qed.

(** Every call of [WriteImage] that returns ends in one of the four ways. *)
Lemma WriteImage_outcome now W H T I px st ok st' :
  WriteImage now W H T I px st = Some (ok, st') ->
  outcome now W H T I px st ok st'.
Proof.
  unfold WriteImage. intros Hw. pstep Hw. pstep Hw.
  destruct (bIsInitialized (this st)) eqn:Hinit;
    [|prim_inv Hw; apply rejected; auto].
  destruct (Header (this st)) as [h|] eqn:Hh;
    [|prim_inv Hw; apply rejected; auto].
  destruct (Z.eqb_spec W 0) as [->|HW];
    [prim_inv Hw; apply rejected; auto|].
  destruct (Z.eqb_spec H 0) as [->|HH];
    [prim_inv Hw; apply rejected; auto|].
  cbn [orb] in Hw.
  destruct (Z.ltb_spec (Num px) (required_size W H)) as [Hlt|Hge];
    [prim_inv Hw; apply rejected; auto|].
  mstep Hw Hwait.
  apply sem_timedwait_inv in Hwait.
  destruct Hwait as [(Hp & -> & ->)|(Hp & -> & ->)]; cbn [sem_value] in *.
  2:{ change (-1 <? 0) with true in Hw. cbv iota in Hw. prim_inv Hw.
      by eapply timed_out. }
  change (0 <? 0) with false in Hw. cbv iota in Hw.
  mstep Hw Hidx. apply GetNextWriteIndex_inv in Hidx.
  destruct Hidx as (h' & m & m1 & Hh' & Hm & Hcur & Hn & Hs & ->).
  st_simpl. rewrite Hh in Hh'. injection Hh' as <-.
  mstep Hw Hslot. apply GetSlot_inv in Hslot.
  destruct Hslot as (-> & [(Hrange & ->)|(Hrange & base & Hbase & ->)]);
    st_simpl.
  - mstep Hw Hpost. apply sem_post_inv in Hpost. subst. prim_inv Hw.
    st_simpl. by eapply no_slot.
  - do 7 wstep Hw.
    mstep Hw Hpost. apply sem_post_inv in Hpost. subst. prim_inv Hw.
    rewrite !put_mapping_put_mapping.
    eapply accepted; eauto.
    unfold fill_slot, store_uint.
    repeat match goal with
           | Hx : store _ _ _ = Some _ |- _ =>
               rewrite Hx; clear Hx; cbn [mbind option_bind]
           end.
    done.
Qed.

(** ** The stores of an accepted write *)

Lemma load_uint_store_uint_same n off v m m' :
  store_uint n off v m = Some m' ->
  load_uint n off m' = Some (v mod 2 ^ (8 * Z.of_nat n)).
Proof.
  unfold store_uint, load_uint. intros Hs.
  apply load_store_same in Hs. rewrite le_bytes_length in Hs.
  rewrite Hs. simpl. by rewrite le_value_le_bytes.
Qed.

Lemma load_uint_store_other n off' off bs m m' :
  store off bs m = Some m' ->
  off' + Z.of_nat n <= off \/ off + Z.of_nat (length bs) <= off' ->
  load_uint n off' m' = load_uint n off' m.
Proof.
  intros Hs Hd. unfold load_uint. by rewrite (load_store_other _ _ _ _ _ _ Hs Hd).
Qed.

Ltac layout :=
  unfold slot_Width, slot_Height, slot_Timestamp, slot_ImageType,
    slot_DataSize, slot_PixelData, hdr_WriteIndex, hdr_LastUpdateTime,
    hdr_MagicNumber, hdr_NumSlots, hdr_SlotSize in *.

Ltac disjoint :=
  rewrite ?le_bytes_length, ?length_take; layout; lia.

Lemma fill_slot_inv slot h W H T I RS px m m' :
  fill_slot slot h W H T I RS px m = Some m' ->
  exists m1 m2 m3 m4 m5 m6,
    store_uint 4 (slot + slot_Width) W m = Some m1 /\
    store_uint 4 (slot + slot_Height) H m1 = Some m2 /\
    store_uint 8 (slot + slot_Timestamp) T m2 = Some m3 /\
    store_uint 4 (slot + slot_ImageType) I m3 = Some m4 /\
    store_uint 4 (slot + slot_DataSize) RS m4 = Some m5 /\
    store (slot + slot_PixelData) (take (Z.to_nat RS) px) m5 = Some m6 /\
    store_uint 8 (h + hdr_LastUpdateTime) T m6 = Some m'.
Proof.
  unfold fill_slot. intros Hf.
  repeat match type of Hf with
         | ?c ≫= _ = Some _ =>
             let m := fresh "m" in let Hs := fresh "Hs" in
             destruct c as [m|] eqn:Hs; [cbn [mbind option_bind] in Hf|done]
         end.
  by eexists _, _, _, _, _, _.
Qed.

Lemma fill_slot_length slot h W H T I RS px m m' :
  fill_slot slot h W H T I RS px m = Some m' -> length m' = length m.
Proof.
  intros (m1 & m2 & m3 & m4 & m5 & m6 & H1 & H2 & H3 & H4 & H5 & H6 & H7)
    %fill_slot_inv.
  unfold store_uint in *.
  rewrite (store_length _ _ _ _ H7), (store_length _ _ _ _ H6),
    (store_length _ _ _ _ H5), (store_length _ _ _ _ H4),
    (store_length _ _ _ _ H3), (store_length _ _ _ _ H2).
  by rewrite (store_length _ _ _ _ H1).
Qed.

(** What the stores leave outside the slot's written range and the
    header's time stamp. *)
Lemma fill_slot_frame slot h W H T I RS px m m' off len :
  fill_slot slot h W H T I RS px m = Some m' ->
  0 <= RS <= Num px ->
  off + len <= slot \/ slot + slot_PixelData + RS <= off ->
  off + len <= h + hdr_LastUpdateTime \/ h + hdr_LastUpdateTime + 8 <= off ->
  load off len m' = load off len m.
Proof.
  intros (m1 & m2 & m3 & m4 & m5 & m6 & H1 & H2 & H3 & H4 & H5 & H6 & H7)
    %fill_slot_inv HRS Hslot Hhdr.
  unfold store_uint, Num in *.
  rewrite (load_store_other _ _ _ _ _ _ H7) by disjoint.
  rewrite (load_store_other _ _ _ _ _ _ H6) by disjoint.
  rewrite (load_store_other _ _ _ _ _ _ H5) by disjoint.
  rewrite (load_store_other _ _ _ _ _ _ H4) by disjoint.
  rewrite (load_store_other _ _ _ _ _ _ H3) by disjoint.
  rewrite (load_store_other _ _ _ _ _ _ H2) by disjoint.
  by rewrite (load_store_other _ _ _ _ _ _ H1) by disjoint.
Qed.

(** What a reader finds in the slot and in the header afterwards. *)
Lemma fill_slot_reads slot h W H T I RS px m m' :
  fill_slot slot h W H T I RS px m = Some m' ->
  0 <= RS <= Num px ->
  h + hdr_LastUpdateTime + 8 <= slot ->
  load_uint 4 (slot + slot_Width) m' = Some (u32 W) /\
  load_uint 4 (slot + slot_Height) m' = Some (u32 H) /\
  load_uint 8 (slot + slot_Timestamp) m' = Some (u64 T) /\
  load_uint 4 (slot + slot_ImageType) m' = Some (u32 I) /\
  load_uint 4 (slot + slot_DataSize) m' = Some (u32 RS) /\
  load (slot + slot_PixelData) RS m' = Some (take (Z.to_nat RS) px) /\
  load_uint 8 (h + hdr_LastUpdateTime) m' = Some (u64 T).
Proof.
  intros (m1 & m2 & m3 & m4 & m5 & m6 & H1 & H2 & H3 & H4 & H5 & H6 & H7)
    %fill_slot_inv HRS Hslot.
  unfold Num in HRS.
  assert (Z.of_nat (length (take (Z.to_nat RS) px)) = RS) as Hpx
    by (rewrite length_take; lia).
  split_and!.
  - rewrite (load_uint_store_other _ _ _ _ _ _ H7) by disjoint.
    rewrite (load_uint_store_other _ _ _ _ _ _ H6) by disjoint.
    rewrite (load_uint_store_other _ _ _ _ _ _ H5) by disjoint.
    rewrite (load_uint_store_other _ _ _ _ _ _ H4) by disjoint.
    rewrite (load_uint_store_other _ _ _ _ _ _ H3) by disjoint.
    rewrite (load_uint_store_other _ _ _ _ _ _ H2) by disjoint.
    apply (load_uint_store_uint_same _ _ _ _ _ H1).
  - rewrite (load_uint_store_other _ _ _ _ _ _ H7) by disjoint.
    rewrite (load_uint_store_other _ _ _ _ _ _ H6) by disjoint.
    rewrite (load_uint_store_other _ _ _ _ _ _ H5) by disjoint.
    rewrite (load_uint_store_other _ _ _ _ _ _ H4) by disjoint.
    rewrite (load_uint_store_other _ _ _ _ _ _ H3) by disjoint.
    apply (load_uint_store_uint_same _ _ _ _ _ H2).
  - rewrite (load_uint_store_other _ _ _ _ _ _ H7) by disjoint.
    rewrite (load_uint_store_other _ _ _ _ _ _ H6) by disjoint.
    rewrite (load_uint_store_other _ _ _ _ _ _ H5) by disjoint.
    rewrite (load_uint_store_other _ _ _ _ _ _ H4) by disjoint.
    apply (load_uint_store_uint_same _ _ _ _ _ H3).
  - rewrite (load_uint_store_other _ _ _ _ _ _ H7) by disjoint.
    rewrite (load_uint_store_other _ _ _ _ _ _ H6) by disjoint.
    rewrite (load_uint_store_other _ _ _ _ _ _ H5) by disjoint.
    apply (load_uint_store_uint_same _ _ _ _ _ H4).
  - rewrite (load_uint_store_other _ _ _ _ _ _ H7) by disjoint.
    rewrite (load_uint_store_other _ _ _ _ _ _ H6) by disjoint.
    apply (load_uint_store_uint_same _ _ _ _ _ H5).
  - rewrite (load_store_other _ _ _ _ _ _ H7) by disjoint.
    rewrite <- Hpx at 1. apply (load_store_same _ _ _ _ H6).
  - apply (load_uint_store_uint_same _ _ _ _ _ H7).
Qed.

(** ** [Initialize] *)

Lemma u32_range x : is_u32 (u32 x).
Proof. unfold is_u32, u32. apply Z.mod_pos_bound. lia. Qed.

Lemma u32_small x : is_u32 x -> u32 x = x.
Proof. intros Hx. unfold u32. by apply Z.mod_small. Qed.

Lemma total_size_for_eq n s : total_size_for n s = 4096 + u32 (s * n).
Proof.
  unfold total_size_for, sizeof_FSharedMemoryHeader, u64.
  pose proof (u32_range (s * n)) as Hr. unfold is_u32 in Hr.
  rewrite (Z.mod_small (24 + _)) by lia.
  change ((4096 - 24) mod 2 ^ 64) with 4072.
  rewrite Z.mod_small by lia. lia.
Qed.

Lemma Shutdown_not_initialized st u st' :
  Shutdown st = Some (u, st') -> bIsInitialized (this st') = false.
Proof.
  unfold Shutdown. intros H. pstep H. pstep H.
  mstep H H1. mstep H H2. prim_inv H2. mstep H H3. mstep H H4.
  pstep H. pstep H. mstep H H5. prim_inv H. done.
Qed.

Lemma sem_open_inv s ok v st u st' :
  sem_open s ok v st = Some (u, st') ->
  st' = if ok
        then upd_this (with_Semaphore s true)
               (put_sem s v (add_event (ev_sem_open (sem_name s (pid (os st))) v) st))
        else upd_this (with_Semaphore s false)
               (add_event (ev_sem_open (sem_name s (pid (os st))) v) st).
Proof.
  unfold sem_open. intros H. pstep H. pstep H.
  destruct ok; [pstep H|]; by prim_inv H.
Qed.

Lemma Initialize_inv r n mw mh st b st0 :
  bIsInitialized (this st) = false ->
  Initialize r n mw mh st = Some (b, st0) ->
  b = true -> after_Initialize r n mw mh st st0.
Proof.
  intros Hni Hi ->. unfold Initialize in Hi.
  pstep Hi. rewrite Hni in Hi.
  pstep Hi. pstep Hi. pstep Hi. pstep Hi.
  destruct (Z.ltb_spec (shm_open_fd r) 0) as [|Hfd];
    [cbv [ret] in Hi; discriminate Hi|].
  pstep Hi.
  destruct (Z.ltb_spec (ftruncate_ret r) 0) as [|Hft].
  { pstep Hi. pstep Hi. cbv [ret] in Hi; discriminate Hi. }
  mstep Hi Hmap. unfold MapSharedMemory in Hmap.
  gstep Hmap. pstep Hmap.
  destruct (mmap_ok r) eqn:Hmm.
  2:{ prim_inv Hmap. pstep Hi. if_eval Hi. pstep Hi. pstep Hi.
      cbv [ret] in Hi; discriminate Hi. }
  pstep Hmap. prim_inv Hmap. pstep Hi. if_eval Hi.
  pstep Hi.
  wstep Hi. wstep Hi. wstep Hi. wstep Hi. wstep Hi.
  pstep Hi.
  mstep Hi Hw. apply sem_open_inv in Hw. subst.
  mstep Hi Hr. apply sem_open_inv in Hr. subst.
  destruct (sem_open_write_ok r) eqn:Hwo; destruct (sem_open_read_ok r) eqn:Hro;
    gstep Hi; gstep Hi; if_eval Hi.
  2,3,4: mstep Hi Hsd; clear Hsd; cbv [ret] in Hi; discriminate Hi.
  pstep Hi. prim_inv Hi.
  pose proof (total_size_for_eq n (slot_size_for mw mh)) as Htot.
  pose proof (u32_range (slot_size_for mw mh * n)) as Hr. unfold is_u32 in Hr.
  constructor.
  - done.
  - reflexivity.
  - reflexivity.
  - reflexivity.
  - reflexivity.
  - match goal with |- ?l = _ => let v := proj_eval l in change l with v end.
    by rewrite <- !app_assoc.
  - exists m4. split; [reflexivity|]. split.
    { rewrite (store_length _ _ _ _ Hs3), (store_length _ _ _ _ Hs2),
        (store_length _ _ _ _ Hs1), (store_length _ _ _ _ Hs0),
        (store_length _ _ _ _ Hs), length_replicate. lia. }
    split_and!.
    + rewrite (load_uint_store_other _ _ _ _ _ _ Hs3) by disjoint.
      rewrite (load_uint_store_other _ _ _ _ _ _ Hs2) by disjoint.
      rewrite (load_uint_store_other _ _ _ _ _ _ Hs1) by disjoint.
      rewrite (load_uint_store_other _ _ _ _ _ _ Hs0) by disjoint.
      rewrite (load_uint_store_uint_same _ _ _ _ _ Hs). reflexivity.
    + rewrite (load_uint_store_other _ _ _ _ _ _ Hs3) by disjoint.
      rewrite (load_uint_store_other _ _ _ _ _ _ Hs2) by disjoint.
      rewrite (load_uint_store_other _ _ _ _ _ _ Hs1) by disjoint.
      rewrite (load_uint_store_uint_same _ _ _ _ _ Hs0). reflexivity.
    + rewrite (load_uint_store_other _ _ _ _ _ _ Hs3) by disjoint.
      rewrite (load_uint_store_other _ _ _ _ _ _ Hs2) by disjoint.
      rewrite (load_uint_store_uint_same _ _ _ _ _ Hs1). reflexivity.
    + rewrite (load_uint_store_other _ _ _ _ _ _ Hs3) by disjoint.
      rewrite (load_uint_store_uint_same _ _ _ _ _ Hs2). reflexivity.
    + rewrite (load_uint_store_uint_same _ _ _ _ _ Hs3). reflexivity.
Qed.


(** *** Running forward *)

Lemma write_bytes_intro addr bs st m m' :
  mapping (os st) = Some m -> store addr bs m = Some m' ->
  write_bytes addr bs st = Some (tt, put_mapping (Some m') st).
Proof. unfold write_bytes. by intros -> ->. Qed.

Lemma bind_assoc {A B C} (c : M A) (k1 : A -> M B) (k2 : B -> M C) st :
  bind (bind c k1) k2 st = bind c (fun x => bind (k1 x) k2) st.
Proof. unfold bind. by destruct (c st) as [[a st1]|]. Qed.

(** One step forward through a primitive other than a store, in a goal
    [exists st', (let* x := c in k) st = Some (b, st')]. *)
Ltac fstep :=
  cbv beta;
  lazymatch goal with
  | |- ex (fun _ => bind ?c ?k ?st = _) =>
      lazymatch c with
      | get ?f =>
          let v := proj_eval (f (this st)) in
          rewrite (bind_intro c k st v st eq_refl)
      | getpid =>
          let v := proj_eval (pid (os st)) in
          rewrite (bind_intro c k st v st eq_refl)
      | modify ?f =>
          rewrite (bind_intro c k st tt (upd_this f st) eq_refl)
      | emit ?e =>
          rewrite (bind_intro c k st tt (add_event e st) eq_refl)
      | set_mapping ?m =>
          rewrite (bind_intro c k st tt (put_mapping m st) eq_refl)
      | set_sem ?s ?v =>
          rewrite (bind_intro c k st tt (put_sem s v st) eq_refl)
      | bind ?c1 ?k1 => rewrite (bind_assoc c1 k1 k st)
      end
  end;
  cbv beta.

(** One step forward through a store that stays inside the mapping. *)
Ltac fstore Hs :=
  cbv beta;
  lazymatch goal with
  | |- ex (fun _ => bind (write_uint ?n ?addr ?v) ?k ?st = _) =>
      let mo := proj_eval (mapping (os st)) in
      lazymatch mo with
      | Some ?m =>
          let m' := fresh "m" in
          destruct (store addr (le_bytes n v) m) as [m'|] eqn:Hs;
          [ rewrite (bind_intro (write_uint n addr v) k st tt
                       (put_mapping (Some m') st)
                       (write_bytes_intro addr (le_bytes n v) st m m'
                          eq_refl Hs))
          | rewrite store_Some in Hs; [discriminate Hs| |] ]
      end
  end;
  cbv beta.

(** With the kernel granting every request, [Initialize] succeeds. *)
Lemma Initialize_succeeds r n mw mh st :
  bIsInitialized (this st) = false ->
  0 <= shm_open_fd r -> 0 <= ftruncate_ret r -> mmap_ok r = true ->
  sem_open_write_ok r = true -> sem_open_read_ok r = true ->
  exists st0, Initialize r n mw mh st = Some (true, st0).
Proof.
  intros Hni Hfd Hft Hmm Hwo Hro.
  pose proof (total_size_for_eq n (slot_size_for mw mh)) as Htot.
  pose proof (u32_range (slot_size_for mw mh * n)) as Hr. unfold is_u32 in Hr.
  unfold Initialize.
  rewrite (bind_intro (get bIsInitialized) _ st false st)
    by (unfold get; by rewrite Hni).
  cbv iota. fstep. fstep. fstep. fstep.
  destruct (Z.ltb_spec (shm_open_fd r) 0); [lia|].
  fstep.
  destruct (Z.ltb_spec (ftruncate_ret r) 0); [lia|].
  unfold MapSharedMemory. rewrite Hmm.
  rewrite (bind_intro _ _ _ true
             (put_mapping
                (Some (replicate
                         (Z.to_nat (total_size_for n (slot_size_for mw mh))) 0))
                (add_event
                   (ev_mmap (total_size_for n (slot_size_for mw mh))
                      (shm_open_fd r)) _))) by reflexivity.
  fstep. cbn [negb]. cbv iota. fstep.
  fstore Hs0; [|rewrite ?length_replicate; disjoint..].
  apply store_length in Hs0. rewrite length_replicate in Hs0.
  fstore Hs1; [|disjoint..]. apply store_length in Hs1.
  fstore Hs2; [|disjoint..]. apply store_length in Hs2.
  fstore Hs3; [|disjoint..]. apply store_length in Hs3.
  fstore Hs4; [|disjoint..].
  fstep. unfold sem_open. rewrite Hwo, Hro.
  do 12 fstep.
  cbn [negb orb]. cbv iota. fstep. unfold ret. eauto.
Qed.

(** ** Accepted writes *)

Lemma required_size_range W H : is_u32 (required_size W H).
Proof. apply u32_range. Qed.

Lemma store_uint_frame n off v m m' off' len :
  store_uint n off v m = Some m' ->
  off' + len <= off \/ off + Z.of_nat n <= off' ->
  load off' len m' = load off' len m.
Proof.
  unfold store_uint. intros Hs Hd.
  apply (load_store_other _ _ _ _ _ _ Hs). by rewrite le_bytes_length.
Qed.

(** What an accepted write leaves in the segment and in the kernel
    objects, for a transport whose header is at 0 and whose slots start at
    4096. *)
Lemma WriteImage_accepted_effects now W H T I px st st' :
  initialized st ->
  WriteImage now W H T I px st = Some (true, st') ->
  exists idx,
    WriteIndex st = Some idx /\ 0 <= idx < MaxSlots (this st) /\
    read_slot st' (slot_at st idx)
    = Some {| Width := u32 W; Height := u32 H; Timestamp := u64 T;
              ImageType := u32 I; DataSize := required_size W H;
              PixelData := take (Z.to_nat (required_size W H)) px |} /\
    LastUpdateTime st' = Some (u64 T) /\
    WriteIndex st' = Some ((idx + 1) mod MaxSlots (this st)) /\
    this st' = this st /\
    pid (os st') = pid (os st) /\
    write_permits (os st') = write_permits (os st) - 1 /\
    read_ready (os st') = read_ready (os st) + 1 /\
    trace (os st') =
      trace (os st) ++
      [ev_sem_timedwait WriteSem (timeout_5ms now);
       claim_event 0 (MaxSlots (this st)) idx;
       ev_sem_post ReadSem] /\
    exists m m', mapping (os st) = Some m /\ mapping (os st') = Some m' /\
                 length m' = length m.
Proof.
  intros Hinit Hw. apply WriteImage_outcome in Hw.
  inversion Hw as [| | |h base m cur m1 m' Hflag Hh HW HH Hge Hp Hm Hcur Hn
                        Hs Hlt Hbase Hfill]; subst.
  destruct Hinit as [_ Hh0 Hb0 _ _ Hslots (idx & Hidx & Hidx0 & Hidxn) _].
  rewrite Hh0 in Hh. injection Hh as <-.
  rewrite Hb0 in Hbase. injection Hbase as <-.
  unfold WriteIndex, peek_uint in Hidx. rewrite Hm in Hidx.
  cbn [mbind option_bind] in Hidx. rewrite Hcur in Hidx. injection Hidx as ->.
  pose proof (required_size_range W H) as HRS. unfold is_u32 in HRS.
  pose proof (u32_range (idx * SingleSlotSize (this st))) as Hoff.
  unfold is_u32 in Hoff, Hslots.
  destruct (fill_slot_reads _ _ _ _ _ _ _ _ _ _ Hfill)
    as (R1 & R2 & R3 & R4 & R5 & R6 & R7); [lia|layout; lia|].
  exists idx. split_and!.
  - unfold WriteIndex, peek_uint. rewrite Hm. cbn [mbind option_bind]. done.
  - done.
  - lia.
  - unfold read_slot, peek_uint, peek_bytes, slot_at.
    cbn [mapping os put_sem add_event put_mapping mbind option_bind].
    rewrite R1; cbn [mbind option_bind].
    rewrite R2; cbn [mbind option_bind].
    rewrite R3; cbn [mbind option_bind].
    rewrite R4; cbn [mbind option_bind].
    rewrite R5; cbn [mbind option_bind].
    rewrite (u32_small (required_size W H)) by apply required_size_range.
    rewrite R6; cbn [mbind option_bind]. done.
  - unfold LastUpdateTime, peek_uint.
    cbn [mapping os put_sem add_event put_mapping mbind option_bind].
    exact R7.
  - unfold WriteIndex, peek_uint.
    cbn [mapping os put_sem add_event put_mapping mbind option_bind].
    unfold load_uint.
    rewrite (fill_slot_frame _ _ _ _ _ _ _ _ _ _ _ _ Hfill)
      by (layout; lia).
    fold (load_uint 4 (0 + hdr_WriteIndex) m1).
    rewrite (load_uint_store_uint_same _ _ _ _ _ Hs). f_equal.
    change (2 ^ (8 * Z.of_nat 4)) with (2 ^ 32).
    rewrite (u32_small (idx + 1)) by (unfold is_u32; lia).
    apply Z.mod_small.
    pose proof (Z.mod_pos_bound (idx + 1) (MaxSlots (this st))). lia.
  - reflexivity.
  - reflexivity.
  - reflexivity.
  - reflexivity.
  - cbn [trace os put_sem add_event put_mapping].
    by rewrite <- !app_assoc.
  - exists m, m'. split; [done|]. split; [reflexivity|].
    rewrite (fill_slot_length _ _ _ _ _ _ _ _ _ _ Hfill).
    apply (store_length _ _ _ _ Hs).
Qed.

(** ** Calls that return *)

(** The stores of an accepted write succeed when the slot and the header
    lie inside the segment. *)
Lemma fill_slot_Some slot h W H T I RS px m :
  0 <= h -> h + hdr_LastUpdateTime + 8 <= Z.of_nat (length m) ->
  0 <= slot -> 0 <= RS <= Num px ->
  slot + slot_PixelData + RS <= Z.of_nat (length m) ->
  exists m', fill_slot slot h W H T I RS px m = Some m'.
Proof.
  intros Hh Hhdr Hslot HRS Hfit. unfold fill_slot, store_uint, Num in *.
  assert (Z.of_nat (length (take (Z.to_nat RS) px)) = RS) as Hpx
    by (rewrite length_take; lia).
  destruct (store (slot + slot_Width) _ m) as [m1|] eqn:H1.
  2:{ rewrite store_Some in H1; [done|disjoint..]. }
  apply store_length in H1. cbn [mbind option_bind].
  destruct (store (slot + slot_Height) _ m1) as [m2|] eqn:H2.
  2:{ rewrite store_Some in H2; [done|disjoint..]. }
  apply store_length in H2. cbn [mbind option_bind].
  destruct (store (slot + slot_Timestamp) _ m2) as [m3|] eqn:H3.
  2:{ rewrite store_Some in H3; [done|disjoint..]. }
  apply store_length in H3. cbn [mbind option_bind].
  destruct (store (slot + slot_ImageType) _ m3) as [m4|] eqn:H4.
  2:{ rewrite store_Some in H4; [done|disjoint..]. }
  apply store_length in H4. cbn [mbind option_bind].
  destruct (store (slot + slot_DataSize) _ m4) as [m5|] eqn:H5.
  2:{ rewrite store_Some in H5; [done|disjoint..]. }
  apply store_length in H5. cbn [mbind option_bind].
  destruct (store (slot + slot_PixelData) _ m5) as [m6|] eqn:H6.
  2:{ rewrite store_Some in H6; [done|layout; lia..]. }
  apply store_length in H6. cbn [mbind option_bind].
  destruct (store (h + hdr_LastUpdateTime) _ m6) as [m7|] eqn:H7.
  2:{ rewrite store_Some in H7; [done|disjoint..]. }
  eauto.
Qed.

Lemma bind_eq {A B} (c : M A) (k : A -> M B) st :
  bind c k st = match c st with Some (a, st1) => k a st1 | None => None end.
Proof. reflexivity. Qed.

Lemma sem_timedwait_intro s ts st :
  sem_timedwait s ts st
  = if 0 <? sem_value s (os st)
    then Some (0, put_sem s (sem_value s (os st) - 1)
                    (add_event (ev_sem_timedwait s ts) st))
    else Some (-1, add_event (ev_sem_timedwait s ts) st).
Proof.
  unfold sem_timedwait, bind, emit, set_sem, ret.
  destruct s; cbn [sem_value os add_event write_permits read_ready];
    by destruct (0 <? _).
Qed.

Lemma sem_post_intro s st :
  sem_post s st
  = Some (tt, put_sem s (sem_value s (os st) + 1)
                (add_event (ev_sem_post s) st)).
Proof.
  unfold sem_post, bind, emit, set_sem.
  by destruct s; cbn [sem_value os add_event write_permits read_ready].
Qed.

Lemma GetNextWriteIndex_intro st h m cur m1 :
  Header (this st) = Some h -> mapping (os st) = Some m ->
  load_uint 4 (h + hdr_WriteIndex) m = Some cur ->
  MaxSlots (this st) <> 0 ->
  store_uint 4 (h + hdr_WriteIndex) (u32 (cur + 1) mod MaxSlots (this st)) m
  = Some m1 ->
  GetNextWriteIndex st
  = Some (cur, put_mapping (Some m1)
                 (add_event (claim_event h (MaxSlots (this st)) cur) st)).
Proof.
  intros Hh Hm Hcur Hn Hs.
  unfold GetNextWriteIndex, GetNextWriteIndex_loop.
  unfold bind, get, InterlockedCompareExchange, bind, emit, read_uint,
    write_uint, write_bytes, set_mapping, ret.
  rewrite Hh, Hm, Hcur.
  destruct (Z.eqb_spec (MaxSlots (this st)) 0) as [|_]; [done|].
  cbn [mapping os add_event]. rewrite Hm, Hcur, Z.eqb_refl.
  unfold store_uint in Hs. cbn [mapping os add_event]. rewrite Hm, Hs.
  by rewrite Z.eqb_refl.
Qed.

Lemma GetSlot_intro Index st :
  GetSlot Index st
  = if MaxSlots (this st) <=? Index then Some (None, st)
    else match SlotDataStart (this st) with
         | Some base =>
             Some (Some (base + u32 (Index * SingleSlotSize (this st))), st)
         | None => None
         end.
Proof.
  unfold GetSlot, bind, get, ret, fault.
  destruct (_ <=? _); [done|]. by destruct (SlotDataStart (this st)).
Qed.

Lemma fill_slot_writes {A} slot h W H T I RS px m m' st (k : M A) :
  mapping (os st) = Some m ->
  fill_slot slot h W H T I RS px m = Some m' ->
  (write_uint 4 (slot + slot_Width) W;;
   write_uint 4 (slot + slot_Height) H;;
   write_uint 8 (slot + slot_Timestamp) T;;
   write_uint 4 (slot + slot_ImageType) I;;
   write_uint 4 (slot + slot_DataSize) RS;;
   write_bytes (slot + slot_PixelData) (take (Z.to_nat RS) px);;
   write_uint 8 (h + hdr_LastUpdateTime) T;;
   k) st
  = k (put_mapping (Some m') st).
Proof.
  intros Hm Hf. apply fill_slot_inv in Hf.
  destruct Hf as (m1 & m2 & m3 & m4 & m5 & m6 & H1 & H2 & H3 & H4 & H5 & H6 & H7).
  unfold store_uint in *. unfold write_uint.
  rewrite (bind_intro _ _ _ _ _ (write_bytes_intro _ _ _ _ _ Hm H1)).
  cbv beta.
  rewrite (bind_intro _ _ _ _ _
             (write_bytes_intro _ _ (put_mapping _ _) _ _ eq_refl H2)).
  cbv beta.
  rewrite (bind_intro _ _ _ _ _
             (write_bytes_intro _ _ (put_mapping _ _) _ _ eq_refl H3)).
  cbv beta.
  rewrite (bind_intro _ _ _ _ _
             (write_bytes_intro _ _ (put_mapping _ _) _ _ eq_refl H4)).
  cbv beta.
  rewrite (bind_intro _ _ _ _ _
             (write_bytes_intro _ _ (put_mapping _ _) _ _ eq_refl H5)).
  cbv beta.
  rewrite (bind_intro _ _ _ _ _
             (write_bytes_intro _ _ (put_mapping _ _) _ _ eq_refl H6)).
  cbv beta.
  rewrite (bind_intro _ _ _ _ _
             (write_bytes_intro _ _ (put_mapping _ _) _ _ eq_refl H7)).
  cbv beta.
  by rewrite !put_mapping_put_mapping.
Qed.

(** The converse of [WriteImage_outcome]: the four outcomes are exactly
    what the call returns. *)
Lemma outcome_WriteImage now W H T I px st ok st' :
  outcome now W H T I px st ok st' ->
  WriteImage now W H T I px st = Some (ok, st').
Proof.
  intros Ho. unfold WriteImage.
  rewrite (bind_intro (get bIsInitialized) _ st _ st eq_refl).
  rewrite (bind_intro (get Header) _ st _ st eq_refl).
  destruct Ho as [Hr|h Hi Hh HW HH Hge Hp|h m cur m1 Hi Hh HW HH Hge Hp Hm Hcur
                  Hn Hs Hle|h base m cur m1 m' Hi Hh HW HH Hge Hp Hm Hcur Hn Hs
                  Hlt Hbase Hfill].
  - destruct (bIsInitialized (this st)); [|done].
    destruct (Header (this st)); [|done].
    destruct (Z.eqb_spec W 0); [done|]. destruct (Z.eqb_spec H 0); [done|].
    cbn [orb]. destruct (Z.ltb_spec (Num px) (required_size W H)); [done|].
    exfalso. destruct Hr as [|[|[|[|]]]]; try done; lia.
  - rewrite Hi, Hh.
    destruct (Z.eqb_spec W 0); [done|]. destruct (Z.eqb_spec H 0); [done|].
    cbn [orb]. destruct (Z.ltb_spec (Num px) (required_size W H)); [lia|].
    rewrite bind_eq, sem_timedwait_intro. cbn [sem_value].
    destruct (Z.ltb_spec 0 (write_permits (os st))); [lia|].
    reflexivity.
  - rewrite Hi, Hh.
    destruct (Z.eqb_spec W 0); [done|]. destruct (Z.eqb_spec H 0); [done|].
    cbn [orb]. destruct (Z.ltb_spec (Num px) (required_size W H)); [lia|].
    rewrite bind_eq, sem_timedwait_intro. cbn [sem_value].
    destruct (Z.ltb_spec 0 (write_permits (os st))); [|lia].
    change (0 <? 0) with false. cbv iota.
    rewrite (bind_intro _ _ _ _ _
               (GetNextWriteIndex_intro (put_sem _ _ (add_event _ st))
                  h m cur m1 Hh Hm Hcur Hn Hs)).
    rewrite bind_eq, GetSlot_intro.
    cbn [this put_mapping add_event put_sem upd_this].
    destruct (Z.leb_spec (MaxSlots (this st)) cur); [|lia].
    rewrite (bind_intro _ _ _ _ _ (sem_post_intro _ _)). reflexivity.
  - rewrite Hi, Hh.
    destruct (Z.eqb_spec W 0); [done|]. destruct (Z.eqb_spec H 0); [done|].
    cbn [orb]. destruct (Z.ltb_spec (Num px) (required_size W H)); [lia|].
    rewrite bind_eq, sem_timedwait_intro. cbn [sem_value].
    destruct (Z.ltb_spec 0 (write_permits (os st))); [|lia].
    change (0 <? 0) with false. cbv iota.
    rewrite (bind_intro _ _ _ _ _
               (GetNextWriteIndex_intro (put_sem _ _ (add_event _ st))
                  h m cur m1 Hh Hm Hcur Hn Hs)).
    rewrite bind_eq, GetSlot_intro.
    cbn [this put_mapping add_event put_sem upd_this].
    destruct (Z.leb_spec (MaxSlots (this st)) cur); [lia|].
    rewrite Hbase.
    rewrite (fill_slot_writes _ _ _ _ _ _ _ _ _ _ (put_mapping _ _) _
               eq_refl Hfill).
    rewrite (bind_intro _ _ _ _ _ (sem_post_intro _ _)). reflexivity.
Qed.

(** An initialized transport with a permit accepts every frame whose
    slot lies inside the segment. *)
Lemma WriteImage_accepts now W H T I px st idx :
  initialized st ->
  W <> 0 -> H <> 0 -> required_size W H <= Num px ->
  0 < write_permits (os st) -> 0 < MaxSlots (this st) ->
  WriteIndex st = Some idx ->
  slot_at st idx + slot_PixelData + required_size W H <= TotalSize (this st) ->
  exists st', WriteImage now W H T I px st = Some (true, st').
Proof.
  intros [Hflag Hh Hbase _ _ _ (idx' & Hidx' & Hidx0 & Hidxn) (m & Hm & Hlen)]
    HW HH Hge Hp Hn Hidx Hfit.
  rewrite Hidx in Hidx'. injection Hidx' as <-. specialize (Hidxn Hn).
  unfold WriteIndex, peek_uint in Hidx. rewrite Hm in Hidx.
  cbn [mbind option_bind] in Hidx.
  pose proof (required_size_range W H) as HRS.
  pose proof (u32_range (idx * SingleSlotSize (this st))) as Hoff.
  unfold is_u32, slot_at in *.
  destruct (store_uint 4 (0 + hdr_WriteIndex)
              (u32 (idx + 1) mod MaxSlots (this st)) m) as [m1|] eqn:Hs.
  2:{ unfold store_uint in Hs. rewrite store_Some in Hs; [done|disjoint..]. }
  pose proof (store_length _ _ _ _ Hs) as Hlen1.
  destruct (fill_slot_Some (4096 + u32 (idx * SingleSlotSize (this st))) 0
              W H T I (required_size W H) px m1) as [m' Hfill];
    [layout; lia..|].
  eexists. apply outcome_WriteImage.
  eapply accepted; eauto. lia.
Qed.

(** In particular every frame that fits the pixel capacity of a slot,
    when the segment holds all the slots. *)
Lemma WriteImage_accepts_within_capacity now W H T I px st :
  initialized st ->
  W <> 0 -> H <> 0 -> required_size W H <= Num px ->
  0 < write_permits (os st) -> 0 < MaxSlots (this st) ->
  TotalSize (this st)
  = 4096 + MaxSlots (this st) * SingleSlotSize (this st) ->
  MaxSlots (this st) * SingleSlotSize (this st) < 2 ^ 32 ->
  required_size W H <= SingleSlotSize (this st) - HeaderSize ->
  exists st', WriteImage now W H T I px st = Some (true, st').
Proof.
  intros Hinit HW HH Hge Hp Hn Htot Hnw Hcap.
  destruct (init_WriteIndex _ Hinit) as (idx & Hidx & Hidx0 & Hidxn).
  specialize (Hidxn Hn).
  pose proof (required_size_range W H) as HRS. unfold is_u32 in HRS.
  apply (WriteImage_accepts now W H T I px st idx); try done.
  unfold slot_at, HeaderSize in *. layout.
  rewrite u32_small by (unfold is_u32; nia). nia.
Qed.

(** With at least one slot and the slots inside the segment, a call whose
    frame fits a slot returns. *)
Lemma WriteImage_defined now W H T I px st :
  initialized st -> 0 < MaxSlots (this st) ->
  TotalSize (this st)
  = 4096 + MaxSlots (this st) * SingleSlotSize (this st) ->
  MaxSlots (this st) * SingleSlotSize (this st) < 2 ^ 32 ->
  required_size W H <= SingleSlotSize (this st) - HeaderSize ->
  exists ok st', WriteImage now W H T I px st = Some (ok, st').
Proof.
  intros Hinit Hn Htot Hnw Hcap.
  destruct (Z.eq_dec W 0) as [HW|HW].
  { exists false, st. apply outcome_WriteImage, rejected. auto. }
  destruct (Z.eq_dec H 0) as [HH|HH].
  { exists false, st. apply outcome_WriteImage, rejected. auto. }
  destruct (Z_lt_le_dec (Num px) (required_size W H)) as [Hlt|Hge].
  { exists false, st. apply outcome_WriteImage, rejected. auto 6. }
  destruct (Z_lt_le_dec 0 (write_permits (os st))) as [Hp|Hp].
  - destruct (WriteImage_accepts_within_capacity now W H T I px st)
      as [st' Hw]; eauto.
  - exists false. eexists. apply outcome_WriteImage.
    eapply timed_out; eauto using init_flag, init_Header.
Qed.

(** ** Calls that are turned down *)

(** Zero dimensions and a buffer shorter than the 32-bit product leave
    every part of the state as it was. *)
Lemma WriteImage_rejects now W H T I px st :
  W = 0 \/ H = 0 \/ Num px < required_size W H ->
  WriteImage now W H T I px st = Some (false, st).
Proof.
  intros Hbad. unfold WriteImage, bind, get, ret.
  destruct (bIsInitialized (this st)); [|done].
  destruct (Header (this st)); [|done].
  destruct (Z.eqb_spec W 0); [done|].
  destruct (Z.eqb_spec H 0); [done|].
  cbn [orb].
  destruct (Z.ltb_spec (Num px) (required_size W H)); [done|]. lia.
Qed.

Lemma WriteImage_not_initialized now W H T I px st :
  bIsInitialized (this st) = false ->
  WriteImage now W H T I px st = Some (false, st).
Proof.
  intros Hni. unfold WriteImage, bind, get, ret. by rewrite Hni.
Qed.

(** Without a permit the call returns [false] after the bounded wait, or
    before it when the arguments are turned down. *)
Lemma WriteImage_no_permit now W H T I px st :
  write_permits (os st) <= 0 ->
  WriteImage now W H T I px st = Some (false, st) \/
  WriteImage now W H T I px st
  = Some (false, add_event (ev_sem_timedwait WriteSem (timeout_5ms now)) st).
Proof.
  intros Hp. unfold WriteImage, bind, get, ret.
  destruct (bIsInitialized (this st)); [|by left].
  destruct (Header (this st)); [|by left].
  destruct ((W =? 0) || (H =? 0)); [by left|].
  destruct (Num px <? required_size W H); [by left|].
  right. unfold sem_timedwait, bind, emit.
  cbn [sem_value os add_event write_permits].
  destruct (Z.ltb_spec 0 (write_permits (os st))); [lia|]. done.
Qed.

Lemma WriteImage_refused_effects now W H T I px st st' :
  initialized st ->
  WriteImage now W H T I px st = Some (false, st') ->
  st' = st \/
  write_permits (os st) <= 0 /\
  st' = add_event (ev_sem_timedwait WriteSem (timeout_5ms now)) st.
Proof.
  intros Hinit Hw. apply WriteImage_outcome in Hw.
  inversion Hw as [| h Hflag Hh HW HH Hge Hp
                   | h m cur m1 Hflag Hh HW HH Hge Hp Hm Hcur Hn Hs Hlt |];
    subst; [by left|by right|].
  exfalso.
  destruct Hinit as [_ Hh0 _ _ _ Hslots (idx & Hidx & Hidx0 & Hidxn) _].
  rewrite Hh0 in Hh. injection Hh as <-.
  unfold WriteIndex, peek_uint in Hidx. rewrite Hm in Hidx.
  cbn [mbind option_bind] in Hidx. rewrite Hcur in Hidx. injection Hidx as ->.
  unfold is_u32 in Hslots. lia.
Qed.

(** ** The invariant *)

Lemma initialized_add_event e st :
  initialized st -> initialized (add_event e st).
Proof. intros [? ? ? ? ? ? ? ?]. by constructor. Qed.

Lemma initialized_put_sem s v st :
  initialized st -> initialized (put_sem s v st).
Proof. intros [? ? ? ? ? ? ? ?]. by constructor. Qed.

Lemma after_Initialize_initialized r n mw mh st st0 :
  is_u32 n -> after_Initialize r n mw mh st st0 -> initialized st0.
Proof.
  intros Hn [_ Hthis _ _ _ _ (m & Hm & Hlen & _ & _ & _ & Hidx & _)].
  constructor; rewrite ?Hthis; cbn; try done.
  - exists 0. unfold WriteIndex, peek_uint. rewrite Hm.
    cbn [mbind option_bind]. split; [done|]. lia.
  - by exists m.
Qed.

Lemma WriteImage_initialized now W H T I px st ok st' :
  initialized st ->
  WriteImage now W H T I px st = Some (ok, st') ->
  initialized st' /\ this st' = this st.
Proof.
  intros Hinit Hw. destruct ok.
  - destruct (WriteImage_accepted_effects _ _ _ _ _ _ _ _ Hinit Hw)
      as (idx & Hidx & Hr & _ & _ & Hidx' & Hthis & _ & _ & _ & _
          & m & m' & Hm & Hm' & Hlen).
    split; [|done].
    destruct Hinit as [? ? ? ? ? Hslots _ (m0 & Hm0 & Hlen0)].
    constructor; rewrite ?Hthis; try done.
    + exists ((idx + 1) mod MaxSlots (this st)). split; [done|].
      pose proof (Z.mod_pos_bound (idx + 1) (MaxSlots (this st))). lia.
    + exists m'. split; [done|]. rewrite Hlen. congruence.
  - destruct (WriteImage_refused_effects _ _ _ _ _ _ _ _ Hinit Hw)
      as [->|[_ ->]]; [done|].
    split; [|done]. by apply initialized_add_event.
Qed.

Lemma consumer_take_inv st u st' :
  consumer_take st = Some (u, st') ->
  st' = st \/ st' = put_sem ReadSem (read_ready (os st) - 1) st.
Proof.
  unfold consumer_take, set_sem, ret.
  destruct (0 <? read_ready (os st)); intros [= <-]; auto.
Qed.

Lemma consumer_release_inv st u st' :
  consumer_release st = Some (u, st') ->
  st' = put_sem WriteSem (write_permits (os st) + 1) st.
Proof. unfold consumer_release, set_sem. by intros [= <-]. Qed.

(** ** Runs *)

Lemma count_accepted_cons ok oks :
  count_accepted (ok :: oks)
  = (if ok then 1 else 0) + count_accepted oks.
Proof.
  unfold count_accepted. destruct ok.
  - rewrite filter_cons_True by done. cbn [length]. lia.
  - rewrite filter_cons_False by done. lia.
Qed.

Lemma count_accepted_nonneg oks : 0 <= count_accepted oks.
Proof. unfold count_accepted. lia. Qed.

Lemma claimed_app tr1 tr2 : claimed (tr1 ++ tr2) = claimed tr1 ++ claimed tr2.
Proof. apply omap_app. Qed.

Lemma run_cons_inv a acts st oks st' :
  run (a :: acts) st = Some (oks, st') ->
  match a with
  | act_WriteImage c =>
      exists ok oks' st1, do_call c st = Some (ok, st1) /\
                          run acts st1 = Some (oks', st') /\ oks = ok :: oks'
  | act_consumer_take =>
      exists st1, consumer_take st = Some (tt, st1) /\
                  run acts st1 = Some (oks, st')
  | act_consumer_release =>
      exists st1, consumer_release st = Some (tt, st1) /\
                  run acts st1 = Some (oks, st')
  end.
Proof.
  destruct a; cbn [run]; intros Hr.
  - apply bind_inv in Hr. destruct Hr as (ok & st1 & Hc & Hr).
    apply bind_inv in Hr. destruct Hr as (oks' & st2 & Hr & Hret).
    unfold ret in Hret. injection Hret as <- <-. by eexists _, _, _.
  - apply bind_inv in Hr. destruct Hr as ([] & st1 & Hc & Hr). eauto.
  - apply bind_inv in Hr. destruct Hr as ([] & st1 & Hc & Hr). eauto.
Qed.

(** From an initialized transport with at least one slot, the claims of a
    run continue the rotation where the write index stands. *)
Lemma run_rotation acts : forall st s oks st',
  initialized st -> 0 < MaxSlots (this st) ->
  WriteIndex st = Some (s mod MaxSlots (this st)) ->
  run acts st = Some (oks, st') ->
  initialized st' /\ this st' = this st /\
  claimed (trace (os st'))
  = claimed (trace (os st))
    ++ map (fun j => (s + Z.of_nat j) mod MaxSlots (this st))
         (seq 0 (Z.to_nat (count_accepted oks))) /\
  WriteIndex st' = Some ((s + count_accepted oks) mod MaxSlots (this st)).
Proof.
  induction acts as [|a acts IH]; intros st s oks st' Hinit Hn Hidx Hr.
  - cbn [run] in Hr. unfold ret in Hr. injection Hr as <- <-.
    change (count_accepted []) with 0. cbn [Z.to_nat seq map].
    rewrite app_nil_r, Z.add_0_r. done.
  - apply run_cons_inv in Hr. destruct a as [c| |].
    + destruct Hr as (ok & oks' & st1 & Hc & Hr & ->). unfold do_call in Hc.
      destruct (WriteImage_initialized _ _ _ _ _ _ _ _ _ Hinit Hc)
        as [Hinit1 Hthis1].
      rewrite count_accepted_cons.
      pose proof (count_accepted_nonneg oks') as Hk.
      destruct ok.
      * destruct (WriteImage_accepted_effects _ _ _ _ _ _ _ _ Hinit Hc)
          as (idx & Hidx0 & Hrange & _ & _ & Hidx1 & _ & _ & _ & _ & Htr & _).
        rewrite Hidx in Hidx0. injection Hidx0 as <-.
        rewrite Zplus_mod_idemp_l in Hidx1.
        rewrite <- Hthis1 in Hidx1, Hn.
        destruct (IH st1 (s + 1) oks' st' Hinit1 Hn Hidx1 Hr)
          as (Hinit' & Hthis' & Hcl & Hidx').
        rewrite Hthis1 in *.
        split_and!; [done|congruence| |].
        -- rewrite Hcl, Htr, claimed_app. cbn [claimed omap claim_event].
           cbn [mbind option_bind app].
           rewrite <- app_assoc. f_equal.
           replace (Z.to_nat (1 + count_accepted oks'))
             with (S (Z.to_nat (count_accepted oks'))) by lia.
           cbn [seq map app]. rewrite Z.add_0_r. f_equal.
           rewrite <- seq_shift, map_map. apply map_ext. intros j.
           f_equal. lia.
        -- rewrite Hidx'. do 2 f_equal. lia.
      * destruct (WriteImage_refused_effects _ _ _ _ _ _ _ _ Hinit Hc)
          as [->|[_ ->]].
        -- rewrite Z.add_0_l. by apply IH.
        -- rewrite Z.add_0_l.
           destruct (IH _ s oks' st' Hinit1 Hn Hidx Hr)
             as (Hinit' & Hthis' & Hcl & Hidx').
           split_and!; try done.
           rewrite Hcl. cbn [trace os add_event]. rewrite claimed_app.
           cbn [claimed omap]. by rewrite app_nil_r.
    + destruct Hr as (st1 & Hc & Hr).
      apply consumer_take_inv in Hc. destruct Hc as [->| ->]; [by apply IH|].
      exact (IH _ s oks st' (initialized_put_sem _ _ _ Hinit) Hn Hidx Hr).
    + destruct Hr as (st1 & Hc & Hr).
      apply consumer_release_inv in Hc. subst st1.
      exact (IH _ s oks st' (initialized_put_sem _ _ _ Hinit) Hn Hidx Hr).
Qed.

(** ** Permits *)

(** A run of consumer steps and of frames that fit returns. *)
Lemma run_defined acts : forall st,
  initialized st -> 0 < MaxSlots (this st) ->
  TotalSize (this st)
  = 4096 + MaxSlots (this st) * SingleSlotSize (this st) ->
  MaxSlots (this st) * SingleSlotSize (this st) < 2 ^ 32 ->
  Forall (fits (SingleSlotSize (this st))) acts ->
  exists oks st', run acts st = Some (oks, st').
Proof.
  induction acts as [|a acts IH]; intros st Hinit Hn Htot Hnw Hfits.
  - by exists [], st.
  - apply Forall_cons in Hfits as [Ha Hfits]. cbn [run].
    destruct a as [c| |]; cbn [fits] in Ha.
    + destruct (WriteImage_defined (c_now c) (c_Width c) (c_Height c)
                  (c_Timestamp c) (c_ImageType c) (c_PixelData c) st)
        as (ok & st1 & Hc); try done.
      destruct (WriteImage_initialized _ _ _ _ _ _ _ _ _ Hinit Hc)
        as [Hinit1 Hthis].
      destruct (IH st1) as (oks & st' & Hr); rewrite ?Hthis; try done.
      exists (ok :: oks), st'. unfold do_call.
      rewrite (bind_intro _ _ _ _ _ Hc), (bind_intro _ _ _ _ _ Hr). done.
    + unfold bind, consumer_take, set_sem, ret.
      destruct (0 <? read_ready (os st)).
      * apply IH; try done. by apply initialized_put_sem.
      * by apply IH.
    + unfold bind, consumer_release, set_sem.
      apply IH; try done. by apply initialized_put_sem.
Qed.

(** A call takes a permit exactly when it is accepted. *)
Lemma WriteImage_permits now W H T I px st ok st' :
  WriteImage now W H T I px st = Some (ok, st') ->
  write_permits (os st')
  = write_permits (os st) - (if ok then 1 else 0) /\
  (ok = true -> 0 < write_permits (os st)).
Proof.
  intros Hw. apply WriteImage_outcome in Hw.
  inversion Hw; subst; cbn [write_permits os put_sem add_event put_mapping].
  - split; [lia|done].
  - split; [lia|done].
  - split; [lia|done].
  - split; [lia|done].
Qed.

Lemma run_writes_permits acts : forall st oks st',
  forallb is_write acts = true ->
  run acts st = Some (oks, st') ->
  write_permits (os st') = write_permits (os st) - count_accepted oks /\
  (0 <= write_permits (os st) -> 0 <= write_permits (os st')).
Proof.
  induction acts as [|a acts IH]; intros st oks st' Hall Hr.
  - cbn [run] in Hr. unfold ret in Hr. injection Hr as <- <-.
    change (count_accepted []) with 0. lia.
  - cbn [forallb] in Hall. apply andb_true_iff in Hall as [Ha Hall].
    apply run_cons_inv in Hr. destruct a as [c| |]; try discriminate Ha.
    destruct Hr as (ok & oks' & st1 & Hc & Hr & ->). unfold do_call in Hc.
    apply WriteImage_permits in Hc. destruct Hc as [Hp Hpos].
    destruct (IH _ _ _ Hall Hr) as [Hp' Hnn].
    rewrite count_accepted_cons. destruct ok; [specialize (Hpos eq_refl)|]; lia.
Qed.

(** As long as the consumer posts no permit, whatever it takes, the
    permits left are those at the start less the writes accepted. *)
Lemma run_no_release_permits acts : forall st oks st',
  forallb posts_no_permit acts = true ->
  run acts st = Some (oks, st') ->
  write_permits (os st') = write_permits (os st) - count_accepted oks /\
  (0 <= write_permits (os st) -> 0 <= write_permits (os st')).
Proof.
  induction acts as [|a acts IH]; intros st oks st' Hall Hr.
  - cbn [run] in Hr. unfold ret in Hr. injection Hr as <- <-.
    change (count_accepted []) with 0. lia.
  - cbn [forallb] in Hall. apply andb_true_iff in Hall as [Ha Hall].
    apply run_cons_inv in Hr. destruct a as [c| |]; [| |discriminate Ha].
    + destruct Hr as (ok & oks' & st1 & Hc & Hr & ->). unfold do_call in Hc.
      apply WriteImage_permits in Hc. destruct Hc as [Hp Hpos].
      destruct (IH _ _ _ Hall Hr) as [Hp' Hnn].
      rewrite count_accepted_cons.
      destruct ok; [specialize (Hpos eq_refl)|]; lia.
    + destruct Hr as (st1 & Hc & Hr).
      destruct (IH _ _ _ Hall Hr) as [Hp' Hnn].
      apply consumer_take_inv in Hc as [->| ->]; [done|].
      cbn [write_permits os put_sem] in Hp', Hnn. done.
Qed.

(** The deadline is five milliseconds after [now], as a normalised
    [timespec]. *)
Lemma timeout_5ms_spec now :
  0 <= tv_nsec now < 1000000000 ->
  ns (timeout_5ms now) = ns now + 5000000 /\
  0 <= tv_nsec (timeout_5ms now) < 1000000000.
Proof.
  intros Hn. unfold timeout_5ms, ns.
  destruct (Z.leb_spec 1000000000 (tv_nsec now + 5000000));
    cbn [tv_sec tv_nsec]; lia.
Qed.

(** ** Lifecycle *)

Lemma Initialize_again r n mw mh st :
  bIsInitialized (this st) = true ->
  Initialize r n mw mh st = Some (true, st).
Proof. intros Hi. unfold Initialize, bind, get, ret. by rewrite Hi. Qed.

Lemma Shutdown_total st : exists st1, Shutdown st = Some (tt, st1).
Proof.
  destruct st as [[name fd ptr total hdr slots wsem rsem flag n size]
                    [p m wp rr tr]].
  unfold Shutdown, UnmapSharedMemory, bind, get, getpid, modify, emit,
    set_mapping, ret.
  destruct wsem, rsem, ptr; cbn;
    destruct (0 <? total) eqn:Ht; cbn;
    destruct (0 <=? fd) eqn:Hfd; cbn; eexists; reflexivity.
Qed.

(** A second [Shutdown] finds every handle released: it makes no call and
    changes nothing. *)
Lemma Shutdown_twice st st1 :
  Shutdown st = Some (tt, st1) -> Shutdown st1 = Some (tt, st1).
Proof.
  destruct st as [[name fd ptr total hdr slots wsem rsem flag n size]
                    [p m wp rr tr]].
  unfold Shutdown, UnmapSharedMemory, bind, get, getpid, modify, emit,
    set_mapping, ret.
  destruct wsem, rsem, ptr; cbn;
    destruct (0 <? total) eqn:Ht; cbn;
    destruct (0 <=? fd) eqn:Hfd; cbn;
    intros [= <-]; repeat (progress (cbn; rewrite ?Ht, ?Hfd)); reflexivity.
Qed.

Lemma Shutdown_fresh p : Shutdown (fresh p) = Some (tt, fresh p).
Proof. reflexivity. Qed.

Lemma Shutdown_flag st st1 :
  Shutdown st = Some (tt, st1) -> bIsInitialized (this st1) = false.
Proof. apply Shutdown_not_initialized. Qed.

(** ** Sizes *)

(** Clearing the low twelve bits of a 32-bit value. *)
Lemma land_page_mask x :
  is_u32 x -> Z.land x (u32 (Z.lnot 4095)) = 4096 * (x / 4096).
Proof.
  intros Hx. unfold is_u32 in Hx.
  change (u32 (Z.lnot 4095)) with (Z.ldiff (Z.ones 32) (Z.ones 12)).
  transitivity (Z.ldiff x (Z.ones 12)).
  - rewrite <- (Z.mod_small x (2 ^ 32)) at 2 by lia.
    rewrite <- Z.land_ones by lia.
    apply Z.bits_inj'. intros i Hi.
    rewrite !Z.land_spec, !Z.ldiff_spec, Z.land_spec.
    by rewrite andb_assoc.
  - rewrite Z.ldiff_ones_r by lia.
    rewrite Z.shiftr_div_pow2, Z.shiftl_mul_pow2 by lia.
    change (2 ^ 12) with 4096. lia.
Qed.

Lemma ceil_to_4096_bounds x :
  x <= ceil_to_4096 x < x + 4096 /\ ceil_to_4096 x mod 4096 = 0.
Proof.
  unfold ceil_to_4096.
  pose proof (Z.div_mod (x + 4095) 4096 ltac:(lia)) as Hd.
  pose proof (Z.mod_pos_bound (x + 4095) 4096 ltac:(lia)) as Hm.
  split; [lia|].
  rewrite Z.mul_comm. apply Z.mod_mul. lia.
Qed.

(** The slot size is the spec's [ceil_to_4096] of header plus pixels as
    long as that value fits in 32 bits. *)
Lemma slot_size_for_no_wrap mw mh :
  0 <= mw * mh ->
  HeaderSize + mw * mh * 3 <= 2 ^ 32 - 4096 ->
  slot_size_for mw mh = ceil_to_4096 (HeaderSize + mw * mh * 3).
Proof.
  intros H0 Hfit. unfold slot_size_for, HeaderSize in *.
  rewrite (u32_small (mw * mh)) by (unfold is_u32; lia).
  rewrite (u32_small (mw * mh * 3)) by (unfold is_u32; lia).
  rewrite (u32_small (_ + mw * mh * 3)) by (unfold is_u32; lia).
  rewrite (u32_small (_ + 4095)) by (unfold is_u32; lia).
  rewrite land_page_mask by (unfold is_u32; lia).
  reflexivity.
Qed.

Lemma slot_size_for_range mw mh : is_u32 (slot_size_for mw mh).
Proof.
  unfold slot_size_for.
  set (x := u32 (_ + 4095)).
  pose proof (u32_range ((u32 (HeaderSize + u32 (u32 (mw * mh) * 3))) + 4095))
    as Hx. fold x in Hx.
  rewrite land_page_mask by done. unfold is_u32 in *.
  pose proof (Z.div_mod x 4096 ltac:(lia)) as Hd.
  pose proof (Z.mod_pos_bound x 4096 ltac:(lia)) as Hm. lia.
Qed.

Lemma total_size_for_no_wrap n s :
  0 <= s * n < 2 ^ 32 -> total_size_for n s = 4096 + n * s.
Proof.
  intros Hr. rewrite total_size_for_eq, u32_small by done. lia.
Qed.

(** ** The packing task *)

Section PackingFacts.
Import Packing.

Context {FFloat16 float : Type}.
Variable GetFloat : FFloat16 -> float.
Variable CompressImageArray :
  Z -> Z -> list FColor.t -> TArray byte -> TArray byte.

Local Abbreviation DoWork_entry := (DoWork_entry FFloat16 float GetFloat CompressImageArray).
Local Abbreviation DoWork_loop := (DoWork_loop FFloat16 float GetFloat CompressImageArray).
Local Abbreviation RenderResult := (RenderResult FFloat16 float).

Lemma bgr_bytes_length items :
  length (bgr_bytes items) = (3 * length items)%nat.
Proof.
  unfold bgr_bytes. induction items as [|c items IH];
    cbn [flat_map app length]; lia.
Qed.

Lemma poke_Some {T} ptr (v : T) a :
  (ptr < length a)%nat -> poke ptr v a = Some (<[ptr := Some v]> a).
Proof. intros Hlt. unfold poke. by rewrite decide_True. Qed.

Lemma poke_None {T} ptr (v : T) a :
  (length a <= ptr)%nat -> poke ptr v a = None.
Proof. intros Hge. unfold poke. rewrite decide_False; [done|lia]. Qed.

Lemma three_inserts {T} (pre suf : list T) d0 d1 d2 x y z :
  <[(length pre + 2)%nat := z]>
    (<[(length pre + 1)%nat := y]>
       (<[length pre := x]> (pre ++ d0 :: d1 :: d2 :: suf)))
  = pre ++ x :: y :: z :: suf.
Proof.
  induction pre as [|p pre IH]; [done|].
  cbn [length app Nat.add]. cbn. f_equal. apply IH.
Qed.

Lemma three_pokes {T} ptr (x y z : T) (a : list (option T)) :
  (ptr + 3 <= length a)%nat ->
  <[(ptr + 2)%nat := Some z]> (<[(ptr + 1)%nat := Some y]> (<[ptr := Some x]> a))
  = take ptr a ++ [Some x; Some y; Some z] ++ drop (ptr + 3) a.
Proof.
  intros Hlen.
  assert (length (take ptr a) = ptr) as Hl by (rewrite length_take; lia).
  destruct (drop ptr a) as [|d0 [|d1 [|d2 rest]]] eqn:Hd;
    try (apply (f_equal length) in Hd; rewrite length_drop in Hd;
         cbn in Hd; lia).
  assert (drop (ptr + 3) a = rest) as ->.
  { replace (ptr + 3)%nat with (ptr + 3)%nat by lia.
    rewrite <- drop_drop, Hd. done. }
  rewrite <- (take_drop ptr a) at 1. rewrite Hd.
  rewrite <- Hl at 1 2 3. apply three_inserts.
Qed.

(** The copy loop writes blue, green, red for each pixel, in order, over
    the bytes it passes, and leaves the others. *)
Lemma pack_uint8_spec items : forall ptr a,
  (ptr + 3 * length items <= length a)%nat ->
  pack_uint8 items ptr a
  = Some (take ptr a ++ map Some (bgr_bytes items)
          ++ drop (ptr + 3 * length items) a).
Proof.
  induction items as [|c items IH]; intros ptr a Hlen.
  - cbn. rewrite Nat.add_0_r, take_drop. done.
  - cbn [pack_uint8 length] in *.
    rewrite poke_Some by lia. cbn [mbind option_bind].
    rewrite poke_Some by (rewrite length_insert; lia).
    cbn [mbind option_bind].
    rewrite poke_Some by (rewrite !length_insert; lia).
    cbn [mbind option_bind].
    rewrite three_pokes by lia.
    rewrite IH by (rewrite !length_app, length_take, length_drop; cbn; lia).
    f_equal.
    assert (length (take ptr a) = ptr) as Hl by (rewrite length_take; lia).
    replace (take (ptr + 3) (take ptr a ++ [Some (FColor.B c); Some (FColor.G c); Some (FColor.R c)] ++ drop (ptr + 3) a))
      with (take ptr a ++ [Some (FColor.B c); Some (FColor.G c); Some (FColor.R c)]).
    2:{ rewrite app_assoc. rewrite take_app_length'; [done|].
        rewrite length_app, Hl. cbn. lia. }
    replace (drop (ptr + 3 + 3 * length items)
               (take ptr a ++ [Some (FColor.B c); Some (FColor.G c); Some (FColor.R c)] ++ drop (ptr + 3) a))
      with (drop (ptr + 3 * S (length items)) a).
    2:{ rewrite app_assoc. rewrite drop_app_ge by (rewrite length_app, Hl; cbn; lia).
        rewrite length_app, Hl. cbn [length]. rewrite drop_drop. f_equal. lia. }
    cbn [bgr_bytes flat_map map app]. by rewrite <- !app_assoc.
Qed.

(** Past the end of the array the loop has no defined result. *)
Lemma pack_uint8_overflow items : forall ptr a,
  (ptr <= length a < ptr + 3 * length items)%nat ->
  pack_uint8 items ptr a = None.
Proof.
  induction items as [|c items IH]; intros ptr a Hlen; [cbn in Hlen; lia|].
  cbn [pack_uint8 length] in *.
  destruct (decide (ptr < length a)%nat) as [H0|H0];
    [rewrite poke_Some by done|by rewrite poke_None by lia].
  cbn [mbind option_bind].
  destruct (decide (ptr + 1 < length a)%nat) as [H1|H1];
    [rewrite poke_Some by (by rewrite length_insert)
    |by rewrite poke_None by (rewrite length_insert; lia)].
  cbn [mbind option_bind].
  destruct (decide (ptr + 2 < length a)%nat) as [H2|H2];
    [rewrite poke_Some by (by rewrite !length_insert)
    |by rewrite poke_None by (rewrite !length_insert; lia)].
  cbn [mbind option_bind]. apply IH. rewrite !length_insert. lia.
Qed.

Lemma SetNumUninitialized_Some {T} n (a : TArray T) :
  0 <= n < 2 ^ 31 ->
  SetNumUninitialized n a = Some (resize (Z.to_nat n) None a).
Proof.
  intros Hn. unfold SetNumUninitialized.
  destruct (Z.leb_spec 0 n); [|lia].
  destruct (Z.ltb_spec n (2 ^ 31)); [done|lia].
Qed.

(** The body of the loop on an uncompressed 8-bit entry. *)
Lemma DoWork_entry_uint8 param (result : RenderResult) :
  pixels_as_float param = false -> compress param = false ->
  width result <> 0 -> height result <> 0 ->
  3 * Num (bmp result) <= width result * height result * 3 < 2 ^ 31 ->
  DoWork_entry param result
  = Some (with_image_data_uint8 _ _
            (map Some (bgr_bytes (bmp result))
             ++ drop (3 * length (bmp result))
                  (resize (Z.to_nat (width result * height result * 3)) None
                     (image_data_uint8 result)))
            result).
Proof.
  intros Hf Hc Hw Hh Hsz. unfold DoWork_entry, Num in *.
  rewrite Hf, Hc. cbn [negb].
  destruct (Z.eqb_spec (width result) 0); [done|].
  destruct (Z.eqb_spec (height result) 0); [done|].
  cbn [negb andb].
  rewrite SetNumUninitialized_Some by lia. cbn [mbind option_bind].
  rewrite pack_uint8_spec by (rewrite length_resize; lia).
  cbn [mbind option_bind]. reflexivity.
Qed.

(** The body of the loop on an 8-bit entry with a zero dimension. *)
Lemma DoWork_entry_skip param (result : RenderResult) :
  pixels_as_float param = false ->
  width result = 0 \/ height result = 0 ->
  DoWork_entry param result = Some result.
Proof.
  intros Hf Hz. unfold DoWork_entry. rewrite Hf. cbn [negb].
  destruct (Z.eqb_spec (width result) 0); [done|].
  destruct (Z.eqb_spec (height result) 0); [done|]. lia.
Qed.

Lemma DoWork_loop_step task n i heap ptr param result result' :
  Results task !! i = Some ptr -> Params task !! i = Some param ->
  heap !! ptr = Some result -> DoWork_entry param result = Some result' ->
  DoWork_loop task (S n) i heap
  = DoWork_loop task n (S i) (<[ptr := result']> heap).
Proof.
  intros Hr Hp Hh He. cbn [Packing.DoWork_loop].
  rewrite Hr; cbn [mbind option_bind]. rewrite Hp; cbn [mbind option_bind].
  rewrite Hh; cbn [mbind option_bind]. rewrite He. reflexivity.
Qed.

End PackingFacts.

(** * The claims *)

(** ** Writing a frame *)

Lemma required_size_small W H :
  0 < W -> 0 < H -> W * H * 3 < 2 ^ 32 -> required_size W H = W * H * 3.
Proof.
  intros HW HH Hsz. unfold required_size.
  rewrite (u32_small (W * H)) by (unfold is_u32; nia).
  apply u32_small. unfold is_u32. nia.
Qed.

(** The bytes beyond the first [required_size] never reach the call. *)
Lemma WriteImage_prefix now W H T I px st :
  required_size W H <= Num px ->
  WriteImage now W H T I px st
  = WriteImage now W H T I (take (Z.to_nat (required_size W H)) px) st.
Proof.
  intros Hge. pose proof (required_size_range W H) as Hr.
  unfold is_u32, Num in *.
  unfold WriteImage, bind, get.
  destruct (bIsInitialized (this st)); [|done].
  destruct (Header (this st)); [|done].
  destruct ((W =? 0) || (H =? 0)); [done|].
  unfold Num. rewrite length_take.
  destruct (Z.ltb_spec (Z.of_nat (length px)) (required_size W H)); [lia|].
  destruct (Z.ltb_spec
              (Z.of_nat (Z.to_nat (required_size W H) `min` length px))
              (required_size W H)); [lia|].
  by rewrite take_take, Nat.min_id.
Qed.

(** C1. For every initialized transport and every frame with positive
    dimensions whose buffer holds exactly width*height*3 bytes, a
    [WriteImage] that returns [true] leaves in the slot it claimed the
    given width, height, time stamp and image type, the data size
    width*height*3 and the very bytes of the buffer; the header's
    [LastUpdateTime] is the time stamp; the read-ready semaphore was posted
    once and one write permit was taken (the trace of the call is one
    timed wait on the write semaphore, the exchange on the write index and
    one post of the read semaphore). *)
Theorem WriteImage_round_trip now W H T I px st st' :
  initialized st ->
  0 < W -> 0 < H -> is_u64 T -> is_u32 I ->
  Num px = W * H * 3 -> Num px < 2 ^ 31 ->
  WriteImage now W H T I px st = Some (true, st') ->
  exists idx,
    WriteIndex st = Some idx /\
    read_slot st' (slot_at st idx)
    = Some {| Width := W; Height := H; Timestamp := T; ImageType := I;
              DataSize := W * H * 3; PixelData := px |} /\
    LastUpdateTime st' = Some T /\
    read_ready (os st') = read_ready (os st) + 1 /\
    write_permits (os st') = write_permits (os st) - 1 /\
    trace (os st') =
      trace (os st) ++
      [ev_sem_timedwait WriteSem (timeout_5ms now);
       claim_event 0 (MaxSlots (this st)) idx;
       ev_sem_post ReadSem].
Proof.
  intros Hinit HW HH HT HI Hlen Hmax Hw.
  destruct (WriteImage_accepted_effects _ _ _ _ _ _ _ _ Hinit Hw)
    as (idx & Hidx & _ & Hslot & Hlast & _ & _ & _ & Hwp & Hrr & Htr & _).
  exists idx.
  rewrite required_size_small in Hslot by lia.
  rewrite (u32_small W) in Hslot by (unfold is_u32; nia).
  rewrite (u32_small H) in Hslot by (unfold is_u32; nia).
  rewrite (u32_small I) in Hslot by done.
  unfold u64 in Hslot, Hlast.
  rewrite (Z.mod_small T) in Hslot, Hlast by exact HT.
  rewrite take_ge in Hslot by (unfold Num in Hlen; lia).
  done.
Qed.

(** C10. With a buffer longer than width*height*3 bytes, an accepted
    write copies the first width*height*3 bytes only and records
    width*height*3 as the data size; the call cannot tell the buffer from
    its prefix. *)
Theorem WriteImage_ignores_excess now W H T I px st st' :
  initialized st ->
  0 < W -> 0 < H -> is_u64 T -> is_u32 I ->
  W * H * 3 < Num px -> Num px < 2 ^ 31 ->
  WriteImage now W H T I px st = Some (true, st') ->
  (exists idx,
     WriteIndex st = Some idx /\
     read_slot st' (slot_at st idx)
     = Some {| Width := W; Height := H; Timestamp := T; ImageType := I;
               DataSize := W * H * 3;
               PixelData := take (Z.to_nat (W * H * 3)) px |}) /\
  WriteImage now W H T I (take (Z.to_nat (W * H * 3)) px) st
  = Some (true, st').
Proof.
  intros Hinit HW HH HT HI Hlen Hmax Hw.
  assert (required_size W H = W * H * 3) as HRS
    by (apply required_size_small; lia).
  split.
  - destruct (WriteImage_accepted_effects _ _ _ _ _ _ _ _ Hinit Hw)
      as (idx & Hidx & _ & Hslot & _).
    exists idx. rewrite HRS in Hslot.
    rewrite (u32_small W) in Hslot by (unfold is_u32; nia).
    rewrite (u32_small H) in Hslot by (unfold is_u32; nia).
    rewrite (u32_small I) in Hslot by done.
    unfold u64 in Hslot. rewrite (Z.mod_small T) in Hslot by exact HT.
    done.
  - rewrite <- HRS, <- WriteImage_prefix by lia. done.
Qed.

Import Example.

Lemma two_slots_initialized : initialized two_slots.
Proof.
  constructor; try (vm_compute; reflexivity).
  - vm_compute. split; [discriminate|reflexivity].
  - exists 0. vm_compute. split; [reflexivity|]. split; [discriminate|done].
  - eexists. split; [vm_compute; reflexivity|vm_compute; reflexivity].
Qed.

Lemma WriteImage_round_trip_witness :
  let st' := state_of (WriteImage now 2 2 1000 0 frame12 two_slots) in
  (initialized two_slots /\
   WriteImage now 2 2 1000 0 frame12 two_slots = Some (true, st')) /\
  exists idx,
    WriteIndex two_slots = Some idx /\
    read_slot st' (slot_at two_slots idx)
    = Some {| Width := 2; Height := 2; Timestamp := 1000; ImageType := 0;
              DataSize := 2 * 2 * 3; PixelData := frame12 |} /\
    LastUpdateTime st' = Some 1000 /\
    read_ready (os st') = read_ready (os two_slots) + 1 /\
    write_permits (os st') = write_permits (os two_slots) - 1 /\
    trace (os st') =
      trace (os two_slots) ++
      [ev_sem_timedwait WriteSem (timeout_5ms now);
       claim_event 0 (MaxSlots (this two_slots)) idx;
       ev_sem_post ReadSem].
Proof.
  intros st'.
  assert (WriteImage now 2 2 1000 0 frame12 two_slots = Some (true, st'))
    as Hw by (vm_compute; reflexivity).
  split; [split; [exact two_slots_initialized|exact Hw]|].
  refine (WriteImage_round_trip now 2 2 1000 0 frame12 two_slots st'
           two_slots_initialized _ _ _ _ _ _ Hw).
  all: try lia.
  - unfold is_u64; lia.
  - unfold is_u32; lia.
  - vm_compute; reflexivity.
  - vm_compute; reflexivity.
Defined.

Lemma WriteImage_ignores_excess_witness :
  let px := frame12 ++ [99; 98] in
  let st' := state_of (WriteImage now 2 2 1000 0 px two_slots) in
  (initialized two_slots /\ 2 * 2 * 3 < Num px /\
   WriteImage now 2 2 1000 0 px two_slots = Some (true, st')) /\
  (exists idx,
     WriteIndex two_slots = Some idx /\
     read_slot st' (slot_at two_slots idx)
     = Some {| Width := 2; Height := 2; Timestamp := 1000; ImageType := 0;
               DataSize := 2 * 2 * 3;
               PixelData := take (Z.to_nat (2 * 2 * 3)) px |}) /\
  WriteImage now 2 2 1000 0 (take (Z.to_nat (2 * 2 * 3)) px) two_slots
  = Some (true, st').
Proof.
  intros px st'.
  assert (WriteImage now 2 2 1000 0 px two_slots = Some (true, st')) as Hw
    by (vm_compute; reflexivity).
  split.
  { split; [exact two_slots_initialized|].
    split; [vm_compute; reflexivity|exact Hw]. }
  refine (WriteImage_ignores_excess now 2 2 1000 0 px two_slots st'
            two_slots_initialized _ _ _ _ _ _ Hw).
  all: try lia.
  - unfold is_u64; lia.
  - unfold is_u32; lia.
  - vm_compute; reflexivity.
  - vm_compute; reflexivity.
Defined.

(** ** The write index *)

(** C2, as the code has it: with at least one slot.  [Initialize] sets the
    write index to 0; after any run of writes and consumer steps the
    index is below the slot count, the slots handed out since are
    0, 1, ..., n-1, 0, 1, ... in this order, one per accepted write, and
    the index is the number of accepted writes modulo the slot count.
    Such runs exist: when the slots fit in 32 bits, every run of consumer
    steps and of frames within the capacity of a slot returns. *)
Theorem write_index_rotation r n mw mh st st0 :
  bIsInitialized (this st) = false ->
  0 < n < 2 ^ 32 ->
  Initialize r n mw mh st = Some (true, st0) ->
  WriteIndex st0 = Some 0 /\
  (forall acts oks st1,
     run acts st0 = Some (oks, st1) ->
     MaxSlots (this st1) = n /\
     claimed (trace (os st1))
     = claimed (trace (os st))
       ++ round_robin n (Z.to_nat (count_accepted oks)) /\
     WriteIndex st1 = Some (count_accepted oks mod n) /\
     0 <= count_accepted oks mod n < n) /\
  (n * slot_size_for mw mh < 2 ^ 32 ->
   forall acts,
     Forall (fits (slot_size_for mw mh)) acts ->
     exists oks st1, run acts st0 = Some (oks, st1)).
Proof.
  intros Hni Hn Hi.
  pose proof (Initialize_inv _ _ _ _ _ _ _ Hni Hi eq_refl) as Hai.
  assert (is_u32 n) as Hnu by (unfold is_u32; lia).
  pose proof (after_Initialize_initialized _ _ _ _ _ _ Hnu Hai) as Hinit.
  destruct Hai as [_ Hthis _ _ _ Htr (m & Hm & _ & _ & _ & _ & Hidx & _)].
  assert (MaxSlots (this st0) = n) as Hslots by (by rewrite Hthis).
  assert (WriteIndex st0 = Some 0) as H0.
  { unfold WriteIndex, peek_uint. rewrite Hm. exact Hidx. }
  split; [exact H0|]. split.
  2:{ intros Hnw acts Hfits.
      pose proof (slot_size_for_range mw mh) as Hs. unfold is_u32 in Hs.
      apply run_defined; rewrite ?Hthis;
        cbn [MaxSlots SingleSlotSize TotalSize]; try done; [lia|].
      apply total_size_for_no_wrap. nia. }
  intros acts oks st1 Hr.
  destruct (run_rotation acts st0 0 oks st1 Hinit) as (_ & Ht1 & Hcl & Hix);
    [lia|by rewrite Hslots, Z.mod_0_l by lia|exact Hr|].
  rewrite Hslots in *. split_and!.
  - by rewrite Ht1.
  - rewrite Hcl, Htr, claimed_app. cbn [claimed omap mbind option_bind].
    by rewrite app_nil_r.
  - exact Hix.
  - pose proof (Z.mod_pos_bound (count_accepted oks) n). lia.
  - pose proof (Z.mod_pos_bound (count_accepted oks) n). lia.
Qed.

(** The claim as worded fails without a slot: [Initialize(0, ...)]
    succeeds and leaves the index 0, which is not below the slot count 0
    (and the next claim would divide by zero). *)
Lemma write_index_not_below_zero_slots :
  let st0 := state_of (Initialize granted 0 1 1 (fresh 4242)) in
  Initialize granted 0 1 1 (fresh 4242) = Some (true, st0) /\
  WriteIndex st0 = Some 0 /\
  peek_uint 4 (0 + hdr_NumSlots) st0 = Some 0 /\
  MaxSlots (this st0) = 0 /\
  ~ (0 <= 0 < MaxSlots (this st0)) /\
  run [act_consumer_release; act_WriteImage write2x2] st0 = None.
Proof.
  intros st0. split_and!; try (vm_compute; reflexivity).
  vm_compute. intros [_ H]. discriminate H.
Qed.

Lemma write_index_rotation_witness :
  let st0 := two_slots in
  let acts := [act_WriteImage write2x2; act_WriteImage write2x2;
               act_WriteImage write2x2; act_consumer_take;
               act_consumer_release; act_WriteImage write2x2] in
  let st1 := state_of
               (match run acts st0 with
                | Some (_, st) => Some (true, st)
                | None => None
                end) in
  (bIsInitialized (this (fresh 4242)) = false /\ 0 < 2 < 2 ^ 32 /\
   Initialize granted 2 1 1 (fresh 4242) = Some (true, st0) /\
   run acts st0 = Some ([true; true; false; true], st1)) /\
  claimed (trace (os st1)) = [0; 1; 0] /\
  WriteIndex st1 = Some 1.
Proof.
  intros st0 acts st1.
  assert (Initialize granted 2 1 1 (fresh 4242) = Some (true, st0)) as Hi
    by (vm_compute; reflexivity).
  assert (run acts st0 = Some ([true; true; false; true], st1)) as Hr
    by (vm_compute; reflexivity).
  split; [split; [reflexivity|split; [lia|split; [exact Hi|exact Hr]]]|].
  destruct (write_index_rotation granted 2 1 1 (fresh 4242) st0
              eq_refl ltac:(lia) Hi) as (_ & Hall & _).
  destruct (Hall acts _ st1 Hr) as (_ & Hcl & Hix & _).
  split; [exact Hcl|exact Hix].
Defined.


(** ** Frames that do not fit, and sizes that wrap *)

(** An initialized transport turns a call down for three reasons only:
    a zero dimension, a buffer shorter than the 32-bit product, or no
    permit.  The capacity of the slot is not among them. *)
Lemma WriteImage_refusal_reasons now W H T I px st st' :
  initialized st ->
  WriteImage now W H T I px st = Some (false, st') ->
  W = 0 \/ H = 0 \/ Num px < required_size W H \/ write_permits (os st) <= 0.
Proof.
  intros Hinit Hw. apply WriteImage_outcome in Hw.
  inversion Hw as [Hrej| h Hflag Hh HW HH Hge Hp
                   | h m cur m1 Hflag Hh HW HH Hge Hp Hm Hcur Hn Hs Hlt |];
    subst.
  - destruct Hinit as [Hflag Hh0 _ _ _ _ _ _].
    destruct Hrej as [Hx|[Hx|[Hx|[Hx|Hx]]]]; try congruence; auto.
  - auto.
  - exfalso.
    destruct Hinit as [_ Hh0 _ _ _ Hslots (idx & Hidx & Hidx0 & Hidxn) _].
    rewrite Hh0 in Hh. injection Hh as <-.
    unfold WriteIndex, peek_uint in Hidx. rewrite Hm in Hidx.
    cbn [mbind option_bind] in Hidx. rewrite Hcur in Hidx.
    injection Hidx as ->. unfold is_u32 in Hslots. lia.
Qed.

(** C3, on the code: a 37 x 37 frame (4107 bytes) written to a transport
    whose slots hold 4072 bytes of pixels is accepted; the copy runs on
    into slot 1, whose sub-header it overwrites. *)
Theorem WriteImage_oversize_accepted :
  let st0 := two_slots in
  let st1 := state_of (WriteImage now 37 37 1000 0 frame4107 st0) in
  Initialize granted 2 1 1 (fresh 4242) = Some (true, st0) /\
  SingleSlotSize (this st0) - HeaderSize = 4072 /\
  37 * 37 * 3 = 4107 /\
  WriteImage now 37 37 1000 0 frame4107 st0 = Some (true, st1) /\
  peek_uint 4 (slot_at st0 0 + slot_DataSize) st1 = Some 4107 /\
  peek_uint 4 (slot_at st0 1 + slot_Width) st0 = Some 0 /\
  peek_uint 4 (slot_at st0 1 + slot_Width) st1 = Some 4294967295.
Proof.
  intros st0 st1. split_and!; vm_compute; reflexivity.
Qed.

(** C4, on the code: 65536 x 65536 x 3 wraps to 0 in 32 bits, so the empty
    buffer passes the size test; the call takes a permit, moves the write
    index and publishes a slot. *)
Theorem WriteImage_wrapped_size_accepted :
  let st0 := two_slots in
  let st1 := state_of (WriteImage now 65536 65536 1000 0 [] st0) in
  Num ([] : list byte) < 65536 * 65536 * 3 /\
  required_size 65536 65536 = 0 /\
  WriteImage now 65536 65536 1000 0 [] st0 = Some (true, st1) /\
  WriteIndex st0 = Some 0 /\ WriteIndex st1 = Some 1 /\
  write_permits (os st0) = 2 /\ write_permits (os st1) = 1 /\
  read_ready (os st1) = 1.
Proof.
  intros st0 st1. split_and!; vm_compute; reflexivity.
Qed.

(** The three rejections the specification lists. *)
Lemma WriteImage_rejects_examples st T I px :
  WriteImage now 0 10 T I px st = Some (false, st) /\
  WriteImage now 10 0 T I px st = Some (false, st) /\
  (Num px < 300 -> WriteImage now 10 10 T I px st = Some (false, st)).
Proof.
  split_and!.
  - apply WriteImage_rejects. auto.
  - apply WriteImage_rejects. auto.
  - intros Hlt. apply WriteImage_rejects. right. right. exact Hlt.
Qed.

(** ** Backpressure *)

(** C5. A fresh [Initialize] creates the write semaphore with as many
    permits as slots.  As long as the consumer posts no write permit,
    whether or not it takes the frames that are ready, each accepted write
    takes one permit, so at most that many writes are accepted; once that
    many are, a call returns [false], either before waiting (arguments
    turned down) or after one timed wait whose deadline is 5 ms after the
    time of the call, and no write of any further such run is accepted.
    With at least one slot and the slots within 32 bits, every run of
    frames within the capacity of a slot returns. *)
Theorem backpressure_bound r n mw mh st st0 :
  bIsInitialized (this st) = false ->
  Initialize r n mw mh st = Some (true, st0) ->
  write_permits (os st0) = n /\
  (forall acts oks st1,
     forallb posts_no_permit acts = true ->
     run acts st0 = Some (oks, st1) ->
     write_permits (os st1) = n - count_accepted oks /\
     (0 <= n -> count_accepted oks <= n) /\
     (count_accepted oks = n ->
      (forall now W H T I px,
         WriteImage now W H T I px st1 = Some (false, st1) \/
         WriteImage now W H T I px st1
         = Some (false,
                 add_event (ev_sem_timedwait WriteSem (timeout_5ms now)) st1))
      /\
      (forall more oks2 st2,
         forallb posts_no_permit more = true ->
         run more st1 = Some (oks2, st2) ->
         count_accepted oks2 = 0)))
  /\
  (forall now,
     0 <= tv_nsec now < 1000000000 ->
     ns (timeout_5ms now) = ns now + 5000000 /\
     0 <= tv_nsec (timeout_5ms now) < 1000000000) /\
  (0 < n < 2 ^ 32 -> n * slot_size_for mw mh < 2 ^ 32 ->
   forall acts,
     Forall (fits (slot_size_for mw mh)) acts ->
     exists oks st1, run acts st0 = Some (oks, st1)).
Proof.
  intros Hni Hi.
  pose proof (Initialize_inv _ _ _ _ _ _ _ Hni Hi eq_refl) as Hai.
  assert (0 < n < 2 ^ 32 -> n * slot_size_for mw mh < 2 ^ 32 ->
          forall acts, Forall (fits (slot_size_for mw mh)) acts ->
                       exists oks st1, run acts st0 = Some (oks, st1))
    as Hdef.
  { intros Hn Hnw acts Hfits.
    assert (is_u32 n) as Hnu by (unfold is_u32; lia).
    pose proof (after_Initialize_initialized _ _ _ _ _ _ Hnu Hai) as Hinit.
    pose proof (slot_size_for_range mw mh) as Hs. unfold is_u32 in Hs.
    destruct Hai as [_ Hthis _ _ _ _ _].
    apply run_defined; rewrite ?Hthis;
      cbn [MaxSlots SingleSlotSize TotalSize]; try done; [lia|].
    apply total_size_for_no_wrap. nia. }
  destruct Hai as [_ _ _ Hwp _ _ _].
  split; [exact Hwp|]. split; [|split; [apply timeout_5ms_spec|exact Hdef]].
  intros acts oks st1 Hall Hr.
  destruct (run_no_release_permits acts _ _ _ Hall Hr) as [Hp Hnn].
  rewrite Hwp in Hp, Hnn. split_and!.
  - exact Hp.
  - intros H0. specialize (Hnn H0). lia.
  - intros Hk. split.
    + intros now W H T I px. apply WriteImage_no_permit. lia.
    + intros more oks2 st2 Hmore Hr2.
      destruct (run_no_release_permits more _ _ _ Hmore Hr2) as [Hp2 Hnn2].
      pose proof (count_accepted_nonneg oks2). lia.
Qed.

Lemma backpressure_bound_witness :
  let st0 := two_slots in
  let acts := [act_WriteImage write2x2; act_consumer_take;
               act_WriteImage write2x2; act_WriteImage write2x2] in
  let st1 := state_of
               (match run acts st0 with
                | Some (_, st) => Some (true, st)
                | None => None
                end) in
  (bIsInitialized (this (fresh 4242)) = false /\
   Initialize granted 2 1 1 (fresh 4242) = Some (true, st0) /\
   forallb posts_no_permit acts = true /\
   run acts st0 = Some ([true; true; false], st1)) /\
  write_permits (os st0) = 2 /\
  write_permits (os st1) = 2 - count_accepted [true; true; false] /\
  count_accepted [true; true; false] <= 2 /\
  (WriteImage now 2 2 1000 0 frame12 st1 = Some (false, st1) \/
   WriteImage now 2 2 1000 0 frame12 st1
   = Some (false, add_event (ev_sem_timedwait WriteSem (timeout_5ms now)) st1))
  /\ ns (timeout_5ms now) = ns now + 5000000.
Proof.
  intros st0 acts st1.
  assert (Initialize granted 2 1 1 (fresh 4242) = Some (true, st0)) as Hi
    by (vm_compute; reflexivity).
  assert (run acts st0 = Some ([true; true; false], st1)) as Hr
    by (vm_compute; reflexivity).
  split; [split; [reflexivity|split; [exact Hi|split; [reflexivity|exact Hr]]]|].
  destruct (backpressure_bound granted 2 1 1 (fresh 4242) st0 eq_refl Hi)
    as (Hwp & Hall & Hdl & _).
  destruct (Hall acts _ st1 eq_refl Hr) as (Hp & Hle & Hfull).
  split; [exact Hwp|]. split; [exact Hp|]. split; [apply Hle; lia|].
  split; [apply (proj1 (Hfull ltac:(vm_compute; reflexivity)))|].
  apply Hdl. vm_compute. split; [discriminate|reflexivity].
Defined.

(** ** Lifecycle *)

(** C6. [Initialize] on an initialized transport returns [true] and
    leaves the state, trace included, as it was: no second segment is
    created.  A second [Shutdown], or a [Shutdown] of a transport that was
    never initialized, makes no call and changes nothing.  [WriteImage]
    after [Shutdown] or before [Initialize] returns [false]. *)
Theorem lifecycle_idempotent st r n mw mh :
  bIsInitialized (this st) = true ->
  Initialize r n mw mh st = Some (true, st) /\
  (forall st2, exists st1,
     Shutdown st2 = Some (tt, st1) /\
     Shutdown st1 = Some (tt, st1) /\
     forall now W H T I px, WriteImage now W H T I px st1 = Some (false, st1))
  /\
  (forall p,
     Shutdown (fresh p) = Some (tt, fresh p) /\
     forall now W H T I px,
       WriteImage now W H T I px (fresh p) = Some (false, fresh p)).
Proof.
  intros Hi. split; [by apply Initialize_again|]. split.
  - intros st2. destruct (Shutdown_total st2) as [st1 Hs].
    exists st1. split; [exact Hs|]. split; [by apply Shutdown_twice in Hs|].
    intros now W H T I px. apply WriteImage_not_initialized.
    by apply Shutdown_flag in Hs.
  - intros p. split; [apply Shutdown_fresh|].
    intros now W H T I px. by apply WriteImage_not_initialized.
Qed.

Lemma lifecycle_idempotent_witness :
  bIsInitialized (this two_slots) = true /\
  Initialize granted 3 64 64 two_slots = Some (true, two_slots) /\
  exists st1,
    Shutdown two_slots = Some (tt, st1) /\
    Shutdown st1 = Some (tt, st1) /\
    WriteImage now 2 2 1000 0 frame12 st1 = Some (false, st1).
Proof.
  assert (bIsInitialized (this two_slots) = true) as Hi
    by (vm_compute; reflexivity).
  destruct (lifecycle_idempotent two_slots granted 3 64 64 Hi)
    as (Hagain & Hdown & _).
  split; [exact Hi|]. split; [exact Hagain|].
  destruct (Hdown two_slots) as (st1 & H1 & H2 & H3).
  exists st1. split; [exact H1|]. split; [exact H2|apply H3].
Defined.

(** ** Sizes of the segment *)

(** C7, as the code has it: while the sizes fit in 32 bits.  After a
    successful [Initialize] the slot size is the sub-header size (24) plus
    maxWidth*maxHeight*3, rounded up to a multiple of 4096; the segment,
    as sized by [ftruncate] and as mapped, is 4096 bytes plus slotCount
    slots; the header records the slot size.  For [Initialize(3, 64, 64)]
    that is 53248 bytes, which is also 4096 + 3 * ceil_to_4096(20 +
    64*64*3). *)
Theorem Initialize_sizes r n mw mh st st0 :
  bIsInitialized (this st) = false ->
  0 <= n -> 0 <= mw -> 0 <= mh ->
  HeaderSize + mw * mh * 3 <= 2 ^ 32 - 4096 ->
  n * ceil_to_4096 (HeaderSize + mw * mh * 3) < 2 ^ 32 ->
  Initialize r n mw mh st = Some (true, st0) ->
  SingleSlotSize (this st0) = ceil_to_4096 (HeaderSize + mw * mh * 3) /\
  SingleSlotSize (this st0) mod 4096 = 0 /\
  TotalSize (this st0) = 4096 + n * SingleSlotSize (this st0) /\
  (exists m, mapping (os st0) = Some m /\
             Z.of_nat (length m) = TotalSize (this st0)) /\
  In (ev_ftruncate (shm_open_fd r) (TotalSize (this st0))) (trace (os st0)) /\
  peek_uint 4 (0 + hdr_SlotSize) st0 = Some (SingleSlotSize (this st0)) /\
  (n = 3 -> mw = 64 -> mh = 64 ->
   TotalSize (this st0) = 53248 /\
   53248 = 4096 + 3 * ceil_to_4096 (20 + 64 * 64 * 3)).
Proof.
  intros Hni Hn Hmw Hmh Hfit Htot Hi.
  pose proof (Initialize_inv _ _ _ _ _ _ _ Hni Hi eq_refl) as Hai.
  destruct Hai as [_ Hthis _ _ _ Htr (m & Hm & Hlen & _ & _ & Hss & _ & _)].
  assert (slot_size_for mw mh = ceil_to_4096 (HeaderSize + mw * mh * 3)) as Hs
    by (apply slot_size_for_no_wrap; [nia|lia]).
  pose proof (ceil_to_4096_bounds (HeaderSize + mw * mh * 3)) as [Hb Hmod].
  assert (total_size_for n (slot_size_for mw mh)
          = 4096 + n * slot_size_for mw mh) as Ht.
  { apply total_size_for_no_wrap. rewrite Hs. unfold HeaderSize in *. nia. }
  rewrite Hthis. cbn [SingleSlotSize TotalSize]. split_and!.
  - exact Hs.
  - by rewrite Hs.
  - exact Ht.
  - exists m. split; [exact Hm|exact Hlen].
  - rewrite Htr. apply in_or_app. right. right. left. reflexivity.
  - unfold peek_uint. rewrite Hm. cbn [mbind option_bind]. rewrite Hss.
    f_equal. apply u32_small. apply slot_size_for_range.
  - intros -> -> ->. rewrite Ht, Hs. split; vm_compute; reflexivity.
Qed.

(** The claim as worded fails where the 32-bit product wraps:
    [Initialize(3, 65536, 65536)] succeeds with slots of one page. *)
Lemma Initialize_sizes_wrap :
  let st0 := state_of (Initialize granted 3 65536 65536 (fresh 4242)) in
  Initialize granted 3 65536 65536 (fresh 4242) = Some (true, st0) /\
  SingleSlotSize (this st0) = 4096 /\
  TotalSize (this st0) = 16384 /\
  ceil_to_4096 (HeaderSize + 65536 * 65536 * 3) = 12884905984 /\
  SingleSlotSize (this st0)
  <> ceil_to_4096 (HeaderSize + 65536 * 65536 * 3).
Proof.
  intros st0. split_and!; try (vm_compute; reflexivity).
  vm_compute. discriminate.
Qed.

Lemma Initialize_sizes_witness :
  (bIsInitialized (this (fresh 4242)) = false /\
   HeaderSize + 64 * 64 * 3 <= 2 ^ 32 - 4096 /\
   3 * ceil_to_4096 (HeaderSize + 64 * 64 * 3) < 2 ^ 32) /\
  exists st0,
    Initialize granted 3 64 64 (fresh 4242) = Some (true, st0) /\
    SingleSlotSize (this st0) = ceil_to_4096 (HeaderSize + 64 * 64 * 3) /\
    TotalSize (this st0) = 4096 + 3 * SingleSlotSize (this st0) /\
    TotalSize (this st0) = 53248.
Proof.
  assert (HeaderSize + 64 * 64 * 3 <= 2 ^ 32 - 4096) as Hfit
    by (vm_compute; discriminate).
  assert (3 * ceil_to_4096 (HeaderSize + 64 * 64 * 3) < 2 ^ 32) as Htot
    by (vm_compute; reflexivity).
  split; [split; [reflexivity|split; [exact Hfit|exact Htot]]|].
  destruct (Initialize_succeeds granted 3 64 64 (fresh 4242) eq_refl
              ltac:(vm_compute; discriminate) ltac:(vm_compute; discriminate)
              eq_refl eq_refl eq_refl) as [st0 Hi].
  exists st0.
  destruct (Initialize_sizes granted 3 64 64 (fresh 4242) st0 eq_refl
              ltac:(lia) ltac:(lia) ltac:(lia) Hfit Htot Hi)
    as (Hs & _ & Ht & _ & _ & _ & Hex).
  split; [exact Hi|]. split; [exact Hs|]. split; [exact Ht|].
  exact (proj1 (Hex eq_refl eq_refl eq_refl)).
Defined.

(** ** The packing task *)

Section PackingClaims.
Import Packing.

Context {FFloat16 float : Type}.
Variable GetFloat : FFloat16 -> float.
Variable CompressImageArray :
  Z -> Z -> list FColor.t -> TArray byte -> TArray byte.

Local Abbreviation DoWork_entry :=
  (DoWork_entry FFloat16 float GetFloat CompressImageArray).
Local Abbreviation DoWork_loop :=
  (DoWork_loop FFloat16 float GetFloat CompressImageArray).
Local Abbreviation RenderResult := (RenderResult FFloat16 float).

(** C8, as the code has it: blue first.  For an entry that is neither
    floating point nor compressed, with nonzero dimensions and a source
    bitmap that fits the width*height*3 bytes of the output, the
    iteration of [DoWork] sizes the output to width*height*3 bytes and
    writes 3 bytes per source pixel at its start, in the order B, G, R;
    when the bitmap has width*height pixels these bytes are the whole
    output. *)
Theorem DoWork_packs_bgr task n i heap ptr param (result : RenderResult) :
  Results task !! i = Some ptr -> Params task !! i = Some param ->
  heap !! ptr = Some result ->
  pixels_as_float param = false -> compress param = false ->
  width result <> 0 -> height result <> 0 ->
  3 * Num (bmp result) <= width result * height result * 3 < 2 ^ 31 ->
  let packed :=
    map Some (bgr_bytes (bmp result))
    ++ drop (3 * length (bmp result))
         (resize (Z.to_nat (width result * height result * 3)) None
            (image_data_uint8 result)) in
  DoWork_loop task (S n) i heap
  = DoWork_loop task n (S i)
      (<[ptr := with_image_data_uint8 _ _ packed result]> heap) /\
  Num packed = width result * height result * 3 /\
  take (3 * length (bmp result)) packed = map Some (bgr_bytes (bmp result)) /\
  (Num (bmp result) = width result * height result ->
   packed = map Some (bgr_bytes (bmp result))).
Proof.
  intros Hr Hp Hh Hf Hc Hw Hht Hsz packed. unfold Num in *.
  assert (length (map Some (bgr_bytes (bmp result)))
          = (3 * length (bmp result))%nat) as Hl
    by (by rewrite length_map, bgr_bytes_length).
  split_and!.
  - apply DoWork_loop_step with (param := param) (result := result);
      try done.
    by apply DoWork_entry_uint8.
  - unfold packed. rewrite length_app, Hl, length_drop, length_resize. lia.
  - unfold packed. by rewrite take_app_length'.
  - intros Hall. unfold packed.
    rewrite drop_ge by (rewrite length_resize; lia).
    by rewrite app_nil_r.
Qed.

(** The test of the dimensions in the 8-bit branch: an entry that is not
    floating point, with a zero width or height, is left as it is - no
    array is resized, nothing is written - and the loop goes on with the
    next entry on the unchanged heap. *)
Theorem DoWork_skips_zero_uint8 task n i heap ptr param
  (result : RenderResult) :
  Results task !! i = Some ptr -> Params task !! i = Some param ->
  heap !! ptr = Some result ->
  pixels_as_float param = false ->
  width result = 0 \/ height result = 0 ->
  DoWork_entry param result = Some result /\
  DoWork_loop task (S n) i heap = DoWork_loop task n (S i) heap.
Proof.
  intros Hr Hp Hh Hf Hz.
  assert (DoWork_entry param result = Some result) as He
    by (by apply DoWork_entry_skip).
  split; [exact He|].
  rewrite (DoWork_loop_step _ _ _ _ _ _ _ _ _ _ Hr Hp Hh He).
  by rewrite list_insert_id.
Qed.

(** The floating-point branch has no such test.  A depth entry with a
    zero width or height comes out as it went in only when it had nothing
    in its float array and carries no sample; otherwise the array is cut
    to no elements, and a sample is written past its end. *)
Lemma DoWork_entry_float_zero param (result : RenderResult) :
  pixels_as_float param = true ->
  width result = 0 \/ height result = 0 ->
  (DoWork_entry param result = Some result <->
   image_data_float result = [] /\ bmp_float result = []) /\
  (bmp_float result = [] ->
   DoWork_entry param result
   = Some (with_image_data_float FFloat16 float [] result)) /\
  (bmp_float result <> [] -> DoWork_entry param result = None).
Proof.
  intros Hf Hz. unfold Packing.DoWork_entry. rewrite Hf. cbn [negb].
  assert (width result * height result = 0) as -> by nia.
  unfold SetNumUninitialized. change (Z.to_nat 0) with 0%nat.
  rewrite resize_0. change ((0 <=? 0) && (0 <? 2 ^ 31)) with true.
  cbn [mbind option_bind].
  destruct result as [u8 fl b bf w h]. cbn [bmp_float image_data_float].
  destruct bf as [|item bf]; cbn [pack_float mbind option_bind].
  - unfold with_image_data_float. cbn. split_and!; [|done|done]. split.
    + intros [= <-]. done.
    + intros [-> _]. done.
  - unfold poke. cbn. split_and!; [|done|done]. split; [done|].
    intros [_ [=]].
Qed.

End PackingClaims.

(** The bytes are not in the order R, G, B: the pixel (R, G, B) = (1, 2, 3)
    is packed as 3, 2, 1.  And a bitmap with more pixels than
    width*height runs past the output. *)
Lemma DoWork_not_rgb :
  Packing.DoWork Z Z id no_compression (one_entry uint8_params) [result_1x1]
  = Some [Packing.with_image_data_uint8 Z Z [Some 3; Some 2; Some 1]
            result_1x1] /\
  [Some 3; Some 2; Some 1] <> map Some (rgb_bytes (Packing.bmp result_1x1)) /\
  Packing.DoWork Z Z id no_compression (one_entry uint8_params)
    [result_1x1_two_pixels] = None.
Proof.
  split_and!; try (vm_compute; reflexivity).
  vm_compute. discriminate.
Qed.

Lemma DoWork_packs_bgr_witness :
  (Packing.Results (one_entry uint8_params) !! 0%nat = Some 0%nat /\
   Packing.Params (one_entry uint8_params) !! 0%nat = Some uint8_params /\
   [result_1x1] !! 0%nat = Some result_1x1 /\
   3 * Num (Packing.bmp result_1x1)
   <= Packing.width result_1x1 * Packing.height result_1x1 * 3 < 2 ^ 31) /\
  Packing.DoWork_loop Z Z id no_compression (one_entry uint8_params) 1 0
    [result_1x1]
  = Packing.DoWork_loop Z Z id no_compression (one_entry uint8_params) 0 1
      [Packing.with_image_data_uint8 Z Z [Some 3; Some 2; Some 1] result_1x1].
Proof.
  assert (3 * Num (Packing.bmp result_1x1)
          <= Packing.width result_1x1 * Packing.height result_1x1 * 3 < 2 ^ 31)
    as Hsz by (vm_compute; split; [discriminate|reflexivity]).
  split; [split_and!; try reflexivity; exact Hsz|].
  exact (proj1 (DoWork_packs_bgr id no_compression (one_entry uint8_params)
                  0 0 [result_1x1] 0 uint8_params result_1x1
                  eq_refl eq_refl eq_refl eq_refl eq_refl
                  ltac:(discriminate) ltac:(discriminate) Hsz)).
Defined.

(** C9. The floating-point branch of [DoWork] has no test of the
    dimensions; the 8-bit branch next to it has one.  In a batch of a
    depth entry without dimensions followed by an 8-bit entry without
    width, the 8-bit entry is skipped and the depth entry is not: its
    float array, which held a value of an earlier frame, is cut to no
    elements.  The same two result objects under 8-bit parameter blocks
    are both left as they are.  When the depth entry carries a sample,
    the loop writes it past the end of the emptied array, and the entry
    after it has no defined result either. *)
Theorem DoWork_float_zero_not_skipped :
  Packing.width depth_0x0_stale = 0 /\ Packing.height depth_0x0_stale = 0 /\
  Packing.DoWork Z Z id no_compression (two_entries float_params uint8_params)
    [depth_0x0_stale; result_0x5]
  = Some [Packing.with_image_data_float Z Z [] depth_0x0_stale; result_0x5] /\
  Packing.image_data_float depth_0x0_stale = [Some 7] /\
  Packing.with_image_data_float Z Z [] depth_0x0_stale <> depth_0x0_stale /\
  Packing.DoWork Z Z id no_compression (two_entries uint8_params uint8_params)
    [depth_0x0_stale; result_0x5]
  = Some [depth_0x0_stale; result_0x5] /\
  Packing.width depth_0x0_sample = 0 /\
  Packing.DoWork_entry Z Z id no_compression float_params depth_0x0_sample
  = None /\
  Packing.DoWork Z Z id no_compression (two_entries float_params uint8_params)
    [depth_0x0_sample; result_1x1]
  = None /\
  Packing.DoWork Z Z id no_compression (two_entries uint8_params uint8_params)
    [depth_0x0_sample; result_1x1]
  = Some [depth_0x0_sample;
          Packing.with_image_data_uint8 Z Z [Some 3; Some 2; Some 1]
            result_1x1].
Proof.
  split_and!; try (vm_compute; reflexivity). vm_compute. discriminate.
Qed.

Lemma DoWork_skips_zero_uint8_witness :
  (Packing.Results (one_entry uint8_params) !! 0%nat = Some 0%nat /\
   Packing.Params (one_entry uint8_params) !! 0%nat = Some uint8_params /\
   [result_0x5] !! 0%nat = Some result_0x5 /\
   Packing.width result_0x5 = 0) /\
  Packing.DoWork_entry Z Z id no_compression uint8_params result_0x5
  = Some result_0x5 /\
  Packing.DoWork_loop Z Z id no_compression (one_entry uint8_params) 1 0
    [result_0x5]
  = Packing.DoWork_loop Z Z id no_compression (one_entry uint8_params) 0 1
      [result_0x5].
Proof.
  split; [split_and!; reflexivity|].
  exact (DoWork_skips_zero_uint8 id no_compression (one_entry uint8_params)
           0 0 [result_0x5] 0 uint8_params result_0x5
           eq_refl eq_refl eq_refl eq_refl (or_introl eq_refl)).
Defined.

(** * Further properties *)

(** ** The life cycle *)

(** What [Shutdown] does, from any state: each handle that is held is
    released, in the order write semaphore, read semaphore, mapping,
    descriptor. *)
Lemma Shutdown_effects st :
  exists st1,
    Shutdown st = Some (tt, st1) /\
    this st1
    = {| SharedMemoryName := SharedMemoryName (this st);
         SharedMemoryFD :=
           if 0 <=? SharedMemoryFD (this st) then -1
           else SharedMemoryFD (this st);
         SharedMemoryPtr :=
           SharedMemoryPtr (this st) && negb (0 <? TotalSize (this st));
         TotalSize := TotalSize (this st);
         Header := Header (this st);
         SlotDataStart := SlotDataStart (this st);
         WriteSemaphore := false; ReadSemaphore := false;
         bIsInitialized := false;
         MaxSlots := MaxSlots (this st);
         SingleSlotSize := SingleSlotSize (this st) |} /\
    pid (os st1) = pid (os st) /\
    mapping (os st1)
    = (if SharedMemoryPtr (this st) && (0 <? TotalSize (this st))
       then None else mapping (os st)) /\
    write_permits (os st1) = write_permits (os st) /\
    read_ready (os st1) = read_ready (os st) /\
    trace (os st1)
    = trace (os st)
      ++ (if WriteSemaphore (this st)
          then [ev_sem_close WriteSem;
                ev_sem_unlink (write_sem_name (pid (os st)))]
          else [])
      ++ (if ReadSemaphore (this st)
          then [ev_sem_close ReadSem;
                ev_sem_unlink (read_sem_name (pid (os st)))]
          else [])
      ++ (if SharedMemoryPtr (this st) && (0 <? TotalSize (this st))
          then [ev_munmap (TotalSize (this st))] else [])
      ++ (if 0 <=? SharedMemoryFD (this st)
          then [ev_close (SharedMemoryFD (this st));
                ev_shm_unlink (SharedMemoryName (this st))]
          else []).
Proof.
  destruct st as [[name fd ptr total hdr slots wsem rsem flag n size]
                    [p m wp rr tr]].
  unfold Shutdown, UnmapSharedMemory, bind, get, getpid, modify, emit,
    set_mapping, ret.
  destruct wsem, rsem, ptr; cbn;
    destruct (0 <? total) eqn:Ht; cbn;
    destruct (0 <=? fd) eqn:Hfd; cbn; eexists;
    (split; [reflexivity|]); cbn; rewrite ?Hfd, ?Ht, <- ?app_assoc, ?app_nil_r;
    split_and!; reflexivity.
Qed.

(** One step forward through a [ret]. *)
Ltac fret :=
  lazymatch goal with
  | |- ex (fun _ => bind (ret ?a) ?k ?st = _) =>
      rewrite (bind_intro (ret a) k st a st eq_refl); cbv beta
  end.

(** [Initialize] returns, whatever the kernel answers. *)
Lemma Initialize_total r n mw mh st :
  exists b st0, Initialize r n mw mh st = Some (b, st0).
Proof.
  destruct (bIsInitialized (this st)) eqn:Hni.
  { exists true, st. by apply Initialize_again. }
  destruct (Z.ltb_spec (shm_open_fd r) 0) as [Hfd|Hfd].
  { exists false. unfold Initialize.
    rewrite (bind_intro (get bIsInitialized) _ st false st)
      by (unfold get; by rewrite Hni).
    cbv iota. fstep. fstep. fstep. fstep.
    destruct (Z.ltb_spec (shm_open_fd r) 0); [|lia]. unfold ret. eauto. }
  destruct (Z.ltb_spec (ftruncate_ret r) 0) as [Hft|Hft].
  { exists false. unfold Initialize.
    rewrite (bind_intro (get bIsInitialized) _ st false st)
      by (unfold get; by rewrite Hni).
    cbv iota. fstep. fstep. fstep. fstep.
    destruct (Z.ltb_spec (shm_open_fd r) 0); [lia|]. fstep.
    destruct (Z.ltb_spec (ftruncate_ret r) 0); [|lia].
    fstep. fstep. unfold ret. eauto. }
  destruct (mmap_ok r) eqn:Hmm.
  2:{ exists false. unfold Initialize.
      rewrite (bind_intro (get bIsInitialized) _ st false st)
        by (unfold get; by rewrite Hni).
      cbv iota. fstep. fstep. fstep. fstep.
      destruct (Z.ltb_spec (shm_open_fd r) 0); [lia|]. fstep.
      destruct (Z.ltb_spec (ftruncate_ret r) 0); [lia|].
      unfold MapSharedMemory. rewrite Hmm.
      do 4 fstep. fret. fstep. cbn [negb]. cbv iota.
      fstep. fstep. unfold ret. eauto. }
  destruct (sem_open_write_ok r && sem_open_read_ok r) eqn:Hsem.
  { apply andb_true_iff in Hsem as [Hwo Hro]. exists true.
    by apply Initialize_succeeds. }
  exists false.
  pose proof (total_size_for_eq n (slot_size_for mw mh)) as Htot.
  pose proof (u32_range (slot_size_for mw mh * n)) as Hr. unfold is_u32 in Hr.
  unfold Initialize.
  rewrite (bind_intro (get bIsInitialized) _ st false st)
    by (unfold get; by rewrite Hni).
  cbv iota. fstep. fstep. fstep. fstep.
  destruct (Z.ltb_spec (shm_open_fd r) 0); [lia|].
  fstep.
  destruct (Z.ltb_spec (ftruncate_ret r) 0); [lia|].
  unfold MapSharedMemory. rewrite Hmm.
  rewrite (bind_intro _ _ _ true
             (put_mapping
                (Some (replicate
                         (Z.to_nat (total_size_for n (slot_size_for mw mh))) 0))
                (add_event
                   (ev_mmap (total_size_for n (slot_size_for mw mh))
                      (shm_open_fd r)) _))) by reflexivity.
  fstep. cbn [negb]. cbv iota. fstep.
  fstore Hs0; [|rewrite ?length_replicate; disjoint..].
  apply store_length in Hs0. rewrite length_replicate in Hs0.
  fstore Hs1; [|disjoint..]. apply store_length in Hs1.
  fstore Hs2; [|disjoint..]. apply store_length in Hs2.
  fstore Hs3; [|disjoint..]. apply store_length in Hs3.
  fstore Hs4; [|disjoint..].
  fstep. unfold sem_open.
  destruct (sem_open_write_ok r), (sem_open_read_ok r); try discriminate Hsem.
  - repeat fstep. cbn [negb orb]. cbv iota.
    match goal with
    | |- ex (fun _ => bind Shutdown _ ?s = _) =>
        destruct (Shutdown_total s) as [st1 Hsd];
        rewrite (bind_intro _ _ _ _ _ Hsd)
    end.
    unfold ret. eauto.
  - repeat fstep. cbn [negb orb]. cbv iota.
    match goal with
    | |- ex (fun _ => bind Shutdown _ ?s = _) =>
        destruct (Shutdown_total s) as [st1 Hsd];
        rewrite (bind_intro _ _ _ _ _ Hsd)
    end.
    unfold ret. eauto.
  - repeat fstep. cbn [negb orb]. cbv iota.
    match goal with
    | |- ex (fun _ => bind Shutdown _ ?s = _) =>
        destruct (Shutdown_total s) as [st1 Hsd];
        rewrite (bind_intro _ _ _ _ _ Hsd)
    end.
    unfold ret. eauto.
Qed.

(** One step forward, wherever the computation stands in the goal. *)
Ltac xstep :=
  cbv beta;
  lazymatch goal with
  | |- context [bind ?c ?k ?st] =>
      lazymatch c with
      | get ?f =>
          let v := proj_eval (f (this st)) in
          rewrite (bind_intro c k st v st eq_refl)
      | getpid =>
          let v := proj_eval (pid (os st)) in
          rewrite (bind_intro c k st v st eq_refl)
      | modify ?f =>
          rewrite (bind_intro c k st tt (upd_this f st) eq_refl)
      | emit ?e =>
          rewrite (bind_intro c k st tt (add_event e st) eq_refl)
      | set_mapping ?m =>
          rewrite (bind_intro c k st tt (put_mapping m st) eq_refl)
      | set_sem ?s ?v =>
          rewrite (bind_intro c k st tt (put_sem s v st) eq_refl)
      | ret ?a => rewrite (bind_intro c k st a st eq_refl)
      | bind ?c1 ?k1 => rewrite (bind_assoc c1 k1 k st)
      end
  end;
  cbv beta.

Ltac xstore Hs :=
  cbv beta;
  lazymatch goal with
  | |- context [bind (write_uint ?n ?addr ?v) ?k ?st] =>
      let mo := proj_eval (mapping (os st)) in
      lazymatch mo with
      | Some ?m =>
          let m' := fresh "m" in
          destruct (store addr (le_bytes n v) m) as [m'|] eqn:Hs;
          [ rewrite (bind_intro (write_uint n addr v) k st tt
                       (put_mapping (Some m') st)
                       (write_bytes_intro addr (le_bytes n v) st m m'
                          eq_refl Hs))
          | rewrite store_Some in Hs; [discriminate Hs| |] ]
      end
  end;
  cbv beta.

Ltac proj_goal :=
  cbn [this os pid mapping write_permits read_ready trace
       add_event put_mapping put_sem upd_this sem_value
       with_SharedMemoryPtr with_SharedMemoryFD with_Semaphore
       with_bIsInitialized with_sizes with_Header with_SlotDataStart
       SharedMemoryName SharedMemoryFD SharedMemoryPtr TotalSize Header
       SlotDataStart WriteSemaphore ReadSemaphore bIsInitialized MaxSlots
       SingleSlotSize].

(** [Initialize] when [shm_open] fails. *)
Lemma Initialize_shm_open_fails r n mw mh st :
  bIsInitialized (this st) = false -> shm_open_fd r < 0 ->
  Initialize r n mw mh st
  = Some (false,
          upd_this (with_SharedMemoryFD (shm_open_fd r))
            (add_event (ev_shm_open (images_name (pid (os st))))
               (upd_this
                  (with_sizes n (slot_size_for mw mh)
                     (total_size_for n (slot_size_for mw mh))
                     (images_name (pid (os st)))) st))).
Proof.
  intros Hni Hfd. unfold Initialize.
  rewrite (bind_intro (get bIsInitialized) _ st false st)
    by (unfold get; by rewrite Hni).
  cbv iota. do 4 xstep.
  destruct (Z.ltb_spec (shm_open_fd r) 0); [|lia]. reflexivity.
Qed.

(** [Initialize] when [ftruncate] or [mmap] fails. *)
Lemma Initialize_sizing_fails r n mw mh st :
  bIsInitialized (this st) = false -> 0 <= shm_open_fd r ->
  ftruncate_ret r < 0 \/ mmap_ok r = false ->
  exists st0,
    Initialize r n mw mh st = Some (false, st0) /\
    this st0
    = with_SharedMemoryPtr
        (if ftruncate_ret r <? 0 then SharedMemoryPtr (this st) else false)
        (with_SharedMemoryFD (shm_open_fd r)
           (with_sizes n (slot_size_for mw mh)
              (total_size_for n (slot_size_for mw mh))
              (images_name (pid (os st))) (this st))) /\
    pid (os st0) = pid (os st) /\
    mapping (os st0) = mapping (os st) /\
    write_permits (os st0) = write_permits (os st) /\
    read_ready (os st0) = read_ready (os st) /\
    trace (os st0)
    = trace (os st)
      ++ [ev_shm_open (images_name (pid (os st)));
          ev_ftruncate (shm_open_fd r)
            (total_size_for n (slot_size_for mw mh))]
      ++ (if ftruncate_ret r <? 0 then []
          else [ev_mmap (total_size_for n (slot_size_for mw mh))
                  (shm_open_fd r)])
      ++ [ev_close (shm_open_fd r);
          ev_shm_unlink (images_name (pid (os st)))].
Proof.
  intros Hni Hfd Hfail. unfold Initialize.
  rewrite (bind_intro (get bIsInitialized) _ st false st)
    by (unfold get; by rewrite Hni).
  cbv iota. do 4 xstep.
  destruct (Z.ltb_spec (shm_open_fd r) 0); [lia|]. xstep.
  destruct (Z.ltb_spec (ftruncate_ret r) 0) as [Hft|Hft].
  - do 2 xstep. eexists. split; [reflexivity|]. proj_goal.
    destruct st as [[] []]. cbn. rewrite <- !app_assoc. done.
  - destruct Hfail as [|Hmm]; [lia|].
    unfold MapSharedMemory. rewrite Hmm.
    do 6 xstep. cbn [negb]. cbv iota. do 2 xstep.
    eexists. split; [reflexivity|]. proj_goal.
    destruct st as [[] []]. cbn. rewrite <- !app_assoc. done.
Qed.

(** [Initialize] when a semaphore cannot be opened: [Shutdown] gives back
    what was acquired. *)
Lemma Initialize_semaphores_fail r n mw mh st :
  bIsInitialized (this st) = false ->
  0 <= shm_open_fd r -> 0 <= ftruncate_ret r -> mmap_ok r = true ->
  sem_open_write_ok r && sem_open_read_ok r = false ->
  exists st0,
    Initialize r n mw mh st = Some (false, st0) /\
    this st0
    = {| SharedMemoryName := images_name (pid (os st));
         SharedMemoryFD := -1;
         SharedMemoryPtr := false;
         TotalSize := total_size_for n (slot_size_for mw mh);
         Header := Some 0;
         SlotDataStart := Some 4096;
         WriteSemaphore := false; ReadSemaphore := false;
         bIsInitialized := false;
         MaxSlots := n;
         SingleSlotSize := slot_size_for mw mh |} /\
    pid (os st0) = pid (os st) /\
    mapping (os st0) = None /\
    trace (os st0)
    = trace (os st)
      ++ [ev_shm_open (images_name (pid (os st)));
          ev_ftruncate (shm_open_fd r)
            (total_size_for n (slot_size_for mw mh));
          ev_mmap (total_size_for n (slot_size_for mw mh)) (shm_open_fd r);
          ev_sem_open (write_sem_name (pid (os st))) n;
          ev_sem_open (read_sem_name (pid (os st))) 0]
      ++ (if sem_open_write_ok r
          then [ev_sem_close WriteSem;
                ev_sem_unlink (write_sem_name (pid (os st)))]
          else [])
      ++ (if sem_open_read_ok r
          then [ev_sem_close ReadSem;
                ev_sem_unlink (read_sem_name (pid (os st)))]
          else [])
      ++ [ev_munmap (total_size_for n (slot_size_for mw mh));
          ev_close (shm_open_fd r);
          ev_shm_unlink (images_name (pid (os st)))].
Proof.
  intros Hni Hfd Hft Hmm Hsem.
  pose proof (total_size_for_eq n (slot_size_for mw mh)) as Htot.
  pose proof (u32_range (slot_size_for mw mh * n)) as Hr. unfold is_u32 in Hr.
  unfold Initialize.
  rewrite (bind_intro (get bIsInitialized) _ st false st)
    by (unfold get; by rewrite Hni).
  cbv iota. do 4 xstep.
  destruct (Z.ltb_spec (shm_open_fd r) 0); [lia|]. xstep.
  destruct (Z.ltb_spec (ftruncate_ret r) 0); [lia|].
  unfold MapSharedMemory. rewrite Hmm.
  do 8 xstep. cbn [negb]. cbv iota. xstep.
  xstore Hs0; [|rewrite ?length_replicate; disjoint..].
  apply store_length in Hs0. rewrite length_replicate in Hs0.
  xstore Hs1; [|disjoint..]. apply store_length in Hs1.
  xstore Hs2; [|disjoint..]. apply store_length in Hs2.
  xstore Hs3; [|disjoint..]. apply store_length in Hs3.
  xstore Hs4; [|disjoint..].
  xstep. unfold sem_open.
  assert ((0 <? total_size_for n (slot_size_for mw mh)) = true) as Hpos
    by (apply Z.ltb_lt; lia).
  assert ((0 <=? shm_open_fd r) = true) as Hfd' by (by apply Z.leb_le).
  destruct (sem_open_write_ok r), (sem_open_read_ok r); try discriminate Hsem;
    repeat xstep; cbn [negb orb]; cbv iota;
    match goal with
    | |- context [bind Shutdown _ ?s] =>
        destruct (Shutdown_effects s)
          as (st1 & Hsd & Hthis & Hpid & Hmap & _ & _ & Htr);
        rewrite (bind_intro _ _ _ _ _ Hsd)
    end;
    exists st1; (split; [reflexivity|]);
    rewrite Hthis, Hpid, Hmap, Htr; proj_goal; rewrite Hpos, Hfd';
    cbn [andb negb]; rewrite <- !app_assoc; cbn [app];
    split_and!; reflexivity.
Qed.

Lemma all_granted_true r :
  all_granted r = true <->
  0 <= shm_open_fd r /\ 0 <= ftruncate_ret r /\ mmap_ok r = true /\
  sem_open_write_ok r = true /\ sem_open_read_ok r = true.
Proof.
  unfold all_granted. rewrite !andb_true_iff, !Z.leb_le. tauto.
Qed.

(** X1. [Initialize] on a transport that is not initialized always returns;
    it returns [true] exactly when the kernel grants all five requests, and
    [IsInitialized] afterwards is what it returned. *)
Theorem Initialize_reports r n mw mh st :
  bIsInitialized (this st) = false ->
  exists st0,
    Initialize r n mw mh st = Some (all_granted r, st0) /\
    IsInitialized st0 = Some (all_granted r, st0).
Proof.
  intros Hni. destruct (Initialize_total r n mw mh st) as (b & st0 & Hi).
  exists st0.
  assert (b = all_granted r /\ bIsInitialized (this st0) = b) as [<- Hflag].
  { destruct b.
    - destruct (Initialize_inv _ _ _ _ _ _ _ Hni Hi eq_refl)
        as [Hok Hthis _ _ _ _ _].
      split; [symmetry; by apply all_granted_true|by rewrite Hthis].
    - destruct (all_granted r) eqn:Hg.
      + apply all_granted_true in Hg as (? & ? & ? & ? & ?).
        destruct (Initialize_succeeds r n mw mh st) as [st' Hi']; try done.
        congruence.
      + split; [done|].
        destruct (Z.ltb_spec (shm_open_fd r) 0) as [Hfd|Hfd].
        { rewrite Initialize_shm_open_fails in Hi by done.
          injection Hi as <-. exact Hni. }
        destruct (Z.ltb_spec (ftruncate_ret r) 0) as [Hft|Hft].
        { destruct (Initialize_sizing_fails r n mw mh st)
            as (st' & Hi' & Hthis & _); [done..|by left|].
          rewrite Hi in Hi'. injection Hi' as <-. rewrite Hthis. exact Hni. }
        destruct (mmap_ok r) eqn:Hmm.
        2:{ destruct (Initialize_sizing_fails r n mw mh st)
              as (st' & Hi' & Hthis & _); [done..|by right|].
            rewrite Hi in Hi'. injection Hi' as <-. rewrite Hthis.
            exact Hni. }
        destruct (Initialize_semaphores_fail r n mw mh st)
          as (st' & Hi' & Hthis & _); try done.
        { unfold all_granted in Hg. rewrite Hmm in Hg.
          destruct (Z.leb_spec 0 (shm_open_fd r)); [|lia].
          destruct (Z.leb_spec 0 (ftruncate_ret r)); [|lia]. exact Hg. }
        rewrite Hi in Hi'. injection Hi' as <-. by rewrite Hthis. }
  split; [exact Hi|]. unfold IsInitialized, get. by rewrite Hflag.
Qed.

(** X2. [Initialize] that fails at [shm_open], [ftruncate] or [mmap]
    returns [false] with nothing mapped and no semaphore opened.  After
    a failed [ftruncate] or [mmap] the descriptor is closed and the name
    unlinked, but [SharedMemoryFD] keeps the number of the closed
    descriptor: the next [Shutdown] closes that number and unlinks the
    name once more.  After a failed [shm_open] it makes no call. *)
Theorem Initialize_early_failure r n mw mh st :
  released (this st) -> mapping (os st) = None ->
  shm_open_fd r < 0 \/ ftruncate_ret r < 0 \/ mmap_ok r = false ->
  exists st0 st1,
    Initialize r n mw mh st = Some (false, st0) /\
    mapping (os st0) = None /\
    SharedMemoryPtr (this st0) = false /\
    WriteSemaphore (this st0) = false /\
    ReadSemaphore (this st0) = false /\
    SharedMemoryFD (this st0) = shm_open_fd r /\
    trace (os st0)
    = trace (os st)
      ++ ev_shm_open (images_name (pid (os st)))
         :: (if shm_open_fd r <? 0 then []
             else ev_ftruncate (shm_open_fd r)
                    (total_size_for n (slot_size_for mw mh))
                  :: (if ftruncate_ret r <? 0 then []
                      else [ev_mmap (total_size_for n (slot_size_for mw mh))
                              (shm_open_fd r)])
                  ++ [ev_close (shm_open_fd r);
                      ev_shm_unlink (images_name (pid (os st)))]) /\
    Shutdown st0 = Some (tt, st1) /\
    trace (os st1)
    = trace (os st0)
      ++ (if shm_open_fd r <? 0 then []
          else [ev_close (shm_open_fd r);
                ev_shm_unlink (images_name (pid (os st)))]).
Proof.
  intros [Hni Hfd0 Hptr Hws Hrs] Hm Hfail.
  destruct (Z.ltb_spec (shm_open_fd r) 0) as [Hfd|Hfd].
  - pose proof (Initialize_shm_open_fails r n mw mh st Hni Hfd) as Hi.
    match type of Hi with _ = Some (_, ?s) =>
      destruct (Shutdown_effects s)
        as (st1 & Hsd & _ & _ & _ & _ & _ & Htr); exists s, st1
    end.
    split; [exact Hi|]. split; [exact Hm|].
    revert Htr. proj_goal. rewrite Hptr, Hws, Hrs. cbn [andb].
    destruct (Z.leb_spec 0 (shm_open_fd r)); [lia|]. intros Htr.
    split_and!; done.
  - destruct (Initialize_sizing_fails r n mw mh st Hni Hfd)
      as (st0 & Hi & Hthis & Hpid & Hm0 & _ & _ & Htr0).
    { destruct Hfail as [|[|]]; [lia|by left|by right]. }
    destruct (Shutdown_effects st0)
      as (st1 & Hsd & _ & _ & _ & _ & _ & Htr).
    exists st0, st1. rewrite Hthis in Htr |- *. revert Htr.
    rewrite Hpid, Hm0, Htr0. proj_goal. rewrite Hws, Hrs, Hptr.
    destruct (Z.leb_spec 0 (shm_open_fd r)); [|lia].
    destruct (ftruncate_ret r <? 0); cbn [andb app]; intros Htr;
      split_and!; done.
Qed.

(** X3. [Initialize] that fails at a semaphore calls [Shutdown]: the
    semaphore that was opened is closed and unlinked, the segment
    unmapped, the descriptor closed and the name unlinked.  No handle is
    left, and a further [Shutdown] makes no call. *)
Theorem Initialize_semaphore_failure r n mw mh st :
  bIsInitialized (this st) = false ->
  0 <= shm_open_fd r -> 0 <= ftruncate_ret r -> mmap_ok r = true ->
  sem_open_write_ok r = false \/ sem_open_read_ok r = false ->
  exists st0,
    Initialize r n mw mh st = Some (false, st0) /\
    mapping (os st0) = None /\
    SharedMemoryPtr (this st0) = false /\
    WriteSemaphore (this st0) = false /\
    ReadSemaphore (this st0) = false /\
    SharedMemoryFD (this st0) = -1 /\
    trace (os st0)
    = trace (os st)
      ++ [ev_shm_open (images_name (pid (os st)));
          ev_ftruncate (shm_open_fd r)
            (total_size_for n (slot_size_for mw mh));
          ev_mmap (total_size_for n (slot_size_for mw mh)) (shm_open_fd r);
          ev_sem_open (write_sem_name (pid (os st))) n;
          ev_sem_open (read_sem_name (pid (os st))) 0]
      ++ (if sem_open_write_ok r
          then [ev_sem_close WriteSem;
                ev_sem_unlink (write_sem_name (pid (os st)))]
          else [])
      ++ (if sem_open_read_ok r
          then [ev_sem_close ReadSem;
                ev_sem_unlink (read_sem_name (pid (os st)))]
          else [])
      ++ [ev_munmap (total_size_for n (slot_size_for mw mh));
          ev_close (shm_open_fd r);
          ev_shm_unlink (images_name (pid (os st)))] /\
    Shutdown st0 = Some (tt, st0).
Proof.
  intros Hni Hfd Hft Hmm Hsem.
  destruct (Initialize_semaphores_fail r n mw mh st)
    as (st0 & Hi & Hthis & Hpid & Hm0 & Htr); try done.
  { destruct Hsem as [->| ->]; [done|apply andb_false_r]. }
  exists st0. rewrite Hthis. cbn. split_and!; try done.
  destruct st0 as [t0 [p m wp rr tr]]. cbn in *. subst t0 m. reflexivity.
Qed.

(** ** What a run leaves alone *)

(** [WriteImage] changes no member of the transport, and a run changes
    neither the members nor the process. *)
Lemma WriteImage_this now W H T I px st ok st' :
  WriteImage now W H T I px st = Some (ok, st') ->
  this st' = this st /\ pid (os st') = pid (os st).
Proof.
  intros Hw. apply WriteImage_outcome in Hw. by inversion Hw; subst.
Qed.

Lemma run_this acts : forall st oks st',
  run acts st = Some (oks, st') ->
  this st' = this st /\ pid (os st') = pid (os st).
Proof.
  induction acts as [|a acts IH]; intros st oks st' Hr.
  - cbn [run] in Hr. unfold ret in Hr. by injection Hr as <- <-.
  - apply run_cons_inv in Hr. destruct a as [c| |].
    + destruct Hr as (ok & oks' & st1 & Hc & Hr & ->).
      apply WriteImage_this in Hc as [Ht Hp]. apply IH in Hr as [Ht' Hp'].
      split; congruence.
    + destruct Hr as (st1 & Hc & Hr). apply IH in Hr as [Ht' Hp'].
      rewrite Ht', Hp'.
      by apply consumer_take_inv in Hc as [->| ->].
    + destruct Hr as (st1 & Hc & Hr). apply IH in Hr as [Ht' Hp'].
      rewrite Ht', Hp'.
      by apply consumer_release_inv in Hc as ->.
Qed.

(** X4. [Shutdown] after any use: the two semaphores are closed and unlinked,
    the segment unmapped, the descriptor closed and the name unlinked,
    each once, in this order and under the names [Initialize] used. *)
Theorem Shutdown_after_use r n mw mh st st0 acts oks st1 :
  bIsInitialized (this st) = false ->
  Initialize r n mw mh st = Some (true, st0) ->
  run acts st0 = Some (oks, st1) ->
  exists st2,
    Shutdown st1 = Some (tt, st2) /\
    trace (os st2)
    = trace (os st1)
      ++ [ev_sem_close WriteSem;
          ev_sem_unlink (write_sem_name (pid (os st)));
          ev_sem_close ReadSem;
          ev_sem_unlink (read_sem_name (pid (os st)));
          ev_munmap (TotalSize (this st0));
          ev_close (shm_open_fd r);
          ev_shm_unlink (images_name (pid (os st)))] /\
    mapping (os st2) = None /\
    SharedMemoryFD (this st2) = -1 /\
    SharedMemoryPtr (this st2) = false /\
    WriteSemaphore (this st2) = false /\
    ReadSemaphore (this st2) = false /\
    IsInitialized st2 = Some (false, st2) /\
    Shutdown st2 = Some (tt, st2).
Proof.
  intros Hni Hi Hr.
  destruct (Initialize_inv _ _ _ _ _ _ _ Hni Hi eq_refl)
    as [(Hfd & _) Hthis Hpid _ _ _ _].
  apply run_this in Hr as [Hthis1 Hpid1].
  destruct (Shutdown_effects st1)
    as (st2 & Hsd & Hthis2 & Hpid2 & Hm2 & _ & _ & Htr2).
  pose proof (total_size_for_eq n (slot_size_for mw mh)) as Htot.
  pose proof (u32_range (slot_size_for mw mh * n)) as Hrg.
  unfold is_u32 in Hrg.
  assert ((0 <? total_size_for n (slot_size_for mw mh)) = true) as Hpos
    by (apply Z.ltb_lt; lia).
  assert ((0 <=? shm_open_fd r) = true) as Hfd' by (by apply Z.leb_le).
  exists st2. rewrite Hthis2, Hm2, Htr2, Hthis1, Hpid1, Hthis, Hpid.
  cbn [SharedMemoryName SharedMemoryFD SharedMemoryPtr TotalSize
       WriteSemaphore ReadSemaphore bIsInitialized].
  rewrite Hpos, Hfd'. cbn [andb negb app].
  split_and!; try done.
  - unfold IsInitialized, get. by rewrite Hthis2.
  - by apply Shutdown_twice in Hsd.
Qed.

(** X5. After a [Shutdown], [Initialize] starts from scratch: with every
    request granted it succeeds and leaves a ring as a first [Initialize]
    would. *)
Theorem Initialize_after_Shutdown st st1 r n mw mh :
  Shutdown st = Some (tt, st1) ->
  all_granted r = true -> 0 <= n < 2 ^ 32 ->
  exists st2,
    Initialize r n mw mh st1 = Some (true, st2) /\
    initialized st2 /\
    MaxSlots (this st2) = n /\
    SingleSlotSize (this st2) = slot_size_for mw mh /\
    WriteIndex st2 = Some 0 /\
    LastUpdateTime st2 = Some 0 /\
    write_permits (os st2) = n /\
    read_ready (os st2) = 0.
Proof.
  intros Hsd Hg Hn. apply all_granted_true in Hg as (? & ? & ? & ? & ?).
  pose proof (Shutdown_not_initialized _ _ _ Hsd) as Hni.
  destruct (Initialize_succeeds r n mw mh st1) as [st2 Hi]; try done.
  pose proof (Initialize_inv _ _ _ _ _ _ _ Hni Hi eq_refl) as Hai.
  pose proof (after_Initialize_initialized _ _ _ _ _ _ Hn Hai) as Hinit.
  destruct Hai as [_ Hthis _ Hwp Hrr _ (m & Hm & _ & _ & _ & _ & Hix & Hlu)].
  exists st2. rewrite Hthis. cbn [MaxSlots SingleSlotSize].
  unfold WriteIndex, LastUpdateTime, peek_uint. rewrite Hm.
  cbn [mbind option_bind]. by split_and!.
Qed.

(** ** The bytes a write touches *)

Lemma peek_uint_bytes n off st :
  peek_uint n off st = le_value <$> peek_bytes off (Z.of_nat n) st.
Proof.
  unfold peek_uint, peek_bytes, load_uint. by destruct (mapping (os st)).
Qed.

(** An accepted write changes the bytes of the claimed slot from its
    start to the end of the frame, the write index and the time stamp of
    the header; it leaves every other byte of the segment. *)
Lemma WriteImage_frame now W H T I px st st' :
  initialized st ->
  WriteImage now W H T I px st = Some (true, st') ->
  exists idx,
    WriteIndex st = Some idx /\ 0 <= idx < MaxSlots (this st) /\
    forall off len,
      off + len <= hdr_WriteIndex \/ sizeof_FSharedMemoryHeader <= off ->
      off + len <= slot_at st idx \/
      slot_at st idx + HeaderSize + required_size W H <= off ->
      peek_bytes off len st' = peek_bytes off len st.
Proof.
  intros Hinit Hw. apply WriteImage_outcome in Hw.
  inversion Hw as [| | |h base m cur m1 m' Hflag Hh HW HH Hge Hp Hm Hcur Hn
                        Hs Hlt Hbase Hfill]; subst.
  destruct Hinit as [_ Hh0 Hb0 _ _ Hslots (idx & Hidx & Hidx0 & Hidxn) _].
  rewrite Hh0 in Hh. injection Hh as <-.
  rewrite Hb0 in Hbase. injection Hbase as <-.
  pose proof Hidx as Hidx'.
  unfold WriteIndex, peek_uint in Hidx. rewrite Hm in Hidx.
  cbn [mbind option_bind] in Hidx. rewrite Hcur in Hidx. injection Hidx as ->.
  pose proof (required_size_range W H) as HRS. unfold is_u32 in HRS.
  exists idx. split; [exact Hidx'|]. split; [lia|].
  intros off len Hhdr Hslot.
  unfold peek_bytes, slot_at, HeaderSize, sizeof_FSharedMemoryHeader in *.
  cbn [mapping os put_sem add_event put_mapping mbind option_bind].
  rewrite Hm. cbn [mbind option_bind].
  rewrite (fill_slot_frame _ _ _ _ _ _ _ _ _ _ _ _ Hfill);
    [|lia|layout; lia|layout; lia].
  unfold store_uint in Hs.
  apply (load_store_other _ _ _ _ _ _ Hs). disjoint.
Qed.

Lemma WriteImage_refused_mapping now W H T I px st st' :
  initialized st ->
  WriteImage now W H T I px st = Some (false, st') ->
  mapping (os st') = mapping (os st).
Proof.
  intros Hinit Hw.
  by destruct (WriteImage_refused_effects _ _ _ _ _ _ _ _ Hinit Hw)
    as [->|[_ ->]].
Qed.

(** No call of a run writes below the write index: the first three fields
    of the header stay. *)
Lemma WriteImage_keeps_header now W H T I px st ok st' off len :
  initialized st ->
  WriteImage now W H T I px st = Some (ok, st') ->
  off + len <= hdr_WriteIndex ->
  peek_bytes off len st' = peek_bytes off len st.
Proof.
  intros Hinit Hw Hoff. destruct ok.
  - destruct (WriteImage_frame _ _ _ _ _ _ _ _ Hinit Hw)
      as (idx & _ & _ & Hfr).
    apply Hfr; [by left|]. left.
    pose proof (u32_range (idx * SingleSlotSize (this st))) as Hr.
    unfold slot_at, is_u32, hdr_WriteIndex in *. lia.
  - unfold peek_bytes.
    by rewrite (WriteImage_refused_mapping _ _ _ _ _ _ _ _ Hinit Hw).
Qed.

Lemma run_keeps_header acts : forall st oks st' off len,
  initialized st ->
  run acts st = Some (oks, st') ->
  off + len <= hdr_WriteIndex ->
  initialized st' /\ peek_bytes off len st' = peek_bytes off len st.
Proof.
  induction acts as [|a acts IH]; intros st oks st' off len Hinit Hr Hoff.
  - cbn [run] in Hr. unfold ret in Hr. by injection Hr as <- <-.
  - apply run_cons_inv in Hr. destruct a as [c| |].
    + destruct Hr as (ok & oks' & st1 & Hc & Hr & ->). unfold do_call in Hc.
      destruct (WriteImage_initialized _ _ _ _ _ _ _ _ _ Hinit Hc)
        as [Hinit1 _].
      destruct (IH _ _ _ off len Hinit1 Hr Hoff) as [Hinit' ->].
      split; [done|]. by eapply WriteImage_keeps_header.
    + destruct Hr as (st1 & Hc & Hr).
      apply consumer_take_inv in Hc as [->| ->].
      * by eapply IH.
      * destruct (IH _ _ _ off len (initialized_put_sem _ _ _ Hinit) Hr Hoff)
          as [Hinit' ->]. done.
    + destruct Hr as (st1 & Hc & Hr).
      apply consumer_release_inv in Hc as ->.
      destruct (IH _ _ _ off len (initialized_put_sem _ _ _ Hinit) Hr Hoff)
        as [Hinit' ->]. done.
Qed.

(** X6. At every point of a run the header carries what [Initialize] wrote:
    the magic number, the slot count and the slot size. *)
Theorem header_constants r n mw mh st st0 acts oks st1 :
  bIsInitialized (this st) = false -> 0 <= n < 2 ^ 32 ->
  Initialize r n mw mh st = Some (true, st0) ->
  run acts st0 = Some (oks, st1) ->
  peek_uint 4 (0 + hdr_MagicNumber) st1 = Some 0x41495253 /\
  peek_uint 4 (0 + hdr_NumSlots) st1 = Some n /\
  peek_uint 4 (0 + hdr_SlotSize) st1 = Some (SingleSlotSize (this st1)) /\
  MaxSlots (this st1) = n.
Proof.
  intros Hni Hn Hi Hr.
  pose proof (Initialize_inv _ _ _ _ _ _ _ Hni Hi eq_refl) as Hai.
  pose proof (after_Initialize_initialized _ _ _ _ _ _ Hn Hai) as Hinit.
  destruct Hai as [_ Hthis _ _ _ _ (m & Hm & _ & Hmg & Hns & Hss & _)].
  destruct (run_this _ _ _ _ Hr) as [Hthis1 _].
  rewrite !peek_uint_bytes.
  rewrite (proj2 (run_keeps_header acts st0 oks st1 (0 + hdr_MagicNumber)
                    (Z.of_nat 4) Hinit Hr ltac:(layout; lia))).
  rewrite (proj2 (run_keeps_header acts st0 oks st1 (0 + hdr_NumSlots)
                    (Z.of_nat 4) Hinit Hr ltac:(layout; lia))).
  rewrite (proj2 (run_keeps_header acts st0 oks st1 (0 + hdr_SlotSize)
                    (Z.of_nat 4) Hinit Hr ltac:(layout; lia))).
  rewrite <- !peek_uint_bytes. unfold peek_uint. rewrite Hm, Hthis1, Hthis.
  cbn [mbind option_bind MaxSlots SingleSlotSize].
  rewrite Hmg, Hns, Hss.
  rewrite (u32_small n) by done.
  rewrite (u32_small (slot_size_for mw mh)) by apply slot_size_for_range.
  done.
Qed.

(** X7. The footprint of an accepted write.  Outside the claimed slot's
    sub-header and frame and the header's write index and time stamp, no
    byte of the segment changes: the rest of the claimed slot keeps what
    an earlier, larger frame left there, and while frames fit their slots
    every other slot is untouched. *)
Theorem WriteImage_footprint now W H T I px st st' :
  initialized st ->
  WriteImage now W H T I px st = Some (true, st') ->
  exists idx,
    WriteIndex st = Some idx /\
    (forall off len,
       off + len <= hdr_WriteIndex \/ sizeof_FSharedMemoryHeader <= off ->
       off + len <= slot_at st idx \/
       slot_at st idx + HeaderSize + required_size W H <= off ->
       peek_bytes off len st' = peek_bytes off len st) /\
    (MaxSlots (this st) * SingleSlotSize (this st) < 2 ^ 32 ->
     required_size W H <= SingleSlotSize (this st) - HeaderSize ->
     forall j,
       0 <= j < MaxSlots (this st) -> j <> idx ->
       peek_bytes (slot_at st j) (SingleSlotSize (this st)) st'
       = peek_bytes (slot_at st j) (SingleSlotSize (this st)) st).
Proof.
  intros Hinit Hw.
  destruct (WriteImage_frame _ _ _ _ _ _ _ _ Hinit Hw)
    as (idx & Hidx & Hrange & Hfr).
  exists idx. split; [exact Hidx|]. split; [exact Hfr|].
  intros Hnw Hcap j Hj Hne.
  pose proof (required_size_range W H) as HRS.
  unfold is_u32, HeaderSize, slot_at in *.
  assert (0 <= SingleSlotSize (this st)) as HS by lia.
  rewrite (u32_small (j * _)) by (unfold is_u32; nia).
  apply Hfr.
  - right. unfold sizeof_FSharedMemoryHeader. nia.
  - rewrite (u32_small (idx * _)) by (unfold is_u32; nia).
    destruct (Z_lt_le_dec j idx); [left|right]; nia.
Qed.

(** ** The time stamp of the header *)

Lemma last_accepted_cons_write c acts ok oks t :
  last_accepted (act_WriteImage c :: acts) (ok :: oks) t
  = last_accepted acts oks (if ok then u64 (c_Timestamp c) else t).
Proof. reflexivity. Qed.

(** X8. After a run the header's [LastUpdateTime] is the time stamp of the
    last accepted write, whatever the earlier ones were, and the value
    before the run when no write was accepted. *)
Theorem LastUpdateTime_last_accepted acts : forall st oks st' t,
  initialized st ->
  LastUpdateTime st = Some t ->
  run acts st = Some (oks, st') ->
  LastUpdateTime st' = Some (last_accepted acts oks t).
Proof.
  induction acts as [|a acts IH]; intros st oks st' t Hinit Ht Hr.
  - cbn [run] in Hr. unfold ret in Hr. by injection Hr as <- <-.
  - apply run_cons_inv in Hr. destruct a as [c| |].
    + destruct Hr as (ok & oks' & st1 & Hc & Hr & ->). unfold do_call in Hc.
      destruct (WriteImage_initialized _ _ _ _ _ _ _ _ _ Hinit Hc)
        as [Hinit1 _].
      rewrite last_accepted_cons_write.
      apply (IH st1); [done| |done].
      destruct ok.
      * by destruct (WriteImage_accepted_effects _ _ _ _ _ _ _ _ Hinit Hc)
          as (idx & _ & _ & _ & Hlast & _).
      * unfold LastUpdateTime, peek_uint in *.
        by rewrite (WriteImage_refused_mapping _ _ _ _ _ _ _ _ Hinit Hc).
    + destruct Hr as (st1 & Hc & Hr).
      assert (last_accepted (act_consumer_take :: acts) oks t
              = last_accepted acts oks t) as -> by (by destruct oks).
      apply consumer_take_inv in Hc as [->| ->].
      * by apply (IH st).
      * apply (IH (put_sem ReadSem (read_ready (os st) - 1) st));
          [by apply initialized_put_sem|done|done].
    + destruct Hr as (st1 & Hc & Hr).
      assert (last_accepted (act_consumer_release :: acts) oks t
              = last_accepted acts oks t) as -> by (by destruct oks).
      apply consumer_release_inv in Hc as ->.
      apply (IH (put_sem WriteSem (write_permits (os st) + 1) st));
        [by apply initialized_put_sem|done|done].
Qed.

(** ** Frames ready *)

Lemma WriteImage_read_ready now W H T I px st ok st' :
  WriteImage now W H T I px st = Some (ok, st') ->
  read_ready (os st')
  = read_ready (os st) + (if ok then 1 else 0).
Proof.
  intros Hw. apply WriteImage_outcome in Hw.
  inversion Hw; subst; cbn [read_ready os put_sem add_event put_mapping]; lia.
Qed.

(** X9. While only the producer runs, the read-ready semaphore counts the
    accepted writes - a refused call posts nothing - and permits plus
    frames ready stay what they were. *)
Theorem read_ready_counts_accepted acts : forall st oks st',
  forallb is_write acts = true ->
  run acts st = Some (oks, st') ->
  read_ready (os st') = read_ready (os st) + count_accepted oks /\
  write_permits (os st') + read_ready (os st')
  = write_permits (os st) + read_ready (os st) /\
  length oks = length acts.
Proof.
  induction acts as [|a acts IH]; intros st oks st' Hall Hr.
  - cbn [run] in Hr. unfold ret in Hr. injection Hr as <- <-.
    change (count_accepted []) with 0. split_and!; [lia|lia|done].
  - cbn [forallb] in Hall. apply andb_true_iff in Hall as [Ha Hall].
    apply run_cons_inv in Hr. destruct a as [c| |]; try discriminate Ha.
    destruct Hr as (ok & oks' & st1 & Hc & Hr & ->). unfold do_call in Hc.
    pose proof (WriteImage_read_ready _ _ _ _ _ _ _ _ _ Hc) as Hrr.
    apply WriteImage_permits in Hc as [Hp _].
    destruct (IH _ _ _ Hall Hr) as (Hrr' & Hsum & Hlen).
    rewrite count_accepted_cons. cbn [length].
    split_and!; [destruct ok; lia|destruct ok; lia|by rewrite Hlen].
Qed.

(** ** The slots of the ring *)

(** X10. While the sizes fit in 32 bits, [GetSlot] lays the slots out one
    after the other behind the header page: an index from the slot count
    on gives no slot, and the slots of smaller indices start on page
    bounds, hold a frame of the largest size [Initialize] was told, lie
    inside the segment and do not overlap. *)
Theorem GetSlot_layout r n mw mh st st0 :
  bIsInitialized (this st) = false ->
  0 <= n -> 0 <= mw -> 0 <= mh ->
  HeaderSize + mw * mh * 3 <= 2 ^ 32 - 4096 ->
  n * ceil_to_4096 (HeaderSize + mw * mh * 3) < 2 ^ 32 ->
  Initialize r n mw mh st = Some (true, st0) ->
  let S := SingleSlotSize (this st0) in
  (forall i, n <= i -> GetSlot i st0 = Some (None, st0)) /\
  (forall i, 0 <= i < n ->
     GetSlot i st0 = Some (Some (4096 + i * S), st0) /\
     (4096 + i * S) mod 4096 = 0 /\
     4096 + i * S + S <= TotalSize (this st0)) /\
  (forall i j, 0 <= i < j -> 4096 + i * S + S <= 4096 + j * S) /\
  HeaderSize + mw * mh * 3 <= S.
Proof.
  intros Hni Hn Hmw Hmh Hfit Htot Hi S.
  pose proof (Initialize_inv _ _ _ _ _ _ _ Hni Hi eq_refl) as Hai.
  destruct Hai as [_ Hthis _ _ _ _ _].
  assert (slot_size_for mw mh = ceil_to_4096 (HeaderSize + mw * mh * 3)) as Hs
    by (apply slot_size_for_no_wrap; [nia|lia]).
  pose proof (ceil_to_4096_bounds (HeaderSize + mw * mh * 3)) as [Hb Hmod].
  assert (total_size_for n (slot_size_for mw mh)
          = 4096 + n * slot_size_for mw mh) as Ht.
  { apply total_size_for_no_wrap. rewrite Hs. unfold HeaderSize in *. nia. }
  assert (S = ceil_to_4096 (HeaderSize + mw * mh * 3)) as HS
    by (unfold S; by rewrite Hthis).
  assert (0 <= HeaderSize + mw * mh * 3) as H0 by (unfold HeaderSize; nia).
  clearbody S. subst S.
  set (S := ceil_to_4096 (HeaderSize + mw * mh * 3)) in *.
  split_and!.
  - intros i Hi'. rewrite GetSlot_intro, Hthis. cbn [MaxSlots].
    destruct (Z.leb_spec n i); [done|lia].
  - intros i Hi'. split_and!.
    + rewrite GetSlot_intro, Hthis.
      cbn [MaxSlots SlotDataStart SingleSlotSize].
      destruct (Z.leb_spec n i); [lia|]. rewrite Hs. fold S.
      rewrite u32_small by (unfold is_u32; nia). done.
    + replace (4096 + i * S) with (i * S + 1 * 4096) by lia.
      rewrite Z.mod_add by lia.
      rewrite <- Zmult_mod_idemp_r, Hmod, Z.mul_0_r. done.
    + rewrite Hthis. cbn [TotalSize]. rewrite Ht, Hs. fold S. nia.
  - intros i j Hij. nia.
  - lia.
Qed.

(** ** Batches *)

Lemma run_writes_length calls : forall st oks st',
  run (map act_WriteImage calls) st = Some (oks, st') ->
  length oks = length calls.
Proof.
  induction calls as [|c calls IH]; intros st oks st' Hr.
  - cbn [map run] in Hr. unfold ret in Hr. by injection Hr as <- <-.
  - cbn [map] in Hr. apply run_cons_inv in Hr.
    destruct Hr as (ok & oks' & st1 & _ & Hr & ->). cbn [length].
    by rewrite (IH _ _ _ Hr).
Qed.

Lemma WriteImages_loop_run Images : forall nows b st,
  Forall readable Images ->
  WriteImages_loop nows Images b st
  = match run (map act_WriteImage (batch_calls nows Images)) st with
    | Some (oks, st') => Some (b && forallb id oks, st')
    | None => None
    end.
Proof.
  induction Images as [|Image Images IH]; intros nows b st Hrd.
  - cbn. unfold ret. by rewrite andb_true_r.
  - apply Forall_cons in Hrd as [[Hmax Hlen] Hrd].
    cbn [WriteImages_loop batch_calls map run].
    destruct (Z.leb_spec (2 ^ 31) (img_DataSize Image)); [lia|].
    destruct (Z.ltb_spec (Num (img_PixelData Image)) (img_DataSize Image));
      [lia|].
    cbn [orb]. unfold do_call. cbn [c_now c_Width c_Height c_Timestamp
                                    c_ImageType c_PixelData].
    rewrite !bind_eq.
    destruct (WriteImage _ _ _ _ _ _ st) as [[ok st1]|]; [|done].
    rewrite IH by done. rewrite bind_eq.
    destruct (run _ st1) as [[oks st']|]; [|done].
    unfold ret. cbn [forallb id]. by rewrite andb_assoc.
Qed.

(** X11. [WriteImages] is the run of one [WriteImage] per image, in order and
    to the end whatever the earlier calls returned; its result is the
    conjunction of theirs. *)
Theorem WriteImages_attempts_all nows Images st :
  Forall readable Images ->
  WriteImages nows Images st
  = match run (map act_WriteImage (batch_calls nows Images)) st with
    | Some (oks, st') => Some (forallb id oks, st')
    | None => None
    end /\
  forall oks st',
    run (map act_WriteImage (batch_calls nows Images)) st = Some (oks, st') ->
    length oks = length Images.
Proof.
  intros Hrd. split.
  - unfold WriteImages. by rewrite WriteImages_loop_run.
  - intros oks st' Hr. apply run_writes_length in Hr. rewrite Hr.
    clear. revert nows. induction Images as [|i Images IH]; intros nows;
      [done|]. cbn [batch_calls length]. by rewrite IH.
Qed.

(** ** Release *)

(** X12. When the producer has filled the ring, a further frame is turned
    down; once the consumer has given one permit back, the same frame is
    accepted and goes to slot 0, the oldest. *)
Theorem release_admits_next r n mw mh st st0 acts oks st1 c :
  bIsInitialized (this st) = false ->
  0 < n -> n * slot_size_for mw mh < 2 ^ 32 ->
  Initialize r n mw mh st = Some (true, st0) ->
  forallb is_write acts = true ->
  run acts st0 = Some (oks, st1) -> count_accepted oks = n ->
  c_Width c <> 0 -> c_Height c <> 0 ->
  required_size (c_Width c) (c_Height c) <= Num (c_PixelData c) ->
  required_size (c_Width c) (c_Height c) <= slot_size_for mw mh - HeaderSize ->
  (exists st2, run [act_WriteImage c] st1 = Some ([false], st2)) /\
  (exists st3,
     run [act_consumer_release; act_WriteImage c] st1 = Some ([true], st3) /\
     claimed (trace (os st3)) = claimed (trace (os st1)) ++ [0]).
Proof.
  intros Hni Hn Hnw Hi Hall Hr Hfull HW HH Hlen Hcap.
  pose proof (Initialize_inv _ _ _ _ _ _ _ Hni Hi eq_refl) as Hai.
  pose proof (slot_size_for_range mw mh) as HS. unfold is_u32 in HS.
  assert (is_u32 n) as Hnu.
  { unfold is_u32. pose proof (required_size_range (c_Width c) (c_Height c))
      as HRS. unfold is_u32, HeaderSize in *. nia. }
  pose proof (after_Initialize_initialized _ _ _ _ _ _ Hnu Hai) as Hinit.
  destruct Hai as [_ Hthis _ Hwp _ _ (m & Hm & _ & _ & _ & _ & Hidx & _)].
  assert (WriteIndex st0 = Some (0 mod MaxSlots (this st0))) as H0.
  { unfold WriteIndex, peek_uint. rewrite Hm, Hthis. cbn [MaxSlots].
    rewrite Z.mod_0_l by lia. exact Hidx. }
  destruct (run_rotation acts st0 0 oks st1 Hinit)
    as (Hinit1 & Hthis1 & _ & Hix); [by rewrite Hthis|exact H0|exact Hr|].
  destruct (run_writes_permits acts _ _ _ Hall Hr) as [Hp _].
  rewrite Hwp, Hfull in Hp.
  rewrite Hthis in Hix. cbn [MaxSlots] in Hix.
  rewrite Hfull, Z.add_0_l, Z.mod_same in Hix by lia.
  split.
  - destruct (WriteImage_no_permit (c_now c) (c_Width c) (c_Height c)
                (c_Timestamp c) (c_ImageType c) (c_PixelData c) st1) as [Hw|Hw];
      [lia| |]; eexists; cbn [run]; unfold do_call;
      rewrite (bind_intro _ _ _ _ _ Hw); reflexivity.
  - set (st1' := put_sem WriteSem (write_permits (os st1) + 1) st1).
    assert (initialized st1') as Hinit1' by (by apply initialized_put_sem).
    destruct (WriteImage_accepts_within_capacity (c_now c) (c_Width c)
                (c_Height c) (c_Timestamp c) (c_ImageType c) (c_PixelData c)
                st1') as [st3 Hw]; try done;
      cbn [st1' this os put_sem write_permits]; rewrite ?Hthis1, ?Hthis;
      cbn [MaxSlots SingleSlotSize TotalSize]; try lia.
    { apply total_size_for_no_wrap. nia. }
    exists st3. split.
    + cbn [run]. unfold do_call.
      rewrite (bind_intro consumer_release _ st1 tt st1' eq_refl).
      rewrite (bind_intro _ _ _ _ _ Hw). reflexivity.
    + destruct (WriteImage_accepted_effects _ _ _ _ _ _ _ _ Hinit1' Hw)
        as (idx & Hidx' & _ & _ & _ & _ & _ & _ & _ & _ & Htr & _).
      assert (idx = 0) as ->.
      { unfold WriteIndex, peek_uint in *. cbn [st1' os put_sem mapping] in *.
        congruence. }
      rewrite Htr, claimed_app. cbn [st1' os put_sem trace].
      reflexivity.
Qed.

(** ** When a call is turned down *)

(** X13. On an initialized transport the result is [false] exactly for a zero
    dimension, a buffer shorter than the 32-bit product
    width*height*3, or a wait that finds no permit. *)
Theorem WriteImage_false_iff now W H T I px st ok st' :
  initialized st ->
  WriteImage now W H T I px st = Some (ok, st') ->
  (ok = false <->
   W = 0 \/ H = 0 \/ Num px < required_size W H \/ write_permits (os st) <= 0).
Proof.
  intros Hinit Hw. split.
  - intros ->. by eapply WriteImage_refusal_reasons.
  - intros Hwhy. destruct ok; [|done]. exfalso.
    apply WriteImage_outcome in Hw. inversion Hw; subst. lia.
Qed.

(** X14. A call that returns [false] on an initialized transport has changed
    nothing: the segment, the write index, both semaphores and the members
    are as before, and the only call made, if any, is the one timed wait.
    In particular no slot index is claimed and then given up: [GetSlot]
    never answers [nullptr] there, and no permit is lost. *)
Theorem WriteImage_refusal_changes_nothing now W H T I px st st' :
  initialized st ->
  WriteImage now W H T I px st = Some (false, st') ->
  this st' = this st /\
  mapping (os st') = mapping (os st) /\
  WriteIndex st' = WriteIndex st /\
  write_permits (os st') = write_permits (os st) /\
  read_ready (os st') = read_ready (os st) /\
  (trace (os st') = trace (os st) \/
   trace (os st')
   = trace (os st) ++ [ev_sem_timedwait WriteSem (timeout_5ms now)]).
Proof.
  intros Hinit Hw.
  destruct (WriteImage_refused_effects _ _ _ _ _ _ _ _ Hinit Hw)
    as [->|[_ ->]]; split_and!; try done; [by left|by right].
Qed.

(** ** Names *)

(** X15. The segment is named after the process: [GetSharedMemoryName] gives
    "/airsim_images_" followed by the process id in decimal, so that two
    transports have the same name exactly when they are in the same
    process; the two semaphores of a process have different names. *)
Theorem GetSharedMemoryName_per_process
  r n mw mh st st0 r' n' mw' mh' st' st0' :
  bIsInitialized (this st) = false -> bIsInitialized (this st') = false ->
  Initialize r n mw mh st = Some (true, st0) ->
  Initialize r' n' mw' mh' st' = Some (true, st0') ->
  GetSharedMemoryName st0 = Some (images_name (pid (os st)), st0) /\
  (SharedMemoryName (this st0) = SharedMemoryName (this st0') <->
   pid (os st) = pid (os st')) /\
  write_sem_name (pid (os st)) <> read_sem_name (pid (os st)).
Proof.
  intros Hni Hni' Hi Hi'.
  destruct (Initialize_inv _ _ _ _ _ _ _ Hni Hi eq_refl)
    as [_ Hthis _ _ _ _ _].
  destruct (Initialize_inv _ _ _ _ _ _ _ Hni' Hi' eq_refl)
    as [_ Hthis' _ _ _ _ _].
  unfold GetSharedMemoryName, get. rewrite Hthis, Hthis'.
  cbn [SharedMemoryName]. split_and!; try done.
  unfold images_name. split.
  - intros Heq. apply (inj (String.app _)) in Heq.
    by apply (inj pretty) in Heq.
  - by intros ->.
Qed.

(** ** Batches and permits *)

(** The producer alone is accepted exactly as long as permits last. *)
Lemma run_until_permits calls : forall st,
  initialized st -> 0 < MaxSlots (this st) ->
  TotalSize (this st)
  = 4096 + MaxSlots (this st) * SingleSlotSize (this st) ->
  MaxSlots (this st) * SingleSlotSize (this st) < 2 ^ 32 ->
  Forall (writable (SingleSlotSize (this st))) calls ->
  0 <= write_permits (os st) ->
  exists st',
    run (map act_WriteImage calls) st
    = Some (map (fun j => Z.of_nat j <? write_permits (os st))
              (seq 0 (length calls)), st').
Proof.
  induction calls as [|c calls IH]; intros st Hinit Hn Htot Hnw Hall Hp.
  - by exists st.
  - apply Forall_cons in Hall as [(HW & HH & Hlen & Hcap) Hall].
    cbn [map run length seq]. unfold do_call.
    destruct (Z_lt_le_dec 0 (write_permits (os st))) as [Hpos|Hzero].
    + destruct (WriteImage_accepts_within_capacity (c_now c) (c_Width c)
                  (c_Height c) (c_Timestamp c) (c_ImageType c)
                  (c_PixelData c) st) as [st1 Hw]; try done.
      destruct (WriteImage_initialized _ _ _ _ _ _ _ _ _ Hinit Hw)
        as [Hinit1 Hthis].
      destruct (WriteImage_permits _ _ _ _ _ _ _ _ _ Hw) as [Hp1 _].
      destruct (IH st1) as [st' Hr]; rewrite ?Hthis; try done; [lia|].
      exists st'. rewrite (bind_intro _ _ _ _ _ Hw), (bind_intro _ _ _ _ _ Hr).
      unfold ret. do 2 f_equal.
      destruct (Z.ltb_spec (Z.of_nat 0) (write_permits (os st))); [|lia].
      f_equal. rewrite <- seq_shift, map_map. apply map_ext. intros j.
      rewrite Hp1.
      destruct (Z.ltb_spec (Z.of_nat j) (write_permits (os st) - 1)),
        (Z.ltb_spec (Z.of_nat (S j)) (write_permits (os st))); lia || done.
    + assert (exists st1, WriteImage (c_now c) (c_Width c) (c_Height c)
                (c_Timestamp c) (c_ImageType c) (c_PixelData c) st
                = Some (false, st1) /\ initialized st1 /\
                this st1 = this st /\
                write_permits (os st1) = write_permits (os st))
        as (st1 & Hw & Hinit1 & Hthis & Hp1).
      { destruct (WriteImage_no_permit (c_now c) (c_Width c) (c_Height c)
                    (c_Timestamp c) (c_ImageType c) (c_PixelData c) st)
          as [Hw|Hw]; [lia| |]; eexists; (split; [exact Hw|]);
          [done|]. split; [by apply initialized_add_event|done]. }
      destruct (IH st1) as [st' Hr]; rewrite ?Hthis; try done; [lia|].
      exists st'. rewrite (bind_intro _ _ _ _ _ Hw), (bind_intro _ _ _ _ _ Hr).
      unfold ret. do 2 f_equal.
      destruct (Z.ltb_spec (Z.of_nat 0) (write_permits (os st))); [lia|].
      f_equal. rewrite <- seq_shift, map_map. apply map_ext. intros j.
      rewrite Hp1.
      destruct (Z.ltb_spec (Z.of_nat j) (write_permits (os st))),
        (Z.ltb_spec (Z.of_nat (S j)) (write_permits (os st))); lia || done.
Qed.

Lemma forallb_below p k :
  0 <= p ->
  forallb id (map (fun j => Z.of_nat j <? p) (seq 0 k)) = (Z.of_nat k <=? p).
Proof.
  intros Hp. induction k as [|k IH].
  - cbn. symmetry. by apply Z.leb_le.
  - rewrite seq_S, map_app, forallb_app, IH. cbn [map forallb id Nat.add].
    rewrite andb_true_r.
    destruct (Z.leb_spec (Z.of_nat k) p), (Z.ltb_spec (Z.of_nat k) p),
      (Z.leb_spec (Z.of_nat (S k)) p); lia || done.
Qed.

(** X16. A batch of frames that fit their slots is written image by image as
    long as permits last, and later images are turned down: [WriteImages]
    returns [true] exactly when there are at least as many permits as
    images. *)
Theorem WriteImages_needs_permits nows Images st :
  initialized st -> 0 < MaxSlots (this st) ->
  TotalSize (this st)
  = 4096 + MaxSlots (this st) * SingleSlotSize (this st) ->
  MaxSlots (this st) * SingleSlotSize (this st) < 2 ^ 32 ->
  Forall readable Images ->
  Forall (writable (SingleSlotSize (this st))) (batch_calls nows Images) ->
  0 <= write_permits (os st) ->
  exists st',
    WriteImages nows Images st
    = Some (Num Images <=? write_permits (os st), st') /\
    run (map act_WriteImage (batch_calls nows Images)) st
    = Some (map (fun j => Z.of_nat j <? write_permits (os st))
              (seq 0 (length Images)), st').
Proof.
  intros Hinit Hn Htot Hnw Hrd Hall Hp.
  destruct (run_until_permits _ st Hinit Hn Htot Hnw Hall Hp) as [st' Hr].
  assert (length (batch_calls nows Images) = length Images) as Hlen.
  { clear. revert nows. induction Images as [|i Images IH]; intros nows;
      [done|]. cbn [batch_calls length]. by rewrite IH. }
  rewrite Hlen in Hr. exists st'. split; [|exact Hr].
  unfold WriteImages. rewrite WriteImages_loop_run by done. rewrite Hr.
  cbn [andb]. by rewrite forallb_below.
Qed.

(** ** More on the packing task *)

Section PackingMore.
Import Packing.

Context {FFloat16 float : Type}.
Variable GetFloat : FFloat16 -> float.
Variable CompressImageArray :
  Z -> Z -> list FColor.t -> TArray byte -> TArray byte.

Local Abbreviation DoWork_entry :=
  (DoWork_entry FFloat16 float GetFloat CompressImageArray).
Local Abbreviation DoWork_loop :=
  (DoWork_loop FFloat16 float GetFloat CompressImageArray).
Local Abbreviation DoWork :=
  (DoWork FFloat16 float GetFloat CompressImageArray).
Local Abbreviation pack_float := (pack_float FFloat16 float GetFloat).
Local Abbreviation RenderResult := (RenderResult FFloat16 float).
Local Abbreviation packable := (packable FFloat16 float).

(** The red channel of each sample, converted. *)
Local Abbreviation reds :=
  (map (fun c : FFloat16Color.t FFloat16 =>
          Some (GetFloat (FFloat16Color.R c)))).

Lemma poke_length {T} ptr (v : T) a a' :
  poke ptr v a = Some a' -> (ptr < length a)%nat /\ length a' = length a.
Proof.
  unfold poke. destruct (decide (ptr < length a)%nat); [|done].
  intros [= <-]. split; [done|apply length_insert].
Qed.

Lemma pack_float_spec items : forall ptr a,
  (ptr + length items <= length a)%nat ->
  pack_float items ptr a
  = Some (take ptr a ++ reds items ++ drop (ptr + length items) a).
Proof.
  induction items as [|c items IH]; intros ptr a Hlen.
  - cbn. rewrite Nat.add_0_r, take_drop. done.
  - cbn [Packing.pack_float length] in *.
    rewrite poke_Some by lia. cbn [mbind option_bind].
    rewrite IH by (rewrite length_insert; lia).
    f_equal. cbn [map]. rewrite Nat.add_1_r.
    rewrite (take_S_r _ _ (Some (GetFloat (FFloat16Color.R c))))
      by (apply list_lookup_insert_eq; lia).
    rewrite take_insert_ge by lia.
    rewrite drop_insert_lt by lia.
    rewrite <- !app_assoc. cbn [app]. do 4 f_equal. lia.
Qed.

Lemma pack_float_Some items : forall ptr a a',
  pack_float items ptr a = Some a' ->
  items = [] \/ (ptr + length items <= length a)%nat.
Proof.
  induction items as [|c items IH]; intros ptr a a' Hp; [by left|right].
  cbn [Packing.pack_float length] in *.
  destruct (poke ptr _ a) as [a1|] eqn:Hk; [|done].
  cbn [mbind option_bind] in Hp.
  apply poke_length in Hk as [Hlt Hl].
  apply IH in Hp as [->|Hp]; [cbn; lia|lia].
Qed.

Lemma pack_uint8_Some items : forall ptr a a',
  pack_uint8 items ptr a = Some a' ->
  items = [] \/ (ptr + 3 * length items <= length a)%nat.
Proof.
  intros ptr a a' Hp. destruct items as [|c items]; [by left|right].
  destruct (decide (ptr + 3 * length (c :: items) <= length a)%nat)
    as [|Hn]; [done|].
  destruct (decide (ptr <= length a)%nat) as [Hle|Hgt].
  - rewrite pack_uint8_overflow in Hp; [done|lia].
  - cbn [pack_uint8] in Hp. rewrite poke_None in Hp by lia. done.
Qed.

(** X17. A floating-point entry: the float array is sized to width*height
    elements and receives the red channel of each sample, in order; the
    other channels, the [compress] flag and the 8-bit array play no
    part. *)
Theorem DoWork_packs_float task n i heap ptr param (result : RenderResult) :
  Results task !! i = Some ptr -> Params task !! i = Some param ->
  heap !! ptr = Some result ->
  pixels_as_float param = true ->
  Num (bmp_float result) <= width result * height result < 2 ^ 31 ->
  let packed :=
    reds (bmp_float result)
    ++ drop (length (bmp_float result))
         (resize (Z.to_nat (width result * height result)) None
            (image_data_float result)) in
  DoWork_loop task (S n) i heap
  = DoWork_loop task n (S i)
      (<[ptr := with_image_data_float _ _ packed result]> heap) /\
  Num packed = width result * height result /\
  (Num (bmp_float result) = width result * height result ->
   packed = reds (bmp_float result)).
Proof.
  intros Hr Hp Hh Hf Hsz packed. unfold Num in *.
  assert (length (reds (bmp_float result)) = length (bmp_float result))
    as Hl by (by rewrite length_map).
  split_and!.
  - apply DoWork_loop_step with (param := param) (result := result);
      try done.
    unfold Packing.DoWork_entry. rewrite Hf. cbn [negb].
    rewrite SetNumUninitialized_Some by lia. cbn [mbind option_bind].
    rewrite pack_float_spec by (rewrite length_resize; lia).
    cbn [mbind option_bind take app Nat.add]. reflexivity.
  - unfold packed. rewrite length_app, Hl, length_drop, length_resize. lia.
  - intros Hall. unfold packed.
    rewrite drop_ge by (rewrite length_resize; lia).
    by rewrite app_nil_r.
Qed.

(** One iteration changes the two output arrays only. *)
Lemma DoWork_entry_sources param (result result' : RenderResult) :
  DoWork_entry param result = Some result' ->
  width result' = width result /\ height result' = height result /\
  bmp result' = bmp result /\ bmp_float result' = bmp_float result /\
  (pixels_as_float param = false ->
   image_data_float result' = image_data_float result) /\
  (pixels_as_float param = true ->
   image_data_uint8 result' = image_data_uint8 result).
Proof.
  unfold Packing.DoWork_entry. intros He.
  destruct (pixels_as_float param); cbn [negb] in He.
  - destruct (SetNumUninitialized _ _) as [a|]; [|done].
    cbn [mbind option_bind] in He.
    destruct (Packing.pack_float _ _ _ _ _ _) as [a'|]; [|done].
    injection He as <-. by split_and!.
  - destruct (negb _ && negb _).
    + destruct (SetNumUninitialized _ _) as [a|]; [|done].
      cbn [mbind option_bind] in He. destruct (compress param).
      * injection He as <-. by split_and!.
      * destruct (pack_uint8 _ _ _) as [a'|]; [|done].
        injection He as <-. by split_and!.
    + injection He as <-. by split_and!.
Qed.

Lemma DoWork_loop_sources task n : forall i heap heap',
  DoWork_loop task n i heap = Some heap' ->
  length heap' = length heap /\
  forall p r',
    heap' !! p = Some r' ->
    exists r,
      heap !! p = Some r /\
      width r' = width r /\ height r' = height r /\
      bmp r' = bmp r /\ bmp_float r' = bmp_float r /\
      (p ∉ take n (drop i (Results task)) -> r' = r).
Proof.
  induction n as [|n IH]; intros i heap heap' Hl.
  - cbn in Hl. injection Hl as <-. split; [done|].
    intros p r' Hp. exists r'. by split_and!.
  - cbn [Packing.DoWork_loop] in Hl.
    destruct (Results task !! i) as [ptr|] eqn:Hr; [|done].
    cbn [mbind option_bind] in Hl.
    destruct (Params task !! i) as [param|]; [|done].
    cbn [mbind option_bind] in Hl.
    destruct (heap !! ptr) as [result|] eqn:Hh; [|done].
    cbn [mbind option_bind] in Hl.
    destruct (Packing.DoWork_entry _ _ _ _ param result) as [result'|] eqn:He;
      [|done].
    cbn [mbind option_bind] in Hl.
    apply IH in Hl as [Hlen Hall]. rewrite length_insert in Hlen.
    split; [done|]. intros p r' Hp.
    destruct (Hall p r' Hp) as (r1 & Hp1 & Hw & Hht & Hb & Hbf & Hsame).
    apply DoWork_entry_sources in He as (Hw' & Hht' & Hb' & Hbf' & _).
    assert (take (S n) (drop i (Results task))
            = ptr :: take n (drop (S i) (Results task))) as Htk.
    { by rewrite (drop_S _ _ _ Hr). }
    destruct (decide (p = ptr)) as [->|Hne].
    + rewrite list_lookup_insert_eq in Hp1 by (by eapply lookup_lt_Some).
      injection Hp1 as <-. exists result.
      split_and!; try congruence.
      rewrite Htk. intros Hnin. exfalso. apply Hnin. by left.
    + rewrite list_lookup_insert_ne in Hp1 by done.
      exists r1. split_and!; try done.
      rewrite Htk. intros Hnin. apply Hsame. intros Hin. apply Hnin.
      by right.
Qed.

(** X18. [DoWork] changes output arrays only, and only of the results its
    first [ReqSize] entries point to: no result object is added or
    dropped, and dimensions and source bitmaps stay. *)
Theorem DoWork_keeps_sources task heap heap' :
  DoWork task heap = Some heap' ->
  length heap' = length heap /\
  forall p r',
    heap' !! p = Some r' ->
    exists r,
      heap !! p = Some r /\
      width r' = width r /\ height r' = height r /\
      bmp r' = bmp r /\ bmp_float r' = bmp_float r /\
      (p ∉ take (ReqSize task) (Results task) -> r' = r).
Proof.
  unfold Packing.DoWork. intros Hd.
  apply DoWork_loop_sources in Hd as [Hlen Hall]. split; [done|].
  intros p r' Hp. destruct (Hall p r' Hp) as (r & ? & ? & ? & ? & ? & Hs).
  exists r. split_and!; done.
Qed.

(** X19. Neither copy loop looks at the length of the output: with more
    pixels than width*height an uncompressed entry has no defined
    result. *)
Theorem DoWork_bitmap_too_long task n i heap ptr param
  (result : RenderResult) :
  Results task !! i = Some ptr -> Params task !! i = Some param ->
  heap !! ptr = Some result ->
  (if pixels_as_float param
   then width result * height result < Num (bmp_float result)
   else compress param = false /\
        width result <> 0 /\ height result <> 0 /\
        width result * height result < Num (bmp result)) ->
  DoWork_loop task (S n) i heap = None.
Proof.
  intros Hr Hp Hh Hlong. cbn [Packing.DoWork_loop].
  rewrite Hr; cbn [mbind option_bind]. rewrite Hp; cbn [mbind option_bind].
  rewrite Hh; cbn [mbind option_bind].
  assert (DoWork_entry param result = None) as ->; [|done].
  unfold Packing.DoWork_entry, Num in *.
  destruct (pixels_as_float param); cbn [negb].
  - destruct (SetNumUninitialized _ _) as [a|] eqn:Hs; [|done].
    cbn [mbind option_bind].
    destruct (Packing.pack_float _ _ _ _ _ _) as [a'|] eqn:Hk; [|done].
    exfalso. unfold SetNumUninitialized in Hs.
    destruct (Z.leb_spec 0 (width result * height result)); [|done].
    destruct (Z.ltb_spec (width result * height result) (2 ^ 31)); [|done].
    injection Hs as <-.
    apply pack_float_Some in Hk as [Hk|Hk].
    + rewrite Hk in Hlong. cbn in Hlong. lia.
    + rewrite length_resize in Hk. lia.
  - destruct Hlong as (Hc & Hw & Hht & Hlong). rewrite Hc.
    destruct (Z.eqb_spec (width result) 0); [done|].
    destruct (Z.eqb_spec (height result) 0); [done|]. cbn [negb andb].
    destruct (SetNumUninitialized _ _) as [a|] eqn:Hs; [|done].
    cbn [mbind option_bind].
    destruct (pack_uint8 _ _ _) as [a'|] eqn:Hk; [|done].
    exfalso. unfold SetNumUninitialized in Hs.
    destruct (Z.leb_spec 0 (width result * height result * 3)); [|done].
    destruct (Z.ltb_spec (width result * height result * 3) (2 ^ 31));
      [|done].
    injection Hs as <-.
    apply pack_uint8_Some in Hk as [Hk|Hk].
    + rewrite Hk in Hlong. cbn in Hlong. lia.
    + rewrite length_resize in Hk. lia.
Qed.

Lemma pack_uint8_length items : forall ptr a a',
  pack_uint8 items ptr a = Some a' -> length a' = length a.
Proof.
  induction items as [|c items IH]; intros ptr a a' Hk.
  - cbn in Hk. by injection Hk as <-.
  - cbn [pack_uint8] in Hk.
    destruct (poke ptr _ a) as [a1|] eqn:H1; [|done].
    cbn [mbind option_bind] in Hk.
    destruct (poke (ptr + 1) _ a1) as [a2|] eqn:H2; [|done].
    cbn [mbind option_bind] in Hk.
    destruct (poke (ptr + 2) _ a2) as [a3|] eqn:H3; [|done].
    cbn [mbind option_bind] in Hk.
    apply poke_length in H1 as [_ H1]. apply poke_length in H2 as [_ H2].
    apply poke_length in H3 as [_ H3]. apply IH in Hk. congruence.
Qed.

Lemma pack_uint8_again items ptr a a' :
  pack_uint8 items ptr a = Some a' -> pack_uint8 items ptr a' = Some a'.
Proof.
  intros Hk. pose proof (pack_uint8_length _ _ _ _ Hk) as Hl.
  destruct (pack_uint8_Some _ _ _ _ Hk) as [->|Hb]; [done|].
  rewrite pack_uint8_spec in Hk by done. injection Hk as Hk.
  rewrite pack_uint8_spec by lia. f_equal.
  assert (length (take ptr a) = ptr) as Ht by (rewrite length_take; lia).
  assert (length (map Some (bgr_bytes items)) = (3 * length items)%nat) as Hm
    by (by rewrite length_map, bgr_bytes_length).
  set (D := drop (ptr + 3 * length items) a) in *.
  assert (take ptr a' = take ptr a) as ->.
  { rewrite <- Hk. by rewrite take_app_length'. }
  assert (drop (ptr + 3 * length items) a' = D) as ->.
  { rewrite <- Hk. rewrite app_assoc. apply drop_app_length'.
    rewrite length_app. lia. }
  exact Hk.
Qed.

Lemma pack_float_length items : forall ptr a a',
  pack_float items ptr a = Some a' -> length a' = length a.
Proof.
  induction items as [|c items IH]; intros ptr a a' Hk.
  - cbn in Hk. by injection Hk as <-.
  - cbn [Packing.pack_float] in Hk.
    destruct (poke ptr _ a) as [a1|] eqn:H1; [|done].
    cbn [mbind option_bind] in Hk.
    apply poke_length in H1 as [_ H1]. apply IH in Hk. congruence.
Qed.

Lemma pack_float_again items ptr a a' :
  pack_float items ptr a = Some a' -> pack_float items ptr a' = Some a'.
Proof.
  intros Hk. pose proof (pack_float_length _ _ _ _ Hk) as Hl.
  destruct (pack_float_Some _ _ _ _ Hk) as [->|Hb]; [done|].
  rewrite pack_float_spec in Hk by done. injection Hk as Hk.
  rewrite pack_float_spec by lia. f_equal.
  assert (length (take ptr a) = ptr) as Ht by (rewrite length_take; lia).
  assert (length (reds items) = length items) as Hm
    by (by rewrite length_map).
  set (D := drop (ptr + length items) a) in *.
  assert (take ptr a' = take ptr a) as ->.
  { rewrite <- Hk. by rewrite take_app_length'. }
  assert (drop (ptr + length items) a' = D) as ->.
  { rewrite <- Hk. rewrite app_assoc. apply drop_app_length'.
    rewrite length_app. lia. }
  exact Hk.
Qed.

(** X20. An iteration of [DoWork] on an uncompressed entry, run again on its
    own result, changes nothing. *)
Theorem DoWork_entry_again param (result result' : RenderResult) :
  compress param = false \/ pixels_as_float param = true ->
  DoWork_entry param result = Some result' ->
  DoWork_entry param result' = Some result'.
Proof.
  unfold Packing.DoWork_entry. intros Hc He.
  destruct (pixels_as_float param); cbn [negb] in *.
  - destruct (SetNumUninitialized _ (image_data_float result))
      as [a|] eqn:Hs; [|done].
    cbn [mbind option_bind] in He.
    destruct (Packing.pack_float _ _ _ _ _ a) as [a'|] eqn:Hk; [|done].
    injection He as <-.
    cbn [image_data_float width height bmp_float with_image_data_float].
    assert (SetNumUninitialized (width result * height result) a' = Some a')
      as ->.
    { apply pack_float_length in Hk.
      unfold SetNumUninitialized in *.
      destruct ((0 <=? _) && (_ <? 2 ^ 31)); [|done].
      injection Hs as <-. f_equal. apply resize_all_alt.
      by rewrite Hk, length_resize. }
    cbn [mbind option_bind]. by rewrite (pack_float_again _ _ _ _ Hk).
  - destruct Hc as [Hc|]; [|done]. rewrite Hc in *.
    destruct (negb _ && negb _) eqn:Hz.
    + destruct (SetNumUninitialized _ (image_data_uint8 result))
        as [a|] eqn:Hs; [|done].
      cbn [mbind option_bind] in He.
      destruct (pack_uint8 _ _ a) as [a'|] eqn:Hk; [|done].
      injection He as <-.
      cbn [image_data_uint8 width height bmp with_image_data_uint8].
      rewrite Hz.
      assert (SetNumUninitialized (width result * height result * 3) a'
              = Some a') as ->.
      { apply pack_uint8_length in Hk.
        unfold SetNumUninitialized in *.
        destruct ((0 <=? _) && (_ <? 2 ^ 31)); [|done].
        injection Hs as <-. f_equal. apply resize_all_alt.
        by rewrite Hk, length_resize. }
      cbn [mbind option_bind]. by rewrite (pack_uint8_again _ _ _ _ Hk).
    + injection He as <-. by rewrite Hz.
Qed.

Lemma packable_entry param (result : RenderResult) :
  packable param result ->
  exists result', DoWork_entry param result = Some result'.
Proof.
  unfold packable, Packing.DoWork_entry, Num.
  destruct (pixels_as_float param); cbn [negb].
  - intros [Hsz Hlen]. rewrite SetNumUninitialized_Some by done.
    cbn [mbind option_bind].
    rewrite pack_float_spec by (rewrite length_resize; lia).
    cbn [mbind option_bind]. eauto.
  - intros Hp.
    destruct (Z.eqb_spec (width result) 0); [eauto|].
    destruct (Z.eqb_spec (height result) 0); [eauto|]. cbn [negb andb].
    destruct Hp as [|[|[Hsz Hp]]]; [done..|].
    rewrite SetNumUninitialized_Some by done. cbn [mbind option_bind].
    destruct (compress param); [eauto|].
    destruct Hp as [|Hlen]; [done|].
    rewrite pack_uint8_spec by (rewrite length_resize; lia).
    cbn [mbind option_bind]. eauto.
Qed.

Lemma packable_sources param (r r' : RenderResult) :
  width r' = width r -> height r' = height r ->
  bmp r' = bmp r -> bmp_float r' = bmp_float r ->
  packable param r -> packable param r'.
Proof. unfold packable. by intros -> -> -> ->. Qed.

Lemma DoWork_loop_completes task n : forall i heap,
  (forall j, (i <= j < i + n)%nat ->
     exists ptr param r,
       Results task !! j = Some ptr /\ Params task !! j = Some param /\
       heap !! ptr = Some r /\ packable param r) ->
  exists heap', DoWork_loop task n i heap = Some heap'.
Proof.
  induction n as [|n IH]; intros i heap Hok; [by eexists|].
  destruct (Hok i) as (ptr & param & r & Hr & Hp & Hh & Hpk); [lia|].
  destruct (packable_entry _ _ Hpk) as [r' He].
  rewrite (DoWork_loop_step _ _ _ _ _ _ _ _ _ _ Hr Hp Hh He).
  apply IH. intros j Hj.
  destruct (Hok j) as (ptr' & param' & r1 & Hr' & Hp' & Hh' & Hpk'); [lia|].
  exists ptr', param'.
  destruct (decide (ptr' = ptr)) as [->|Hne].
  - exists r'. split_and!; try done.
    + apply list_lookup_insert_eq. by eapply lookup_lt_Some.
    + assert (r1 = r) as -> by congruence.
      apply DoWork_entry_sources in He as (? & ? & ? & ? & _).
      by eapply packable_sources.
  - exists r1. split_and!; try done.
    by rewrite list_lookup_insert_ne.
Qed.

(** X21. [DoWork] goes through: when each of the first [ReqSize] entries has
    a parameter block, points to a result object and is packable - its
    bitmap has at most width*height pixels (or is handed to the
    compressor), or is 8-bit with a zero dimension - the task returns. *)
Theorem DoWork_completes task heap :
  (forall j, (j < ReqSize task)%nat ->
     exists ptr param r,
       Results task !! j = Some ptr /\ Params task !! j = Some param /\
       heap !! ptr = Some r /\ packable param r) ->
  exists heap', DoWork task heap = Some heap' /\ length heap' = length heap.
Proof.
  intros Hok. unfold Packing.DoWork.
  destruct (DoWork_loop_completes task (ReqSize task) 0 heap) as [heap' Hd].
  { intros j Hj. apply Hok. lia. }
  exists heap'. split; [exact Hd|].
  by apply DoWork_loop_sources in Hd as [Hlen _].
Qed.

End PackingMore.

(** ** Several writers *)

Section WritersFacts.
Import Writers.

Variables (n s : Z) (k : nat).
Hypothesis Hn : 0 < n < 2 ^ 32.
Hypothesis Hs : 0 <= s < n.

Record writers_inv (c : ring) : Prop := {
  wi_slots : MaxSlots c = n;
  wi_threads : length (threads c) = k;
  wi_claims :
    (claims c).*2
    = (fun j => (s + Z.of_nat j) mod n) <$> seq 0 (length (claims c));
  wi_word : WriteIndex c = (s + Z.of_nat (length (claims c))) mod n;
  wi_returned :
    forall i cur,
      threads c !! i = Some (returned cur) <-> (i, cur) ∈ claims c;
  wi_once : NoDup (claims c).*1;
  wi_locals :
    forall i cur next,
      threads c !! i = Some (before_exchange cur next) ->
      next = u32 (cur + 1) mod n
}.

Lemma writers_inv_start : writers_inv (start n s k).
Proof.
  constructor; cbn.
  - done.
  - by rewrite length_replicate.
  - done.
  - rewrite Z.add_0_r. symmetry. by apply Z.mod_small.
  - intros i cur. split.
    + intros Hl. apply lookup_replicate in Hl as [? _]. done.
    + by intros ?%elem_of_nil.
  - constructor.
  - intros i cur next Hl. apply lookup_replicate in Hl as [? _]. done.
Qed.

Lemma next_index L :
  u32 ((s + Z.of_nat L) mod n + 1) mod n = (s + Z.of_nat (L + 1)) mod n.
Proof.
  pose proof (Z.mod_pos_bound (s + Z.of_nat L) n ltac:(lia)) as Hb.
  unfold u32. rewrite (Z.mod_small (_ + 1)) by lia.
  rewrite Zplus_mod_idemp_l. f_equal. lia.
Qed.

Lemma writers_inv_move i p c :
  writers_inv c ->
  (exists q, threads c !! i = Some q /\ forall cur, q <> returned cur) ->
  (forall cur, p <> returned cur) ->
  (forall cur next, p = before_exchange cur next ->
                    next = u32 (cur + 1) mod n) ->
  writers_inv (move i p c).
Proof.
  intros [Hsl Hth Hcl Hw Hret Honce Hloc] (q & Hq & Hnr) Hp Hpl.
  constructor; cbn; try done.
  - by rewrite length_insert.
  - intros j cur. rewrite <- Hret.
    destruct (decide (i = j)) as [<-|Hne].
    + rewrite list_lookup_insert_eq by (by eapply lookup_lt_Some).
      rewrite Hq. split; intros [= E]; [by destruct (Hp cur)|].
      by destruct (Hnr cur).
    + by rewrite list_lookup_insert_ne.
  - intros j cur next.
    destruct (decide (i = j)) as [<-|Hne].
    + rewrite list_lookup_insert_eq by (by eapply lookup_lt_Some).
      intros [= E]. by apply Hpl.
    + rewrite list_lookup_insert_ne by done. apply Hloc.
Qed.

Lemma writers_step i c :
  writers_inv c -> exists c', step i c = Some c' /\ writers_inv c'.
Proof.
  intros Hinv. pose proof Hinv as [Hsl Hth Hcl Hw Hret Honce Hloc].
  unfold step.
  destruct (threads c !! i) as [[|cur next|cur]|] eqn:Hi; [| |by eauto..].
  - rewrite Hsl. destruct (Z.eqb_spec n 0); [lia|].
    eexists. split; [done|]. apply writers_inv_move; try done.
    + by eexists.
    + intros cur' next' [= <- <-]. done.
  - destruct (Z.eqb_spec (WriteIndex c) cur) as [<-|Hne].
    + eexists. split; [done|].
      pose proof (Hloc _ _ _ Hi) as ->.
      assert (i ∉ (claims c).*1) as Hfresh.
      { intros ((j & a) & -> & Hin)%list_elem_of_fmap. cbn in Hi.
        apply Hret in Hin. congruence. }
      constructor; cbn.
      * done.
      * by rewrite length_insert.
      * rewrite fmap_app, length_app, Hcl. cbn [length].
        rewrite seq_app, fmap_app. cbn. do 3 f_equal. exact Hw.
      * rewrite length_app. cbn [length]. rewrite Hw. apply next_index.
      * intros j a. rewrite elem_of_app, list_elem_of_singleton, <- Hret.
        destruct (decide (i = j)) as [<-|Hne].
        -- rewrite list_lookup_insert_eq by (by eapply lookup_lt_Some).
           rewrite Hi. split.
           ++ intros [= <-]. by right.
           ++ intros [[= ]|[= <-]]. done.
        -- rewrite list_lookup_insert_ne by done. split; [by left|].
           intros [|[= ]]; done.
      * rewrite fmap_app. cbn. apply NoDup_app. split; [done|].
        split; [|apply NoDup_singleton].
        intros j Hj ->%list_elem_of_singleton. done.
      * intros j a b.
        destruct (decide (i = j)) as [<-|Hne].
        -- rewrite list_lookup_insert_eq by (by eapply lookup_lt_Some). done.
        -- rewrite list_lookup_insert_ne by done. apply Hloc.
    + eexists. split; [done|]. apply writers_inv_move; try done.
      by eexists.
Qed.

Lemma writers_run schedule : forall c,
  writers_inv c -> exists c', run schedule c = Some c' /\ writers_inv c'.
Proof.
  induction schedule as [|i rest IH]; intros c Hinv; [by exists c|].
  destruct (writers_step i c Hinv) as (c1 & Hst & Hinv1).
  destruct (IH c1 Hinv1) as (c' & Hr & Hinv').
  exists c'. cbn [run]. rewrite Hst. done.
Qed.

End WritersFacts.


(** A thread that runs alone does what the sequential [GetNextWriteIndex]
    does: it returns the index it loaded and leaves the successor in the
    word. *)
Lemma GetNextWriteIndex_alone st cur st' :
  GetNextWriteIndex st = Some (cur, st') ->
  exists c h m m1,
    Writers.run [0; 0]%nat (Writers.start (MaxSlots (this st)) cur 1)
    = Some c /\
    Writers.threads c = [Writers.returned cur] /\
    Header (this st) = Some h /\ mapping (os st) = Some m /\
    load_uint 4 (h + hdr_WriteIndex) m = Some cur /\
    store_uint 4 (h + hdr_WriteIndex) (Writers.WriteIndex c) m = Some m1 /\
    mapping (os st') = Some m1.
Proof.
  intros (h & m & m1 & Hh & Hm & Hcur & Hn & Hst & ->)%GetNextWriteIndex_inv.
  unfold Writers.run, Writers.start, Writers.step. cbn.
  destruct (Z.eqb_spec (MaxSlots (this st)) 0); [done|]. cbn.
  rewrite Z.eqb_refl. eexists _, h, m, m1. cbn.
  split_and!; done.
Qed.

(** X22. Several writers.  With at least one slot, from a write index in
    range and under any schedule of any number of threads inside
    [GetNextWriteIndex], no step is undefined, the exchanges that succeed
    take the indices s, s+1, s+2, ... modulo the slot count in the order
    they succeed, each thread returns the index its own successful
    exchange took and takes one only, and the word is the start plus the
    number of indices taken, modulo the slot count.  With no more threads
    than slots, no two threads return the same index. *)
Theorem concurrent_claims n s k schedule :
  0 < n < 2 ^ 32 -> 0 <= s < n ->
  exists c,
    Writers.run schedule (Writers.start n s k) = Some c /\
    (Writers.claims c).*2
    = (fun j => (s + Z.of_nat j) mod n)
      <$> seq 0 (length (Writers.claims c)) /\
    Writers.WriteIndex c
    = (s + Z.of_nat (length (Writers.claims c))) mod n /\
    (forall i cur,
       Writers.threads c !! i = Some (Writers.returned cur) <->
       (i, cur) ∈ Writers.claims c) /\
    NoDup (Writers.claims c).*1 /\
    (Z.of_nat k <= n ->
     forall i j a b,
       i <> j ->
       Writers.threads c !! i = Some (Writers.returned a) ->
       Writers.threads c !! j = Some (Writers.returned b) ->
       a <> b).
Proof.
  intros Hn Hs.
  destruct (writers_run n s k Hn schedule (Writers.start n s k)
              (writers_inv_start n s k Hs))
    as (c & Hr & [Hsl Hth Hcl Hw Hret Honce Hloc]).
  exists c. split_and!; try done.
  intros Hk i j a b Hij Hi Hj.
  assert (length (Writers.claims c) <= k)%nat as Hlen.
  { assert (length (Writers.claims c).*1 <= length (seq 0 k))%nat as Hle.
    { apply submseteq_length, NoDup_submseteq; [done|].
      intros x ((x' & cur) & -> & Hin)%list_elem_of_fmap. cbn.
      apply Hret in Hin. apply lookup_lt_Some in Hin.
      apply elem_of_seq. lia. }
    by rewrite length_fmap, length_seq in Hle. }
  apply Hret in Hi, Hj.
  apply list_elem_of_lookup in Hi as [p Hp], Hj as [q Hq].
  assert (p <> q) as Hpq by congruence.
  pose proof (lookup_lt_Some _ _ _ Hp) as Hpl.
  pose proof (lookup_lt_Some _ _ _ Hq) as Hql.
  assert ((Writers.claims c).*2 !! p = Some a) as Ha
    by (by rewrite list_lookup_fmap, Hp).
  assert ((Writers.claims c).*2 !! q = Some b) as Hb
    by (by rewrite list_lookup_fmap, Hq).
  rewrite Hcl, list_lookup_fmap in Ha, Hb.
  rewrite (lookup_seq_lt _ _ _ Hpl) in Ha.
  rewrite (lookup_seq_lt _ _ _ Hql) in Hb.
  cbn in Ha, Hb. injection Ha as <-. injection Hb as <-.
  intros Heq.
  pose proof (Z.div_mod (s + Z.of_nat p) n ltac:(lia)) as Hd1.
  pose proof (Z.div_mod (s + Z.of_nat q) n ltac:(lia)) as Hd2.
  rewrite Heq in Hd1.
  set (d1 := (s + Z.of_nat p) / n) in *.
  set (d2 := (s + Z.of_nat q) / n) in *.
  assert (Z.of_nat p - Z.of_nat q = n * (d1 - d2)) as Hdiff by lia.
  assert (d1 - d2 = 0 \/ 1 <= d1 - d2 \/ d1 - d2 <= -1) as [|[|]] by lia;
    nia.
Qed.

Section WritersProgress.
Import Writers.

Variables (n s : Z) (k : nat).
Hypothesis Hn : 0 < n < 2 ^ 32.
Hypothesis Hs : 0 <= s < n.

Lemma unreturned_room i p c :
  writers_inv n s k c -> threads c !! i = Some p ->
  (forall cur, p <> returned cur) ->
  (length (claims c) + 1 <= k)%nat.
Proof.
  intros [Hsl Hth Hcl Hw Hret Honce Hloc] Hi Hp.
  assert (length (i :: (claims c).*1) <= length (seq 0 k))%nat as Hle.
  { apply submseteq_length, NoDup_submseteq.
    - apply NoDup_cons. split; [|done].
      intros ((j & a) & -> & Hin)%list_elem_of_fmap. cbn in Hi.
      apply Hret in Hin. rewrite Hi in Hin. injection Hin as ->.
      by destruct (Hp a).
    - intros j [->|Hj]%elem_of_cons; apply elem_of_seq.
      + apply lookup_lt_Some in Hi. lia.
      + apply list_elem_of_fmap in Hj as ((j' & a) & -> & Hin). cbn.
        apply Hret, lookup_lt_Some in Hin. lia. }
  cbn [length] in Hle. rewrite length_fmap, length_seq in Hle. lia.
Qed.

Lemma steps_left_step i j c c' :
  writers_inv n s k c -> step j c = Some c' ->
  (steps_left i c' <= steps_left i c)%nat /\
  (j = i -> forall p, threads c !! i = Some p ->
   (forall cur, p <> returned cur) ->
   (steps_left i c' + 1 <= steps_left i c)%nat).
Proof.
  intros Hinv Hstep.
  destruct (writers_step n s k Hn j c Hinv) as (c'' & Hstep' & Hinv').
  rewrite Hstep in Hstep'. injection Hstep' as <-.
  pose proof Hinv as [Hsl Hth Hcl Hw Hret Honce Hloc].
  revert Hstep Hinv'. unfold step.
  destruct (threads c !! j) as [[|cur next|cur]|] eqn:Hj.
  - destruct (MaxSlots c =? 0); [done|]. intros [= <-] Hinv'.
    unfold steps_left, move. cbn [threads claims WriteIndex].
    rewrite ?length_insert, ?Hth.
    destruct (decide (j = i)) as [->|Hne].
    + rewrite list_lookup_insert_eq by (by eapply lookup_lt_Some).
      rewrite Hj, Z.eqb_refl. split; [lia|]. intros _ p [= <-] _. lia.
    + rewrite list_lookup_insert_ne by done. split; [lia|done].
  - destruct (Z.eqb_spec (WriteIndex c) cur) as [Hwc|Hwc]; intros [= <-] Hinv'.
    + unfold steps_left. cbn [threads claims WriteIndex].
      rewrite ?length_insert, ?Hth.
      destruct (decide (j = i)) as [->|Hne].
      * rewrite list_lookup_insert_eq by (by eapply lookup_lt_Some).
        rewrite Hj. destruct (Z.eqb_spec (WriteIndex c) cur); [|done].
        split; [lia|]. intros _ p [= <-] _. lia.
      * rewrite list_lookup_insert_ne by done. split; [|done].
        rewrite length_app. cbn [length].
        destruct (threads c !! i) as [[|cur' next'|cur']|] eqn:Hi;
          [lia| |lia..].
        assert (length (claims c ++ [(j, cur)]) + 1 <= k)%nat as Hroom.
        { apply (unreturned_room i (before_exchange cur' next') _ Hinv');
            [|done].
          cbn [threads]. by rewrite list_lookup_insert_ne. }
        rewrite length_app in Hroom. cbn [length] in Hroom.
        destruct (next =? cur'), (WriteIndex c =? cur'); lia.
    + unfold steps_left, move. cbn [threads claims WriteIndex].
      rewrite ?length_insert, ?Hth.
      destruct (decide (j = i)) as [->|Hne].
      * rewrite list_lookup_insert_eq by (by eapply lookup_lt_Some).
        rewrite Hj. destruct (Z.eqb_spec (WriteIndex c) cur); [done|].
        split; [lia|]. intros _ p [= <-] _. lia.
      * rewrite list_lookup_insert_ne by done. split; [lia|done].
  - intros [= <-] _. split; [lia|].
    intros -> p Hp Hnr. rewrite Hj in Hp. injection Hp as <-.
    by destruct (Hnr cur).
  - intros [= <-] _. split; [lia|]. intros -> p Hp. congruence.
Qed.

Lemma writers_progress i schedule : forall c,
  writers_inv n s k c -> (i < k)%nat ->
  (steps_left i c <= length (filter (eq i) schedule))%nat ->
  exists c' cur,
    run schedule c = Some c' /\ threads c' !! i = Some (returned cur).
Proof.
  induction schedule as [|j rest IH]; intros c Hinv Hi Hleft.
  - cbn in Hleft. exists c. cbn [run].
    destruct (lookup_lt_is_Some_2 (threads c) i) as [p Hp].
    { by rewrite (wi_threads _ _ _ _ Hinv). }
    unfold steps_left in Hleft. rewrite Hp in Hleft.
    destruct p as [|cur next|cur]; [lia| |by eauto].
    destruct (_ =? _); lia.
  - destruct (writers_step n s k Hn j c Hinv) as (c1 & Hstep & Hinv1).
    destruct (steps_left_step i j c c1 Hinv Hstep) as [Hle Hlt].
    cbn [run]. rewrite Hstep. cbn [mbind option_bind].
    apply IH; [done..|].
    rewrite filter_cons in Hleft.
    destruct (decide (i = j)) as [<-|Hne]; [|lia].
    cbn [length] in Hleft.
    destruct (lookup_lt_is_Some_2 (threads c) i) as [p Hp].
    { by rewrite (wi_threads _ _ _ _ Hinv). }
    destruct p as [|cur next|cur].
    + specialize (Hlt eq_refl _ Hp ltac:(done)). lia.
    + specialize (Hlt eq_refl _ Hp ltac:(done)). lia.
    + unfold steps_left in Hle, Hleft |- *. rewrite Hp in Hle. lia.
Qed.

End WritersProgress.

(** X24. No writer is held up for ever.  With any number [k] of threads
    inside [GetNextWriteIndex], each for one call, an exchange fails only
    after another thread's exchange has succeeded, so a thread whose turn
    comes [2 * k] times in a schedule has returned by the end of it, with
    an index that its own exchange took. *)
Theorem every_writer_returns n s k schedule i :
  0 < n < 2 ^ 32 -> 0 <= s < n -> (i < k)%nat ->
  (2 * k <= length (filter (eq i) schedule))%nat ->
  exists c cur,
    Writers.run schedule (Writers.start n s k) = Some c /\
    Writers.threads c !! i = Some (Writers.returned cur) /\
    (i, cur) ∈ Writers.claims c.
Proof.
  intros Hn Hs Hi Hsteps.
  destruct (writers_progress n s k Hn i schedule (Writers.start n s k)
              (writers_inv_start n s k Hs) Hi) as (c & cur & Hr & Hc).
  { unfold Writers.steps_left, Writers.start.
    cbn [Writers.threads Writers.claims Writers.WriteIndex length].
    rewrite lookup_replicate_2, length_replicate by done. lia. }
  exists c, cur. split_and!; [done..|].
  destruct (writers_run n s k Hn schedule (Writers.start n s k)
              (writers_inv_start n s k Hs)) as (c' & Hr' & Hinv).
  rewrite Hr in Hr'. injection Hr' as <-.
  by apply (wi_returned _ _ _ _ Hinv).
Qed.

(** ** The task and its constructor *)

Section PackingTask.
Import Packing.

Context {FFloat16 float : Type}.
Variable GetFloat : FFloat16 -> float.
Variable CompressImageArray :
  Z -> Z -> list FColor.t -> TArray byte -> TArray byte.

Local Abbreviation DoWork_loop :=
  (DoWork_loop FFloat16 float GetFloat CompressImageArray).
Local Abbreviation DoWork :=
  (DoWork FFloat16 float GetFloat CompressImageArray).
Local Abbreviation RenderResult := (RenderResult FFloat16 float).

Lemma DoWork_loop_params task task' n : forall i (heap : list RenderResult),
  Results task' = Results task ->
  (forall j, (i <= j < i + n)%nat -> Params task' !! j = Params task !! j) ->
  DoWork_loop task' n i heap = DoWork_loop task n i heap.
Proof.
  induction n as [|n IH]; intros i heap Hr Hp; [done|].
  cbn [Packing.DoWork_loop]. rewrite Hr, (Hp i) by lia.
  destruct (Results task !! i) as [ptr|]; [|done]. cbn [mbind option_bind].
  destruct (Params task !! i) as [param|]; [|done]. cbn [mbind option_bind].
  destruct (heap !! ptr) as [result|]; [|done]. cbn [mbind option_bind].
  destruct (Packing.DoWork_entry _ _ _ _ param result) as [result'|];
    [|done].
  cbn [mbind option_bind]. apply IH; [done|]. intros j Hj. apply Hp. lia.
Qed.

(** X23. The constructor and [DoWork] agree on the number of entries: a
    task built from [InReqSize] parameter blocks keeps the first
    [InReqSize] of them and the results it was handed, and [DoWork] on it
    is [DoWork] with all the caller's parameter blocks - the loop never
    asks for a block the constructor did not copy. *)
Theorem new_task_DoWork InParams InResults InReqSize task
  (heap : list RenderResult) :
  new_task InParams InResults InReqSize = Some task ->
  ReqSize task = InReqSize /\ Results task = InResults /\
  length (Params task) = InReqSize /\
  (forall j, (j < InReqSize)%nat ->
     exists param,
       Params task !! j = Some param /\ InParams !! j = Some param) /\
  DoWork task heap
  = DoWork {| Params := InParams; Results := InResults;
              ReqSize := InReqSize |} heap.
Proof.
  unfold new_task.
  destruct (decide (InReqSize <= length InParams)%nat) as [Hle|]; [|done].
  intros [= <-]. cbn [ReqSize Results Params]. split_and!; try done.
  - rewrite length_take. lia.
  - intros j Hj. destruct (lookup_lt_is_Some_2 InParams j) as [param Hp];
      [lia|].
    exists param. split; [|done]. by rewrite lookup_take_lt.
  - unfold Packing.DoWork. cbn [ReqSize]. apply DoWork_loop_params; [done|].
    intros j Hj. cbn [Params]. apply lookup_take_lt. lia.
Qed.

End PackingTask.

(** ** The properties above on concrete inputs *)

Lemma Initialize_reports_witness :
  bIsInitialized (this (fresh 4242)) = false /\
  exists st0,
    Initialize no_space 2 1 1 (fresh 4242) = Some (false, st0) /\
    IsInitialized st0 = Some (false, st0).
Proof.
  split; [reflexivity|].
  exact (Initialize_reports no_space 2 1 1 (fresh 4242) eq_refl).
Defined.

Lemma Initialize_early_failure_witness :
  (released (this (fresh 4242)) /\ mapping (os (fresh 4242)) = None /\
   ftruncate_ret no_space < 0) /\
  exists st0 st1,
    Initialize no_space 2 1 1 (fresh 4242) = Some (false, st0) /\
    SharedMemoryFD (this st0) = 3 /\
    Shutdown st0 = Some (tt, st1) /\
    trace (os st1)
    = trace (os st0) ++ [ev_close 3; ev_shm_unlink (images_name 4242)].
Proof.
  assert (released (this (fresh 4242))) as Hrel
    by (constructor; reflexivity).
  split; [split; [exact Hrel|split; reflexivity]|].
  destruct (Initialize_early_failure no_space 2 1 1 (fresh 4242) Hrel eq_refl
              (or_intror (or_introl eq_refl)))
    as (st0 & st1 & Hi & _ & _ & _ & _ & Hfd & _ & Hsd & Htr).
  exists st0, st1. split; [exact Hi|]. split; [exact Hfd|].
  split; [exact Hsd|exact Htr].
Defined.

Lemma Initialize_semaphore_failure_witness :
  (bIsInitialized (this (fresh 4242)) = false /\
   0 <= shm_open_fd no_read_semaphore /\
   0 <= ftruncate_ret no_read_semaphore /\
   mmap_ok no_read_semaphore = true /\
   sem_open_read_ok no_read_semaphore = false) /\
  exists st0,
    Initialize no_read_semaphore 2 1 1 (fresh 4242) = Some (false, st0) /\
    mapping (os st0) = None /\
    SharedMemoryFD (this st0) = -1 /\
    Shutdown st0 = Some (tt, st0).
Proof.
  split; [split_and!; try reflexivity; discriminate|].
  destruct (Initialize_semaphore_failure no_read_semaphore 2 1 1 (fresh 4242)
              eq_refl ltac:(discriminate) ltac:(discriminate) eq_refl
              (or_intror eq_refl))
    as (st0 & Hi & Hm & _ & _ & _ & Hfd & _ & Hsd).
  exists st0. split; [exact Hi|]. split; [exact Hm|].
  split; [exact Hfd|exact Hsd].
Defined.

Lemma Shutdown_after_use_witness :
  let acts := [act_WriteImage write2x2] in
  let st1 := after_run acts two_slots in
  (bIsInitialized (this (fresh 4242)) = false /\
   Initialize granted 2 1 1 (fresh 4242) = Some (true, two_slots) /\
   run acts two_slots = Some ([true], st1)) /\
  exists st2,
    Shutdown st1 = Some (tt, st2) /\
    mapping (os st2) = None /\
    Shutdown st2 = Some (tt, st2).
Proof.
  intros acts st1.
  assert (Initialize granted 2 1 1 (fresh 4242) = Some (true, two_slots)) as Hi
    by (vm_compute; reflexivity).
  assert (run acts two_slots = Some ([true], st1)) as Hr
    by (vm_compute; reflexivity).
  split; [split; [reflexivity|split; [exact Hi|exact Hr]]|].
  destruct (Shutdown_after_use granted 2 1 1 (fresh 4242) two_slots acts
              [true] st1 eq_refl Hi Hr)
    as (st2 & Hsd & _ & Hm & _ & _ & _ & _ & _ & Hsd2).
  exists st2. split; [exact Hsd|]. split; [exact Hm|exact Hsd2].
Defined.

Lemma Initialize_after_Shutdown_witness :
  (Shutdown two_slots = Some (tt, shut_down two_slots) /\
   all_granted granted = true /\ 0 <= 3 < 2 ^ 32) /\
  exists st2,
    Initialize granted 3 2 2 (shut_down two_slots) = Some (true, st2) /\
    MaxSlots (this st2) = 3 /\
    WriteIndex st2 = Some 0 /\
    write_permits (os st2) = 3.
Proof.
  assert (Shutdown two_slots = Some (tt, shut_down two_slots)) as Hsd
    by (vm_compute; reflexivity).
  split; [split; [exact Hsd|split; [reflexivity|lia]]|].
  destruct (Initialize_after_Shutdown two_slots (shut_down two_slots)
              granted 3 2 2 Hsd eq_refl ltac:(lia))
    as (st2 & Hi & _ & Hn & _ & Hix & _ & Hwp & _).
  exists st2. split; [exact Hi|]. split; [exact Hn|].
  split; [exact Hix|exact Hwp].
Defined.

Lemma header_constants_witness :
  let acts := [act_WriteImage write2x2; act_consumer_take] in
  let st1 := after_run acts two_slots in
  (bIsInitialized (this (fresh 4242)) = false /\ 0 <= 2 < 2 ^ 32 /\
   Initialize granted 2 1 1 (fresh 4242) = Some (true, two_slots) /\
   run acts two_slots = Some ([true], st1)) /\
  peek_uint 4 (0 + hdr_MagicNumber) st1 = Some 0x41495253 /\
  peek_uint 4 (0 + hdr_NumSlots) st1 = Some 2.
Proof.
  intros acts st1.
  assert (Initialize granted 2 1 1 (fresh 4242) = Some (true, two_slots)) as Hi
    by (vm_compute; reflexivity).
  assert (run acts two_slots = Some ([true], st1)) as Hr
    by (vm_compute; reflexivity).
  split; [split; [reflexivity|split; [lia|split; [exact Hi|exact Hr]]]|].
  destruct (header_constants granted 2 1 1 (fresh 4242) two_slots acts
              [true] st1 eq_refl ltac:(lia) Hi Hr) as (Hm & Hn & _).
  split; [exact Hm|exact Hn].
Defined.

Lemma WriteImage_footprint_witness :
  let st' := state_of (WriteImage now 2 2 1000 0 frame12 two_slots) in
  (initialized two_slots /\
   WriteImage now 2 2 1000 0 frame12 two_slots = Some (true, st')) /\
  peek_bytes 0 12 st' = peek_bytes 0 12 two_slots.
Proof.
  intros st'.
  assert (WriteImage now 2 2 1000 0 frame12 two_slots = Some (true, st')) as Hw
    by (vm_compute; reflexivity).
  split; [split; [exact two_slots_initialized|exact Hw]|].
  destruct (WriteImage_footprint now 2 2 1000 0 frame12 two_slots st'
              two_slots_initialized Hw) as (idx & _ & Hfr & _).
  apply Hfr.
  - left. reflexivity.
  - left. pose proof (u32_range (idx * SingleSlotSize (this two_slots))) as Hr.
    unfold slot_at, is_u32 in *. lia.
Defined.

Lemma LastUpdateTime_last_accepted_witness :
  let acts := [act_WriteImage write2x2; act_WriteImage write_earlier] in
  let st1 := after_run acts two_slots in
  (initialized two_slots /\ LastUpdateTime two_slots = Some 0 /\
   run acts two_slots = Some ([true; true], st1)) /\
  LastUpdateTime st1 = Some (last_accepted acts [true; true] 0).
Proof.
  intros acts st1.
  assert (LastUpdateTime two_slots = Some 0) as H0
    by (vm_compute; reflexivity).
  assert (run acts two_slots = Some ([true; true], st1)) as Hr
    by (vm_compute; reflexivity).
  split; [split; [exact two_slots_initialized|split; [exact H0|exact Hr]]|].
  exact (LastUpdateTime_last_accepted acts two_slots [true; true] st1 0
           two_slots_initialized H0 Hr).
Defined.

Lemma read_ready_counts_accepted_witness :
  let acts := [act_WriteImage write2x2; act_WriteImage write2x2;
               act_WriteImage write2x2] in
  let st1 := after_run acts two_slots in
  (forallb is_write acts = true /\
   run acts two_slots = Some ([true; true; false], st1)) /\
  read_ready (os st1)
  = read_ready (os two_slots) + count_accepted [true; true; false].
Proof.
  intros acts st1.
  assert (run acts two_slots = Some ([true; true; false], st1)) as Hr
    by (vm_compute; reflexivity).
  split; [split; [reflexivity|exact Hr]|].
  exact (proj1 (read_ready_counts_accepted acts two_slots
                  [true; true; false] st1 eq_refl Hr)).
Defined.

Lemma GetSlot_layout_witness :
  (bIsInitialized (this (fresh 4242)) = false /\
   HeaderSize + 1 * 1 * 3 <= 2 ^ 32 - 4096 /\
   2 * ceil_to_4096 (HeaderSize + 1 * 1 * 3) < 2 ^ 32 /\
   Initialize granted 2 1 1 (fresh 4242) = Some (true, two_slots)) /\
  GetSlot 2 two_slots = Some (None, two_slots) /\
  GetSlot 1 two_slots
  = Some (Some (4096 + 1 * SingleSlotSize (this two_slots)), two_slots).
Proof.
  assert (HeaderSize + 1 * 1 * 3 <= 2 ^ 32 - 4096) as Hfit
    by (vm_compute; discriminate).
  assert (2 * ceil_to_4096 (HeaderSize + 1 * 1 * 3) < 2 ^ 32) as Htot
    by (vm_compute; reflexivity).
  assert (Initialize granted 2 1 1 (fresh 4242) = Some (true, two_slots)) as Hi
    by (vm_compute; reflexivity).
  split;
    [split; [reflexivity|split; [exact Hfit|split; [exact Htot|exact Hi]]]|].
  destruct (GetSlot_layout granted 2 1 1 (fresh 4242) two_slots eq_refl
              ltac:(lia) ltac:(lia) ltac:(lia) Hfit Htot Hi)
    as (Hout & Hin & _).
  split; [apply Hout; lia|]. exact (proj1 (Hin 1 ltac:(lia))).
Defined.

Lemma WriteImages_attempts_all_witness :
  let Images := [image2x2; image_short; image2x2] in
  Forall readable Images /\
  WriteImages [] Images two_slots
  = match run (map act_WriteImage (batch_calls [] Images)) two_slots with
    | Some (oks, st') => Some (forallb id oks, st')
    | None => None
    end.
Proof.
  intros Images.
  assert (Forall readable Images) as Hrd.
  { repeat constructor; try (vm_compute; reflexivity);
      vm_compute; discriminate. }
  split; [exact Hrd|].
  exact (proj1 (WriteImages_attempts_all [] Images two_slots Hrd)).
Defined.

Lemma release_admits_next_witness :
  let acts := [act_WriteImage write2x2; act_WriteImage write2x2] in
  let st1 := after_run acts two_slots in
  (bIsInitialized (this (fresh 4242)) = false /\
   2 * slot_size_for 1 1 < 2 ^ 32 /\
   Initialize granted 2 1 1 (fresh 4242) = Some (true, two_slots) /\
   forallb is_write acts = true /\
   run acts two_slots = Some ([true; true], st1) /\
   count_accepted [true; true] = 2 /\
   required_size (c_Width write2x2) (c_Height write2x2)
   <= Num (c_PixelData write2x2) /\
   required_size (c_Width write2x2) (c_Height write2x2)
   <= slot_size_for 1 1 - HeaderSize) /\
  (exists st2, run [act_WriteImage write2x2] st1 = Some ([false], st2)) /\
  (exists st3,
     run [act_consumer_release; act_WriteImage write2x2] st1
     = Some ([true], st3) /\
     claimed (trace (os st3)) = claimed (trace (os st1)) ++ [0]).
Proof.
  intros acts st1.
  assert (2 * slot_size_for 1 1 < 2 ^ 32) as Hnw by (vm_compute; reflexivity).
  assert (Initialize granted 2 1 1 (fresh 4242) = Some (true, two_slots)) as Hi
    by (vm_compute; reflexivity).
  assert (run acts two_slots = Some ([true; true], st1)) as Hr
    by (vm_compute; reflexivity).
  assert (count_accepted [true; true] = 2) as Hc by (vm_compute; reflexivity).
  assert (required_size (c_Width write2x2) (c_Height write2x2)
          <= Num (c_PixelData write2x2)) as Hlen
    by (vm_compute; discriminate).
  assert (required_size (c_Width write2x2) (c_Height write2x2)
          <= slot_size_for 1 1 - HeaderSize) as Hcap
    by (vm_compute; discriminate).
  split; [split_and!; first [assumption|reflexivity]|].
  exact (release_admits_next granted 2 1 1 (fresh 4242) two_slots acts
           [true; true] st1 write2x2 eq_refl ltac:(lia) Hnw Hi eq_refl Hr Hc
           ltac:(discriminate) ltac:(discriminate) Hlen Hcap).
Defined.

Lemma GetSharedMemoryName_per_process_witness :
  let st0' := state_of (Initialize granted 2 1 1 (fresh 4243)) in
  (bIsInitialized (this (fresh 4242)) = false /\
   bIsInitialized (this (fresh 4243)) = false /\
   Initialize granted 2 1 1 (fresh 4242) = Some (true, two_slots) /\
   Initialize granted 2 1 1 (fresh 4243) = Some (true, st0')) /\
  GetSharedMemoryName two_slots = Some (images_name 4242, two_slots) /\
  SharedMemoryName (this two_slots) <> SharedMemoryName (this st0').
Proof.
  intros st0'.
  assert (Initialize granted 2 1 1 (fresh 4242) = Some (true, two_slots)) as Hi
    by (vm_compute; reflexivity).
  assert (Initialize granted 2 1 1 (fresh 4243) = Some (true, st0')) as Hi'
    by (vm_compute; reflexivity).
  split; [split_and!; first [assumption|reflexivity]|].
  destruct (GetSharedMemoryName_per_process granted 2 1 1 (fresh 4242)
              two_slots granted 2 1 1 (fresh 4243) st0' eq_refl eq_refl
              Hi Hi') as (Hname & Hiff & _).
  split; [exact Hname|].
  intros Heq. apply Hiff in Heq. discriminate Heq.
Defined.

Lemma WriteImage_false_iff_witness :
  (initialized two_slots /\
   WriteImage now 0 2 1000 0 frame12 two_slots = Some (false, two_slots)) /\
  (false = false <->
   0 = 0 \/ 2 = 0 \/ Num frame12 < required_size 0 2 \/
   write_permits (os two_slots) <= 0).
Proof.
  assert (WriteImage now 0 2 1000 0 frame12 two_slots
          = Some (false, two_slots)) as Hw by reflexivity.
  split; [split; [exact two_slots_initialized|exact Hw]|].
  exact (WriteImage_false_iff now 0 2 1000 0 frame12 two_slots false
           two_slots two_slots_initialized Hw).
Defined.

Lemma WriteImage_refusal_changes_nothing_witness :
  let st' := state_of (WriteImage now 2 2 1000 0 [] two_slots) in
  (initialized two_slots /\
   WriteImage now 2 2 1000 0 [] two_slots = Some (false, st')) /\
  mapping (os st') = mapping (os two_slots) /\
  write_permits (os st') = write_permits (os two_slots).
Proof.
  intros st'.
  assert (WriteImage now 2 2 1000 0 [] two_slots = Some (false, st')) as Hw
    by (vm_compute; reflexivity).
  split; [split; [exact two_slots_initialized|exact Hw]|].
  destruct (WriteImage_refusal_changes_nothing now 2 2 1000 0 [] two_slots st'
              two_slots_initialized Hw) as (_ & Hm & _ & Hp & _).
  split; [exact Hm|exact Hp].
Defined.

Lemma WriteImages_needs_permits_witness :
  let Images := [image2x2; image2x2; image2x2] in
  (initialized two_slots /\ 0 < MaxSlots (this two_slots) /\
   TotalSize (this two_slots)
   = 4096 + MaxSlots (this two_slots) * SingleSlotSize (this two_slots) /\
   MaxSlots (this two_slots) * SingleSlotSize (this two_slots) < 2 ^ 32 /\
   Forall readable Images /\
   Forall (writable (SingleSlotSize (this two_slots)))
     (batch_calls [] Images) /\
   0 <= write_permits (os two_slots)) /\
  exists st',
    WriteImages [] Images two_slots
    = Some (Num Images <=? write_permits (os two_slots), st') /\
    (Num Images <=? write_permits (os two_slots)) = false.
Proof.
  intros Images.
  assert (0 < MaxSlots (this two_slots)) as Hn by (vm_compute; reflexivity).
  assert (TotalSize (this two_slots)
          = 4096 + MaxSlots (this two_slots) * SingleSlotSize (this two_slots))
    as Htot by (vm_compute; reflexivity).
  assert (MaxSlots (this two_slots) * SingleSlotSize (this two_slots) < 2 ^ 32)
    as Hnw by (vm_compute; reflexivity).
  assert (Forall readable Images) as Hrd.
  { repeat constructor; try (vm_compute; reflexivity);
      vm_compute; discriminate. }
  assert (Forall (writable (SingleSlotSize (this two_slots)))
            (batch_calls [] Images)) as Hwr.
  { repeat constructor; try (vm_compute; reflexivity);
      vm_compute; discriminate. }
  assert (0 <= write_permits (os two_slots)) as Hp
    by (vm_compute; discriminate).
  split; [split_and!; try assumption; exact two_slots_initialized|].
  destruct (WriteImages_needs_permits [] Images two_slots
              two_slots_initialized Hn Htot Hnw Hrd Hwr Hp) as (st' & Hw & _).
  exists st'. split; [exact Hw|]. vm_compute. reflexivity.
Defined.

Lemma DoWork_packs_float_witness :
  (Packing.Results (one_entry float_params) !! 0%nat = Some 0%nat /\
   Packing.Params (one_entry float_params) !! 0%nat = Some float_params /\
   [depth_2x1] !! 0%nat = Some depth_2x1 /\
   Num (Packing.bmp_float depth_2x1)
   <= Packing.width depth_2x1 * Packing.height depth_2x1 < 2 ^ 31) /\
  Packing.DoWork_loop Z Z id no_compression (one_entry float_params) 1 0
    [depth_2x1]
  = Packing.DoWork_loop Z Z id no_compression (one_entry float_params) 0 1
      [Packing.with_image_data_float Z Z [Some 5; Some 6] depth_2x1].
Proof.
  assert (Num (Packing.bmp_float depth_2x1)
          <= Packing.width depth_2x1 * Packing.height depth_2x1 < 2 ^ 31)
    as Hsz by (vm_compute; split; [discriminate|reflexivity]).
  split; [split_and!; try reflexivity; exact Hsz|].
  exact (proj1 (DoWork_packs_float id no_compression (one_entry float_params)
                  0 0 [depth_2x1] 0 float_params depth_2x1
                  eq_refl eq_refl eq_refl eq_refl Hsz)).
Defined.

Lemma DoWork_keeps_sources_witness :
  let heap' :=
    [Packing.with_image_data_uint8 Z Z [Some 3; Some 2; Some 1] result_1x1] in
  Packing.DoWork Z Z id no_compression (one_entry uint8_params) [result_1x1]
  = Some heap' /\
  length heap' = length [result_1x1].
Proof.
  intros heap'.
  assert (Packing.DoWork Z Z id no_compression (one_entry uint8_params)
            [result_1x1] = Some heap') as Hd by reflexivity.
  split; [exact Hd|].
  exact (proj1 (DoWork_keeps_sources id no_compression
                  (one_entry uint8_params) [result_1x1] heap' Hd)).
Defined.

Lemma DoWork_bitmap_too_long_witness :
  (Packing.Results (one_entry uint8_params) !! 0%nat = Some 0%nat /\
   Packing.Params (one_entry uint8_params) !! 0%nat = Some uint8_params /\
   [result_1x1_two_pixels] !! 0%nat = Some result_1x1_two_pixels /\
   Packing.width result_1x1_two_pixels * Packing.height result_1x1_two_pixels
   < Num (Packing.bmp result_1x1_two_pixels)) /\
  Packing.DoWork_loop Z Z id no_compression (one_entry uint8_params) 1 0
    [result_1x1_two_pixels] = None.
Proof.
  assert (Packing.width result_1x1_two_pixels
          * Packing.height result_1x1_two_pixels
          < Num (Packing.bmp result_1x1_two_pixels)) as Hlong
    by (vm_compute; reflexivity).
  split; [split_and!; try reflexivity; exact Hlong|].
  apply (DoWork_bitmap_too_long id no_compression (one_entry uint8_params)
           0 0 [result_1x1_two_pixels] 0 uint8_params result_1x1_two_pixels
           eq_refl eq_refl eq_refl).
  split; [reflexivity|]. split; [discriminate|]. split; [discriminate|].
  exact Hlong.
Defined.

Lemma DoWork_entry_again_witness :
  let result' :=
    Packing.with_image_data_uint8 Z Z [Some 3; Some 2; Some 1] result_1x1 in
  (Packing.compress uint8_params = false /\
   Packing.DoWork_entry Z Z id no_compression uint8_params result_1x1
   = Some result') /\
  Packing.DoWork_entry Z Z id no_compression uint8_params result'
  = Some result'.
Proof.
  intros result'. split; [split; reflexivity|].
  exact (DoWork_entry_again id no_compression uint8_params result_1x1 result'
           (or_introl eq_refl) eq_refl).
Defined.

Lemma DoWork_completes_witness :
  (forall j, (j < Packing.ReqSize (one_entry uint8_params))%nat ->
     exists ptr param r,
       Packing.Results (one_entry uint8_params) !! j = Some ptr /\
       Packing.Params (one_entry uint8_params) !! j = Some param /\
       [result_1x1] !! ptr = Some r /\ Packing.packable Z Z param r) /\
  exists heap',
    Packing.DoWork Z Z id no_compression (one_entry uint8_params) [result_1x1]
    = Some heap' /\
    length heap' = length [result_1x1].
Proof.
  assert (forall j, (j < Packing.ReqSize (one_entry uint8_params))%nat ->
            exists ptr param r,
              Packing.Results (one_entry uint8_params) !! j = Some ptr /\
              Packing.Params (one_entry uint8_params) !! j = Some param /\
              [result_1x1] !! ptr = Some r /\ Packing.packable Z Z param r)
    as Hok.
  { intros j Hj. exists 0%nat, uint8_params, result_1x1.
    destruct j as [|j]; [|cbn in Hj; lia].
    split_and!; try reflexivity.
    right. right. split; [vm_compute; split; [discriminate|reflexivity]|].
    right. vm_compute. discriminate. }
  split; [exact Hok|].
  exact (DoWork_completes id no_compression (one_entry uint8_params)
           [result_1x1] Hok).
Defined.

Lemma concurrent_claims_witness :
  (0 < 3 < 2 ^ 32 /\ 0 <= 0 < 3) /\
  exists c,
    Writers.run [0; 1; 1; 0; 0; 0]%nat (Writers.start 3 0 2) = Some c /\
    Writers.WriteIndex c = (0 + Z.of_nat (length (Writers.claims c))) mod 3 /\
    NoDup (Writers.claims c).*1.
Proof.
  split; [lia|].
  destruct (concurrent_claims 3 0 2 [0; 1; 1; 0; 0; 0]%nat ltac:(lia)
              ltac:(lia)) as (c & Hr & _ & Hw & _ & Hnd & _).
  exists c. split; [exact Hr|]. split; [exact Hw|exact Hnd].
Defined.

Lemma every_writer_returns_witness :
  (0 < 3 < 2 ^ 32 /\ 0 <= 0 < 3 /\ (0 < 2)%nat /\
   (2 * 2 <= length (filter (eq 0%nat) [0; 1; 1; 0; 0; 0]%nat))%nat) /\
  exists c cur,
    Writers.run [0; 1; 1; 0; 0; 0]%nat (Writers.start 3 0 2) = Some c /\
    Writers.threads c !! 0%nat = Some (Writers.returned cur).
Proof.
  assert (2 * 2 <= length (filter (eq 0%nat) [0; 1; 1; 0; 0; 0]%nat))%nat
    as Hsteps by (vm_compute; lia).
  split; [split_and!; [lia..|exact Hsteps]|].
  destruct (every_writer_returns 3 0 2 [0; 1; 1; 0; 0; 0]%nat 0%nat
              ltac:(lia) ltac:(lia) ltac:(lia) Hsteps)
    as (c & cur & Hr & Hc & _).
  exists c, cur. split; [exact Hr|exact Hc].
Defined.

Lemma new_task_DoWork_witness :
  let task := one_entry uint8_params in
  Packing.new_task [uint8_params; float_params] [0%nat] 1 = Some task /\
  Packing.DoWork Z Z id no_compression task [result_1x1]
  = Packing.DoWork Z Z id no_compression
      {| Packing.Params := [uint8_params; float_params];
         Packing.Results := [0%nat]; Packing.ReqSize := 1 |} [result_1x1].
Proof.
  intros task.
  assert (Packing.new_task [uint8_params; float_params] [0%nat] 1 = Some task)
    as Hn by reflexivity.
  split; [exact Hn|].
  exact (proj2 (proj2 (proj2 (proj2
           (new_task_DoWork id no_compression
              [uint8_params; float_params] [0%nat] 1%nat task [result_1x1]
              Hn))))).
Defined.
